(** * HOI4 GFX Manager: the declarative-file parsers and the usage analyzer

    A shallow embedding of [src/gui_previewer.py] ([ScriptedGUIParser],
    [HOI4GUIParser]) and of [AnalysisWorker.run] in [src/main.py], with the
    Python primitives they rest on: [str] methods, the [re] module's
    backtracking matcher, insertion-ordered [dict]s.

    Modelling conventions.
    - A Python [str] is a [text]: a list of characters whose code points are
      below 256 (the Latin-1 range of Unicode).  The character classes
      [\s], [\w], [\d] and [str.strip] follow Python's Unicode tables on that
      range.
    - The interpreter is CPython 3.11 or later with its default limits:
      [int(...)] raises [ValueError] on a string of more than 4300 digits,
      and a call nested deeper than the recursion limit of 1000 raises
      [RecursionError].
    - A [float] is carried as the decimal literal it was read from.
    - A [dict] is an association list in insertion order; a [set] is a
      duplicate-free list in insertion order.
    - Mutable parser attributes are threaded explicitly as a state record. *)

From Stdlib Require Import Ascii String.
From Stdlib Require Import List Bool Arith ZArith Lia.
Import ListNotations.
Open Scope bool_scope.

(* ===================================================================== *)
(** ** Python [str] primitives *)
(* ===================================================================== *)

Module PyStr.

Definition text := list ascii.

(** A literal. *)
Definition str (s : string) : text := list_ascii_of_string s.
#[global] Arguments str s%_string.

Definition dquote : ascii := ascii_of_nat 34.
Definition squote : ascii := ascii_of_nat 39.
Definition newline : ascii := ascii_of_nat 10.
Definition backslash : ascii := ascii_of_nat 92.

(** A literal in which the backquote stands for the double quote. *)
Definition qstr (s : string) : text :=
map (fun c => if Ascii.eqb c "`"%char then dquote else c) (str s).
#[global] Arguments qstr s%_string.

Definition code (c : ascii) : nat := nat_of_ascii c.

Definition in_range (lo hi : nat) (c : ascii) : bool :=
(lo <=? code c) && (code c <=? hi).

(** [str.isspace] / [\s] on code points below 256. *)
Definition is_space (c : ascii) : bool :=
in_range 9 13 c || in_range 28 32 c || (code c =? 133) || (code c =? 160).

(** [\d]: decimal digits. *)
Definition is_digit (c : ascii) : bool := in_range 48 57 c.

(** [str.isalnum] on code points below 256. *)
Definition is_alnum (c : ascii) : bool :=
in_range 48 57 c || in_range 65 90 c || in_range 97 122 c
|| (code c =? 170) || (code c =? 178) || (code c =? 179) || (code c =? 181)
|| (code c =? 185) || (code c =? 186) || in_range 188 190 c
|| in_range 192 214 c || in_range 216 246 c || in_range 248 255 c.

(** [\w]. *)
Definition is_word (c : ascii) : bool := is_alnum c || (code c =? 95).

(** [str.lower] on one character. *)
Definition lower_char (c : ascii) : ascii :=
if in_range 65 90 c || in_range 192 214 c || in_range 216 222 c
then ascii_of_nat (code c + 32) else c.

Definition lower (s : text) : text := map lower_char s.

Fixpoint text_eqb (a b : text) : bool :=
match a, b with
| [], [] => true
| x :: a', y :: b' => Ascii.eqb x y && text_eqb a' b'
| _, _ => false
end.

(** [s.startswith(p)]. *)
Fixpoint startswith (s p : text) : bool :=
match p, s with
| [], _ => true
| x :: p', y :: s' => Ascii.eqb x y && startswith s' p'
| _ :: _, [] => false
end.

Definition endswith (s p : text) : bool := startswith (rev s) (rev p).

(** [p in s] for strings. *)
Fixpoint contains (s p : text) : bool :=
startswith s p ||
match s with
| [] => false
| _ :: s' => contains s' p
end.

Definition has_char (c : ascii) (s : text) : bool := existsb (Ascii.eqb c) s.

Fixpoint dropwhile (p : ascii -> bool) (s : text) : text :=
match s with
| [] => []
| c :: s' => if p c then dropwhile p s' else s
end.

Fixpoint takewhile (p : ascii -> bool) (s : text) : text :=
match s with
| [] => []
| c :: s' => if p c then c :: takewhile p s' else []
end.

Definition strip_by (p : ascii -> bool) (s : text) : text :=
rev (dropwhile p (rev (dropwhile p s))).

(** [s.strip()]. *)
Definition strip (s : text) : text := strip_by is_space s.

(** [s.strip(chars)]. *)
Definition strip_chars (chars : text) (s : text) : text :=
strip_by (fun c => has_char c chars) s.

(** [s[:s.index(c)]] when [c in s]. *)
Definition before_char (c : ascii) (s : text) : text :=
takewhile (fun x => negb (Ascii.eqb x c)) s.

(** [s.split(c)] for a one-character separator. *)
Fixpoint split_on (c : ascii) (s : text) : list text :=
match s with
| [] => [[]]
| x :: s' =>
  if Ascii.eqb x c then [] :: split_on c s'
  else match split_on c s' with
       | [] => [[x]]
       | l :: ls => (x :: l) :: ls
       end
end.

(** [sep.join(parts)]. *)
Fixpoint join (sep : text) (parts : list text) : text :=
match parts with
| [] => []
| [p] => p
| p :: ps => p ++ sep ++ join sep ps
end.

(** [s.split(c, 1)] when [c in s]: the text before the first [c] and the text after it. *)
Definition split_once (c : ascii) (s : text) : text * text :=
let key := before_char c s in (key, skipn (S (length key)) s).

(** [s.replace(p, '')] for a non-empty [p]: [skip] characters of a match are
    still to be dropped. *)
Fixpoint remove_all_aux (p : text) (skip : nat) (s : text) : text :=
match s with
| [] => []
| c :: s' =>
  match skip with
  | S k => remove_all_aux p k s'
  | O => if startswith s p then remove_all_aux p (length p - 1) s'
         else c :: remove_all_aux p 0 s'
  end
end.

Definition remove_all (p : text) (s : text) : text := remove_all_aux p 0 s.

Definition digit_char (d : nat) : ascii := ascii_of_nat (48 + d).

Fixpoint digits_of_pos_fuel (fuel : nat) (n : N) (acc : text) : text :=
match fuel with
| O => acc
| S f =>
  let acc' := digit_char (N.to_nat (n mod 10)) :: acc in
  if (n / 10 =? 0)%N then acc' else digits_of_pos_fuel f (n / 10)%N acc'
end.

(** [str(n)] for an [int]. *)
Definition str_of_Z (z : Z) : text :=
let n := Z.abs_N z in
let ds := digits_of_pos_fuel (S (N.to_nat (N.log2 n))) n [] in
if (z <? 0)%Z then "-"%char :: ds else ds.

Definition digit_val (c : ascii) : Z := Z.of_nat (code c - 48).

(** A call returns or raises an [Exception], of which the message is kept. *)
Inductive outcome (A : Type) : Type :=
| Returned (a : A)
| Raised (message : text).
#[global] Arguments Returned {A} a.
#[global] Arguments Raised {A} message.

(** The rest of a computation runs on what a call returned; what it raised
    goes on to the caller. *)
Definition bind {A B : Type} (o : outcome A) (k : A -> outcome B) : outcome B :=
match o with
| Returned a => k a
| Raised e => Raised e
end.

(** The number that [s], matching [[+-]?\d+], writes. *)
Definition int_value (s : text) : Z :=
let number ds := fold_left (fun acc c => (acc * 10 + digit_val c)%Z) ds 0%Z in
match s with
| c :: ds =>
  if Ascii.eqb c "-"%char then (- number ds)%Z
  else if Ascii.eqb c "+"%char then number ds
  else number s
| [] => 0%Z
end.

(** [sys.get_int_max_str_digits()], the interpreter's default. *)
Definition int_max_str_digits : nat := 4300.

(** The digits of [s], its sign apart. *)
Definition int_digits (s : text) : text :=
match s with
| c :: ds => if Ascii.eqb c "-"%char || Ascii.eqb c "+"%char then ds else s
| [] => []
end.

(** The message of the [ValueError] that [int] raises on [digits] digits. *)
Definition int_limit_message (digits : nat) : text :=
str "Exceeds the limit (4300 digits) for integer string conversion: value has "
++ str_of_Z (Z.of_nat digits)
++ str " digits; use sys.set_int_max_str_digits() to increase the limit".

(** [int(s)] for [s] matching [[+-]?\d+]: the number, or [ValueError] when
    there are more digits than the limit allows. *)
Definition int_of_text (s : text) : outcome Z :=
if int_max_str_digits <? length (int_digits s)
then Raised (int_limit_message (length (int_digits s)))
else Returned (int_value s).

End PyStr.
Export PyStr.

Notation "x <- o ;; k" := (bind o (fun x => k))
  (at level 61, o at next level, right associativity).

(* ===================================================================== *)
(** ** Python [re]: patterns and the backtracking matcher *)
(* ===================================================================== *)

Module PyRe.

(** The members of a bracketed character set. *)
Inductive cset : Type :=
| CChar (c : ascii)
| CRange (lo hi : ascii)
| CSpace
| CWord
| CDigit.

(** Patterns as [sre_parse] reads them.  [Plus] and [Opt] are the usual
    derived forms; every group is numbered as in the pattern. *)
Inductive regex : Type :=
| Eps
| Chr (c : ascii)
| Cls (negated : bool) (members : list cset)
| Dot
| Bol
| Seq (r1 r2 : regex)
| Alt (r1 r2 : regex)
| Star (greedy : bool) (r : regex)
| Group (n : nat) (r : regex)
| Backref (n : nat).

Definition Plus (r : regex) : regex := Seq r (Star true r).
Definition Opt (r : regex) : regex := Alt r Eps.

(** The literal [s]. *)
Fixpoint Lit (s : text) : regex :=
match s with
| [] => Eps
| [c] => Chr c
| c :: s' => Seq (Chr c) (Lit s')
end.

(** A sequence of patterns. *)
Fixpoint Cat (rs : list regex) : regex :=
match rs with
| [] => Eps
| [r] => r
| r :: rs' => Seq r (Cat rs')
end.

(** [\s], [\w], [\d] outside brackets. *)
Definition Sp : regex := Cls false [CSpace].
Definition Wd : regex := Cls false [CWord].
Definition Dg : regex := Cls false [CDigit].

Record flags : Type := mkFlags
{ IGNORECASE : bool; MULTILINE : bool; DOTALL : bool }.

Definition no_flags : flags := mkFlags false false false.

(** Where the matcher stands: the offset, the character before it, the text
    still to read. *)
Record cursor : Type := mkCursor
{ c_pos : nat; c_prev : option ascii; c_rest : text }.

Definition start_of (s : text) : cursor := mkCursor 0 None s.

Definition advance (c : cursor) (x : ascii) (rest : text) : cursor :=
mkCursor (S (c_pos c)) (Some x) rest.

(** Group number to captured text, latest binding first. *)
Definition captures := list (nat * text).

Fixpoint capture (g : captures) (n : nat) : option text :=
match g with
| [] => None
| (m, t) :: g' => if n =? m then Some t else capture g' n
end.

Definition cset_has (m : cset) (x : ascii) : bool :=
match m with
| CChar c => Ascii.eqb c x
| CRange lo hi => in_range (code lo) (code hi) x
| CSpace => is_space x
| CWord => is_word x
| CDigit => is_digit x
end.

(** The other case of a letter: only the letters of ASCII have one that a
    pattern of this program can name. *)
Definition swap_case (x : ascii) : ascii :=
if in_range 65 90 x then ascii_of_nat (code x + 32)
else if in_range 97 122 x then ascii_of_nat (code x - 32)
else x.

Definition chr_matches (fl : flags) (c x : ascii) : bool :=
Ascii.eqb c x || (IGNORECASE fl && Ascii.eqb c (swap_case x)).

Definition members_have (fl : flags) (ms : list cset) (x : ascii) : bool :=
existsb (fun m => cset_has m x) ms
|| (IGNORECASE fl && existsb (fun m => cset_has m (swap_case x)) ms).

Definition cls_matches (fl : flags) (negated : bool) (ms : list cset) (x : ascii) : bool :=
if negated then negb (members_have fl ms x) else members_have fl ms x.

Definition dot_matches (fl : flags) (x : ascii) : bool :=
DOTALL fl || negb (Ascii.eqb x newline).

Definition at_bol (fl : flags) (c : cursor) : bool :=
match c_prev c with
| None => true
| Some p => MULTILINE fl && Ascii.eqb p newline
end.

(** Reading the text [t] at the cursor (a back-reference). *)
Fixpoint read_text (fl : flags) (t : text) (c : cursor) : option cursor :=
match t with
| [] => Some c
| a :: t' =>
  match c_rest c with
  | x :: rest => if chr_matches fl a x then read_text fl t' (advance c x rest) else None
  | [] => None
  end
end.

Section Matcher.
Variable R : Type.
Variable fl : flags.

(** The repetition of a star: [body] is the matcher of the star's pattern,
    [n] bounds the number of turns (each reads at least one character).  A
    greedy star tries one more turn before going on with [k], a lazy one goes
    on with [k] first.  A turn that reads nothing ends the repetition. *)
Fixpoint star_loop
  (body : cursor -> captures -> (cursor -> captures -> option R) -> option R)
  (greedy : bool) (k : cursor -> captures -> option R)
  (n : nat) (c : cursor) (g : captures) {struct n} : option R :=
match n with
| O => k c g
| S n' =>
  let again (_ : unit) :=
    body c g (fun c' g' =>
      if c_pos c <? c_pos c' then star_loop body greedy k n' c' g' else None) in
  if greedy then
    match again tt with
    | Some res => Some res
    | None => k c g
    end
  else
    match k c g with
    | Some res => Some res
    | None => again tt
    end
end.

(** The matcher in continuation-passing style: [k] is what remains of the
    pattern; alternatives are tried in the order of Python's matcher (left
    branch first, a greedy star the longest first, a lazy one the shortest
    first) and the first success is the answer. *)
Fixpoint exec (r : regex) (c : cursor) (g : captures)
  (k : cursor -> captures -> option R) {struct r} : option R :=
match r with
| Eps => k c g
| Chr a =>
  match c_rest c with
  | x :: rest => if chr_matches fl a x then k (advance c x rest) g else None
  | [] => None
  end
| Cls negated ms =>
  match c_rest c with
  | x :: rest => if cls_matches fl negated ms x then k (advance c x rest) g else None
  | [] => None
  end
| Dot =>
  match c_rest c with
  | x :: rest => if dot_matches fl x then k (advance c x rest) g else None
  | [] => None
  end
| Bol => if at_bol fl c then k c g else None
| Seq r1 r2 => exec r1 c g (fun c' g' => exec r2 c' g' k)
| Alt r1 r2 =>
  match exec r1 c g k with
  | Some res => Some res
  | None => exec r2 c g k
  end
| Star greedy r1 => star_loop (exec r1) greedy k (length (c_rest c)) c g
| Group n r1 =>
  exec r1 c g (fun c' g' =>
    k c' ((n, firstn (c_pos c' - c_pos c) (c_rest c)) :: g'))
| Backref n =>
  match capture g n with
  | Some t =>
    match read_text fl t c with
    | Some c' => k c' g
    | None => None
    end
  | None => None
  end
end.

End Matcher.

(** A match object: [start()], [end()], the groups, and the cursor after it. *)
Record Match : Type := mkMatch
{ m_start : nat; m_end : nat; m_groups : captures; m_after : cursor }.

(** [m.group(n)] for [n >= 1]: [None] when the group took no part. *)
Definition group (m : Match) (n : nat) : option text := capture (m_groups m) n.

(** The pattern at the cursor.  With [must_advance], an empty match is refused. *)
Definition match_at (fl : flags) (r : regex) (must_advance : bool) (c : cursor) : option Match :=
exec Match fl r c [] (fun c' g' =>
  if must_advance && (c_pos c' =? c_pos c) then None
  else Some (mkMatch (c_pos c) (c_pos c') g' c')).

(** The leftmost match at or after the cursor. *)
Fixpoint search_rest (fl : flags) (r : regex) (must_advance : bool)
  (pos : nat) (prev : option ascii) (rest : text) {struct rest} : option Match :=
match match_at fl r must_advance (mkCursor pos prev rest) with
| Some m => Some m
| None =>
  match rest with
  | [] => None
  | x :: rest' => search_rest fl r false (S pos) (Some x) rest'
  end
end.

Definition search_from (fl : flags) (r : regex) (must_advance : bool) (c : cursor) : option Match :=
search_rest fl r must_advance (c_pos c) (c_prev c) (c_rest c).

(** [re.search(pattern, s, flags)]. *)
Definition search (fl : flags) (r : regex) (s : text) : option Match :=
search_from fl r false (start_of s).

(** The cursor at offset [i] of the text [s]. *)
Definition cursor_at (s : text) (i : nat) : cursor :=
mkCursor i (match i with O => None | S j => nth_error s j end) (skipn i s).

(** The cursor after reading the characters [s]. *)
Fixpoint feed (c : cursor) (s : text) : cursor :=
match s with
| [] => c
| x :: s' => feed (advance c x (tl (c_rest c))) s'
end.

(** The cursor [c'] lies [consumed] further on than [c], at least [n]
    characters away. *)
Definition reach (n : nat) (c c' : cursor) : Prop :=
exists consumed,
  c_rest c = consumed ++ c_rest c' /\
  c_pos c' = c_pos c + length consumed /\
  n <= length consumed.

(** The least number of characters a match of the pattern reads. *)
Fixpoint min_len (r : regex) : nat :=
match r with
| Chr _ | Cls _ _ | Dot => 1
| Seq r1 r2 => min_len r1 + min_len r2
| Alt r1 r2 => Nat.min (min_len r1) (min_len r2)
| Group _ r1 => min_len r1
| Eps | Bol | Star _ _ | Backref _ => 0
end.

(** [m.group(0)], given the text searched. *)
Definition matched_text (s : text) (m : Match) : text :=
firstn (m_end m - m_start m) (skipn (m_start m) s).

(** The successive non-overlapping matches: after an empty match the next
    one must read something or start further on. *)
Fixpoint finditer_fuel (fuel : nat) (fl : flags) (r : regex)
  (must_advance : bool) (c : cursor) : list Match :=
match fuel with
| O => []
| S fuel' =>
  match search_from fl r must_advance c with
  | None => []
  | Some m => m :: finditer_fuel fuel' fl r (m_end m =? m_start m) (m_after m)
  end
end.

(** [re.finditer(pattern, s, flags)]. *)
Definition finditer (fl : flags) (r : regex) (s : text) : list Match :=
finditer_fuel (2 * length s + 2) fl r false (start_of s).

(** The number of groups of a pattern. *)
Fixpoint ngroups (r : regex) : nat :=
match r with
| Seq r1 r2 | Alt r1 r2 => Nat.max (ngroups r1) (ngroups r2)
| Star _ r1 => ngroups r1
| Group n r1 => Nat.max n (ngroups r1)
| _ => 0
end.

(** An element of [re.findall]'s result: a string, or a tuple of strings when
    the pattern has several groups. *)
Inductive found : Type :=
| FStr (s : text)
| FTuple (parts : list text).

Definition group_or_empty (m : Match) (n : nat) : text :=
match group m n with
| Some t => t
| None => []
end.

Definition found_of (r : regex) (s : text) (m : Match) : found :=
match ngroups r with
| 0 => FStr (matched_text s m)
| 1 => FStr (group_or_empty m 1)
| n => FTuple (map (group_or_empty m) (seq 1 n))
end.

(** [re.findall(pattern, s, flags)]. *)
Definition findall (fl : flags) (r : regex) (s : text) : list found :=
map (found_of r s) (finditer fl r s).

End PyRe.
Export PyRe.

(* ===================================================================== *)
(** ** Python [dict] and [set] of strings *)
(* ===================================================================== *)

Module PyDict.

(** A [dict] keyed by strings, in insertion order. *)
Definition dict (V : Type) : Type := list (text * V).

Section Dict.
Context {V : Type}.

(** [d.get(k)]. *)
Fixpoint get (d : dict V) (k : text) : option V :=
match d with
| [] => None
| (k', v) :: d' => if text_eqb k k' then Some v else get d' k
end.

(** [k in d]. *)
Definition has_key (d : dict V) (k : text) : bool :=
match get d k with
| Some _ => true
| None => false
end.

(** [d[k] = v]: a key already present keeps its place. *)
Fixpoint set (d : dict V) (k : text) (v : V) : dict V :=
match d with
| [] => [(k, v)]
| (k', v') :: d' => if text_eqb k k' then (k', v) :: d' else (k', v') :: set d' k v
end.

Definition keys (d : dict V) : list text := map fst d.
Definition values (d : dict V) : list V := map snd d.

(** [d.update(other)]. *)
Definition update (d other : dict V) : dict V :=
fold_left (fun acc kv => set acc (fst kv) (snd kv)) other d.

End Dict.

(** [x in s] for a set or a list of strings. *)
Definition mem (x : text) (s : list text) : bool := existsb (text_eqb x) s.

(** [s.add(x)]. *)
Definition add (s : list text) (x : text) : list text :=
if mem x s then s else s ++ [x].

(** Python truthiness of an optional string, an optional dict, a dict. *)
Definition truthy_str (o : option text) : bool :=
match o with
| Some (_ :: _) => true
| _ => false
end.

Definition truthy_dict {V : Type} (d : dict V) : bool :=
match d with
| [] => false
| _ => true
end.

Definition truthy_odict {V : Type} (o : option (dict V)) : bool :=
match o with
| Some d => truthy_dict d
| None => false
end.

(** [d if d else None]. *)
Definition or_none {V : Type} (d : dict V) : option (dict V) :=
if truthy_dict d then Some d else None.

End PyDict.
Export PyDict.

(* ===================================================================== *)
(** ** The data model of [gui_previewer.py] *)
(* ===================================================================== *)

Record Position : Type := mkPosition { x : Z; y : Z }.

(** [Position()]. *)
Definition default_Position : Position := mkPosition 0 0.

Record Size : Type := mkSize { width : Z; height : Z }.

(** A [float], kept as the literal [float()] was given. *)
Definition pyfloat := text.

(** One [{'content': ..., 'type': ...}] entry per nested element, by
    element type and element name. *)
Definition nested_dict := dict (dict (dict text)).

Record ScriptedGUIDefinition : Type := mkScriptedGUIDefinition
{ sg_name : text;
  sg_window_name : text;
  sg_parent_window_name : option text;
  sg_context_type : option text;
  sg_visible_condition : option text;
  sg_triggers : option (dict text);
  sg_effects : option (dict text);
  sg_properties : option (dict (dict text));
  sg_ai_enabled : option text;
  sg_dirty : option text;
  sg_moveable : option bool;
  sg_resizable : option bool;
  sg_orientation : option text;
  sg_animation_type : option text;
  sg_animation_time : option pyfloat;
  sg_upsound : option text;
  sg_downsound : option text;
  sg_horizontalScrollbar : option text;
  sg_verticalScrollbar : option text;
  sg_smooth_scrolling : option bool;
  sg_keyframe : option (dict text);
  sg_input_handler : option (dict text);
  sg_scope_conditions : option (dict text);
  sg_dynamic_lists : option (dict text);
  sg_nested_elements : option nested_dict }.

(** The values of the [scripted_data] dictionary attached to an element. *)
Inductive pyval : Type :=
| VStr (s : text)
| VBool (b : bool)
| VFloat (f : pyfloat)
| VDict (d : dict text)
| VNested (d : nested_dict).

Record GUIElement : Type := mkGUIElement
{ name : text;
  element_type : text;
  position : Position;
  size : option Size;
  sprite_type : option text;
  text_attr : option text;
  font : option text;
  properties : option (dict (dict text));
  orientation : option text;
  origo : option text;
  margin : option (dict Z);
  clipping : option bool;
  button_text : option text;
  button_font : option text;
  max_width : option Z;
  max_height : option Z;
  format_align : option text;
  visible_condition : option text;
  click_effect : option text;
  is_dynamic : bool;
  scripted_data : option (dict pyval) }.

(* ===================================================================== *)
(** ** Patterns shared by the parsers *)
(* ===================================================================== *)

Module Pat.

(** [\s*] *)
Definition ws : regex := Star true Sp.

(** [\s*=\s*] *)
Definition eq_sign : regex := Cat [ws; Chr "="; ws].

Definition open_brace : ascii := "{"%char.
Definition close_brace : ascii := "}"%char.

(** A bracket set of the two quote characters. *)
Definition any_quote : regex := Cls false [CChar dquote; CChar squote].

(** [[^{}]*] *)
Definition no_braces : regex := Star true (Cls true [CChar open_brace; CChar close_brace]).

(** One or more characters other than a quote, a closing brace or a space. *)
Definition bare_value : regex :=
Plus (Cls true [CChar dquote; CChar squote; CChar close_brace; CSpace]).

(** [tag\s*=\s*\{] *)
Definition block_open (tag : text) : regex := Cat [Lit tag; eq_sign; Chr open_brace].

(** The tag, the equals sign, and a braced group whose inner text may hold
    blocks of one level but no deeper ones. *)
Definition one_level_block (tag : regex) : regex :=
Cat [tag; eq_sign; Chr open_brace;
     Group 1 (Seq no_braces
                (Star true (Cat [Chr open_brace; no_braces; Chr close_brace; no_braces])));
     Chr close_brace].

(** [[+-]?\d+] *)
Definition signed_int : regex := Seq (Opt (Cls false [CChar "+"; CChar "-"])) (Plus Dg).

Definition dotall : flags := mkFlags false false true.
Definition ignorecase : flags := mkFlags true false false.
Definition multiline : flags := mkFlags false true false.

End Pat.

(** [s[a:b]] for [a <= b]. *)
Definition slice (s : text) (a b : nat) : text := firstn (b - a) (skipn a s).

(** The brace-matching loop
    [while pos < len(content) and brace_count > 0: ...; pos += 1],
    run over [content[pos:]]. *)
Fixpoint match_braces (rest : text) (pos : nat) (brace_count : Z) : nat * Z :=
match rest with
| [] => (pos, brace_count)
| c :: rest' =>
  if (0 <? brace_count)%Z then
    let brace_count' :=
      if Ascii.eqb c Pat.open_brace then (brace_count + 1)%Z
      else if Ascii.eqb c Pat.close_brace then (brace_count - 1)%Z
      else brace_count in
    match_braces rest' (S pos) brace_count'
  else (pos, brace_count)
end.

(** The [while True] loop shared by [_extract_block_content],
    [_extract_block_content_simple] and [_extract_gui_definitions]: each turn
    searches [content[start_pos:]] for the opening pattern, matches braces
    from the [{] it ends with, hands a closed block (the match and the
    inner text) to [emit], and goes on from [pos].  Every turn moves
    [start_pos] forward, so [length content + 1] turns are enough. *)
Fixpoint block_loop {A : Type} (fuel : nat) (fl : flags) (pattern : regex)
  (emit : A -> Match -> text -> A) (content : text) (start_pos : nat) (acc : A) : A :=
match fuel with
| O => acc
| S fuel' =>
  match search fl pattern (skipn start_pos content) with
  | None => acc
  | Some m =>
    let block_start := start_pos + m_end m - 1 in
    let '(pos, brace_count) := match_braces (skipn (block_start + 1) content) (block_start + 1) 1 in
    let acc' :=
      if (brace_count =? 0)%Z
      then emit acc m (slice content (block_start + 1) (pos - 1))
      else acc in
    block_loop fuel' fl pattern emit content pos acc'
  end
end.

(** [blocks.append(block_content)]: what the extractors do with a closed block. *)
Definition collect (blocks : list text) (_ : Match) (block_content : text) : list text :=
blocks ++ [block_content].

(** [_remove_comments] of both parsers: every line is cut at its first [#]. *)
Definition _remove_comments (content : text) : text :=
let lines := split_on newline content in
let cleaned_lines :=
  map (fun line => if has_char "#" line then before_char "#" line else line) lines in
join [newline] cleaned_lines.

(** What [open(...).read()] does with one encoding. *)
Inductive read_outcome : Type :=
| ReadOk (content : text)
| ReadUnicodeDecodeError (message : text)
| ReadOtherError (message : text).

(** A file as [parse_file] meets it: what reading it under [utf-8-sig] and
    under [cp1252] gives. *)
Record file : Type := mkFile
{ read_utf8_sig : read_outcome; read_cp1252 : read_outcome }.

(** The file system: a path that exists leads to a file. *)
Definition filesystem := text -> option file.

(** How [parse_file] gets at the text: [Returned (inl content)] on success,
    [Returned (inr error_msg)] where the code appends an error and returns,
    [Raised] where an exception leaves the inner [try]. *)
Definition read_source (f : file) : outcome (text + text) :=
match read_utf8_sig f with
| ReadOk content => Returned (inl content)
| ReadOtherError e => Raised e
| ReadUnicodeDecodeError _ =>
  match read_cp1252 f with
  | ReadOk content => Returned (inl content)
  | ReadUnicodeDecodeError e | ReadOtherError e =>
    Returned (inr (str "File encoding error: " ++ e))
  end
end.

(* ===================================================================== *)
(** ** [class ScriptedGUIParser] *)
(* ===================================================================== *)

Module ScriptedGUIParser.

Record t : Type := mkParser
{ scripted_guis : list ScriptedGUIDefinition;
  parse_errors : list text }.

(** [__init__] *)
Definition init : t := mkParser [] [].

(** [_extract_property]: the bare form first, at the start of a line, then
    the quoted form.  [prop_name] stands in the pattern as it is; the callers
    pass identifiers. *)
Definition property_unquoted (prop_name : text) : regex :=
Cat [Alt Bol (Chr newline); Pat.ws; Lit prop_name; Pat.eq_sign;
     Group 1 (Plus (Cls true [CSpace; CChar Pat.close_brace]))].

Definition property_quoted (prop_name : text) : regex :=
Cat [Alt Bol (Chr newline); Pat.ws; Lit prop_name; Pat.eq_sign; Pat.any_quote;
     Group 1 (Plus (Cls true [CChar dquote; CChar squote; CChar Pat.close_brace]));
     Pat.any_quote].

(** [value[1:-1]] *)
Definition drop_ends (value : text) : text := removelast (tl value).

(** A value that starts and ends with the same kind of quote loses both ends. *)
Definition unquote (value : text) : text :=
if (startswith value [dquote] && endswith value [dquote])
   || (startswith value [squote] && endswith value [squote])
then drop_ends value else value.

Definition _extract_property (content prop_name : text) : option text :=
match search Pat.multiline (property_unquoted prop_name) content with
| Some m => Some (unquote (strip (group_or_empty m 1)))
| None =>
  match search Pat.multiline (property_quoted prop_name) content with
  | Some m => Some (strip (group_or_empty m 1))
  | None => None
  end
end.

(** [_extract_block_property]: the inner text up to the first closing brace. *)
Definition block_property (prop_name : text) : regex :=
Cat [Lit prop_name; Pat.eq_sign; Chr Pat.open_brace;
     Group 1 (Star true (Cls true [CChar Pat.close_brace])); Chr Pat.close_brace].

Definition _extract_block_property (content prop_name : text) : option text :=
match search Pat.dotall (block_property prop_name) content with
| Some m => Some (strip (group_or_empty m 1))
| None => None
end.

(** [_extract_block_content_simple] *)
Definition _extract_block_content_simple (content block_type : text) : list text :=
block_loop (S (length content)) no_flags (Pat.block_open block_type)
  collect content 0 [].

(** The two passes of [_extract_triggers] and [_extract_effects] over the
    first block: nested-brace-tolerant entries, then flat ones for names
    not yet present. *)
(** Group numbers as in the source: the name is group 1, the body group 2. *)
Definition named_nested : regex :=
Cat [Group 1 (Plus Wd); Pat.eq_sign; Chr Pat.open_brace;
     Group 2 (Seq Pat.no_braces
                (Star true (Cat [Chr Pat.open_brace; Pat.no_braces;
                                 Chr Pat.close_brace; Pat.no_braces])));
     Chr Pat.close_brace].

Definition named_flat : regex :=
Cat [Group 1 (Plus Wd); Pat.eq_sign; Chr Pat.open_brace;
     Group 2 (Plus (Cls true [CChar Pat.open_brace; CChar Pat.close_brace]));
     Chr Pat.close_brace].

Definition named_entries (blocks : list text) : option (dict text) :=
match blocks with
| [] => None
| entries_content :: _ =>
  let pass1 :=
    fold_left (fun d m => set d (group_or_empty m 1) (strip (group_or_empty m 2)))
      (finditer Pat.dotall named_nested entries_content) [] in
  let pass2 :=
    fold_left (fun d m =>
        let entry_name := group_or_empty m 1 in
        if has_key d entry_name then d
        else set d entry_name (strip (group_or_empty m 2)))
      (finditer no_flags named_flat entries_content) pass1 in
  or_none pass2
end.

Definition _extract_triggers (content : text) : option (dict text) :=
named_entries (_extract_block_content_simple content (str "triggers")).

Definition _extract_effects (content : text) : option (dict text) :=
named_entries (_extract_block_content_simple content (str "effects")).

(** [_extract_properties] *)
Definition prop_pattern : regex :=
Cat [Group 1 (Plus Wd); Pat.eq_sign; Chr Pat.open_brace;
     Group 2 Pat.no_braces; Chr Pat.close_brace].

Definition kv_pattern : regex :=
Cat [Group 1 (Plus Wd); Pat.eq_sign; Opt Pat.any_quote;
     Group 2 Pat.bare_value; Opt Pat.any_quote].

Definition _extract_properties (content : text) : option (dict (dict text)) :=
match _extract_block_property content (str "properties") with
| None | Some [] => None
| Some properties_content =>
  or_none
    (fold_left (fun props m =>
        let element_props := strip (group_or_empty m 2) in
        let element_properties :=
          fold_left (fun d kv => set d (group_or_empty kv 1) (group_or_empty kv 2))
            (finditer no_flags kv_pattern element_props) [] in
        set props (group_or_empty m 1) element_properties)
      (finditer no_flags prop_pattern properties_content) [])
end.

(** [_extract_keyframe_animations] *)
Definition _extract_keyframe_animations (content : text) : option (dict text) :=
let keyframe_blocks := _extract_block_content_simple content (str "keyframe") in
or_none
  (fold_left (fun keyframes block =>
      fold_left (fun keyframes line0 =>
          let line := strip line0 in
          if has_char "=" line && negb (startswith line (str "#")) then
            let '(key, value) := split_once "=" line in
            set keyframes (strip key) (strip value)
          else keyframes)
        (split_on newline block) keyframes)
    keyframe_blocks []).

Definition input_patterns : list text :=
[str "on_click"; str "on_hover"; str "on_focus"; str "on_key_down"; str "on_key_up";
 str "shortcut"; str "clicksound"; str "over_sound"; str "on_text_changed"].

(** [_extract_input_handlers] *)
Definition _extract_input_handlers (content : text) : option (dict text) :=
or_none
  (fold_left (fun handlers pattern =>
      match _extract_property content pattern with
      | Some (c :: v) => set handlers pattern (c :: v)
      | _ => handlers
      end)
    input_patterns []).

Definition scope_patterns : list text :=
[str "THIS"; str "ROOT"; str "PREV"; str "FROM"; str "FROMFROM";
 str "scope_conditions"; str "limit"; str "any_of"; str "all_of";
 str "has_variable"; str "check_variable"; str "is_valid"].

(** [_extract_scope_conditions] *)
Definition _extract_scope_conditions (content : text) : option (dict text) :=
or_none
  (fold_left (fun conditions pattern =>
      match _extract_block_property content pattern with
      | Some (c :: v) => set conditions pattern (c :: v)
      | _ =>
        match _extract_property content pattern with
        | Some (c :: v) => set conditions pattern (c :: v)
        | _ => conditions
        end
      end)
    scope_patterns []).

Definition list_patterns : list text :=
[str "for_each"; str "iterate"; str "dynamic_list"; str "list_entry";
 str "template"; str "data_source"; str "item_template"].

(** [_extract_dynamic_lists] *)
Definition _extract_dynamic_lists (content : text) : option (dict text) :=
or_none
  (fold_left (fun lists pattern =>
      match _extract_block_property content pattern with
      | Some (c :: v) => set lists pattern (c :: v)
      | _ => lists
      end)
    list_patterns []).

Definition element_types : list text :=
[str "containerWindowType"; str "windowType"; str "buttonType"; str "iconType";
 str "instantTextBoxType"; str "editBoxType"; str "checkboxType"; str "scrollbarType";
 str "listboxType"; str "gridBoxType"; str "positionType"].

(** The [for i, block_content in enumerate(element_blocks)] loop. *)
Fixpoint nested_blocks (element_type : text) (i : nat) (element_blocks : list text)
  (d : dict (dict text)) : dict (dict text) :=
match element_blocks with
| [] => d
| block_content :: more =>
  let entry := [(str "content", block_content); (str "type", element_type)] in
  let key :=
    match _extract_property block_content (str "name") with
    | Some (c :: n) => c :: n
    | _ => element_type ++ str "_" ++ str_of_Z (Z.of_nat i)
    end in
  nested_blocks element_type (S i) more (set d key entry)
end.

(** [_extract_nested_elements] *)
Definition _extract_nested_elements (content : text) : option nested_dict :=
or_none
  (fold_left (fun elements element_type =>
      match _extract_block_content_simple content element_type with
      | [] => elements
      | element_blocks =>
        set elements element_type (nested_blocks element_type 0 element_blocks [])
      end)
    element_types []).

(** [_extract_boolean_property] (the same in both parsers). *)
Definition boolean_property (prop_name : text) : regex :=
Cat [Lit prop_name; Pat.eq_sign;
     Group 1 (Alt (Lit (str "yes")) (Alt (Lit (str "no"))
                (Alt (Lit (str "true")) (Lit (str "false")))))].

Definition _extract_boolean_property (content prop_name : text) : option bool :=
match search Pat.ignorecase (boolean_property prop_name) content with
| Some m =>
  let value := lower (group_or_empty m 1) in
  Some (mem value [str "yes"; str "true"])
| None => None
end.

(** [_extract_numeric_property]: a signed decimal literal, given to [float]. *)
Definition numeric_property (prop_name : text) : regex :=
Cat [Lit prop_name; Pat.eq_sign;
     Group 1 (Seq (Opt (Cls false [CChar "+"; CChar "-"]))
                (Alt (Cat [Plus Dg; Opt (Chr "."); Star true Dg])
                     (Seq (Chr ".") (Plus Dg))))].

Definition _extract_numeric_property (content prop_name : text) : option pyfloat :=
match search no_flags (numeric_property prop_name) content with
| Some m => Some (group_or_empty m 1)
| None => None
end.

(** [_parse_single_gui_definition] *)
Definition _parse_single_gui_definition (name content : text) : option ScriptedGUIDefinition :=
match _extract_property content (str "window_name") with
| None | Some [] => None
| Some window_name =>
  Some {|
    sg_name := name;
    sg_window_name := window_name;
    sg_parent_window_name := _extract_property content (str "parent_window_name");
    sg_context_type := _extract_property content (str "context_type");
    sg_visible_condition := _extract_block_property content (str "visible");
    sg_triggers := _extract_triggers content;
    sg_effects := _extract_effects content;
    sg_properties := _extract_properties content;
    sg_ai_enabled := _extract_block_property content (str "ai_enabled");
    sg_dirty := _extract_property content (str "dirty");
    sg_moveable := _extract_boolean_property content (str "moveable");
    sg_resizable := _extract_boolean_property content (str "resizable");
    sg_orientation := _extract_property content (str "orientation");
    sg_animation_type := _extract_property content (str "animation_type");
    sg_animation_time := _extract_numeric_property content (str "animation_time");
    sg_upsound := _extract_property content (str "upsound");
    sg_downsound := _extract_property content (str "downsound");
    sg_horizontalScrollbar := _extract_property content (str "horizontalScrollbar");
    sg_verticalScrollbar := _extract_property content (str "verticalScrollbar");
    sg_smooth_scrolling := _extract_boolean_property content (str "smooth_scrolling");
    sg_keyframe := _extract_keyframe_animations content;
    sg_input_handler := _extract_input_handlers content;
    sg_scope_conditions := _extract_scope_conditions content;
    sg_dynamic_lists := _extract_dynamic_lists content;
    sg_nested_elements := _extract_nested_elements content |}
end.

(** [_extract_gui_definitions]: every [identifier = { ... }] at the top of the
    text, by its identifier. *)
Definition definition_open : regex :=
Cat [Group 1 (Plus Wd); Pat.eq_sign; Chr Pat.open_brace].

Definition _extract_gui_definitions (content : text) : dict text :=
block_loop (S (length content)) no_flags definition_open
  (fun definitions m block_content => set definitions (group_or_empty m 1) block_content)
  content 0 [].

(** [_parse_scripted_gui_definitions] *)
Definition _parse_scripted_gui_definitions (content : text) (self : t) : t :=
fold_left (fun self item =>
    match _parse_single_gui_definition (fst item) (snd item) with
    | Some definition =>
      mkParser (scripted_guis self ++ [definition]) (parse_errors self)
    | None => self
    end)
  (_extract_gui_definitions content) self.

(** The root block: [scripted_gui], the equals sign, and everything between
    the first opening brace and the last closing one. *)
Definition root_block (tag : text) : regex :=
Cat [Lit tag; Pat.eq_sign; Chr Pat.open_brace; Group 1 (Star true Dot); Chr Pat.close_brace].

Definition add_error (msg : text) (self : t) : t :=
mkParser (scripted_guis self) (parse_errors self ++ [msg]).

(** The body of [parse_file]'s [try] block, entered with [parse_errors]
    already reset. *)
Definition parse_file_body (fs : filesystem) (file_path : text) (self : t)
  : outcome (list ScriptedGUIDefinition * t) :=
match fs file_path with
| None => Returned ([], add_error (str "File not found: " ++ file_path) self)
| Some f =>
  match read_source f with
  | Raised e => Raised e
  | Returned (inr error_msg) => Returned ([], add_error error_msg self)
  | Returned (inl content) =>
    match strip content with
    | [] => Returned ([], add_error (str "File is empty.") self)
    | _ =>
      let content := _remove_comments content in
      match search Pat.dotall (root_block (str "scripted_gui")) content with
      | None =>
        Returned ([], add_error
          (str "scripted_gui block not found. Please check if this is a valid scripted_gui file.")
          self)
      | Some gui_match =>
        let gui_content := group_or_empty gui_match 1 in
        let self := mkParser [] (parse_errors self) in
        let self := _parse_scripted_gui_definitions gui_content self in
        Returned (scripted_guis self, self)
      end
    end
  end
end.

(** [parse_file]: the returned list and the parser afterwards. *)
Definition parse_file (fs : filesystem) (file_path : text) (self : t)
  : list ScriptedGUIDefinition * t :=
let self := mkParser (scripted_guis self) [] in
match parse_file_body fs file_path self with
| Returned res => res
| Raised e =>
  ([], add_error (str "Unexpected error during scripted_gui file parsing: " ++ e) self)
end.

End ScriptedGUIParser.

(** [re.findall] for a pattern with exactly one group: the group of each match. *)
Definition findall_group (fl : flags) (r : regex) (s : text) : list text :=
map (fun m => group_or_empty m 1) (finditer fl r s).

(* ===================================================================== *)
(** ** [class HOI4GUIParser] *)
(* ===================================================================== *)

Module HOI4GUIParser.

Record t : Type := mkParser
{ elements : list GUIElement;
  window_size : Size;
  scripted_gui_data : dict ScriptedGUIDefinition;
  parse_errors : list text;
  parsed_elements : list text }.

(** [__init__]; [parse_errors] and [parsed_elements] come to exist with the
    first [parse_file], which assigns them before any use. *)
Definition init : t := mkParser [] (mkSize 800 600) [] [] [].

Definition with_elements (els : list GUIElement) (self : t) : t :=
mkParser els (window_size self) (scripted_gui_data self) (parse_errors self) (parsed_elements self).

Definition with_window_size (sz : Size) (self : t) : t :=
mkParser (elements self) sz (scripted_gui_data self) (parse_errors self) (parsed_elements self).

Definition with_scripted_gui_data (d : dict ScriptedGUIDefinition) (self : t) : t :=
mkParser (elements self) (window_size self) d (parse_errors self) (parsed_elements self).

Definition with_parse_errors (errs : list text) (self : t) : t :=
mkParser (elements self) (window_size self) (scripted_gui_data self) errs (parsed_elements self).

Definition with_parsed_elements (keys : list text) (self : t) : t :=
mkParser (elements self) (window_size self) (scripted_gui_data self) (parse_errors self) keys.

(** The loop of [set_scripted_gui_data]: each definition is stored under its
    [window_name]. *)
Definition index_definitions (scripted_gui_definitions : list ScriptedGUIDefinition)
  (d0 : dict ScriptedGUIDefinition) : dict ScriptedGUIDefinition :=
fold_left (fun d definition => set d (sg_window_name definition) definition)
  scripted_gui_definitions d0.

(** [set_scripted_gui_data] *)
Definition set_scripted_gui_data (scripted_gui_definitions : list ScriptedGUIDefinition)
  (self : t) : t :=
with_scripted_gui_data (index_definitions scripted_gui_definitions []) self.

(** [_extract_property]: the quoted form first, then the bare token. *)
Definition property_quoted (prop_name : text) : regex :=
Cat [Lit prop_name; Pat.eq_sign; Pat.any_quote;
     Group 1 (Plus (Cls true [CChar dquote; CChar squote; CChar Pat.close_brace]));
     Pat.any_quote].

Definition property_unquoted (prop_name : text) : regex :=
Cat [Lit prop_name; Pat.eq_sign;
     Group 1 (Plus (Cls true [CSpace; CChar Pat.close_brace]))].

Definition _extract_property (content prop_name : text) : option text :=
match search no_flags (property_quoted prop_name) content with
| Some m => Some (strip (group_or_empty m 1))
| None =>
  match search no_flags (property_unquoted prop_name) content with
  | Some m => Some (strip (group_or_empty m 1))
  | None => None
  end
end.

(** An optionally quoted value, as the sprite patterns read it. *)
Definition opt_quoted_value : regex :=
Cat [Opt Pat.any_quote; Group 1 Pat.bare_value; Opt Pat.any_quote].

Definition not_close : regex := Star true (Cls true [CChar Pat.close_brace]).

Definition bg_sprite_pattern : regex :=
Cat [Lit (str "background"); Pat.eq_sign; Chr Pat.open_brace; Pat.ws;
     Lit (str "spriteType"); Pat.eq_sign; opt_quoted_value; not_close; Chr Pat.close_brace].

Definition bg_quad_pattern : regex :=
Cat [Lit (str "background"); Pat.eq_sign; Chr Pat.open_brace; Pat.ws;
     Lit (str "quadTextureSprite"); Pat.eq_sign; opt_quoted_value; not_close;
     Chr Pat.close_brace].

Definition bg_simple_pattern : regex :=
Cat [Lit (str "background"); Pat.eq_sign; opt_quoted_value].

Definition group1_of (fl : flags) (r : regex) (content : text) : option text :=
match search fl r content with
| Some m => Some (group_or_empty m 1)
| None => None
end.

(** The first of the patterns that matches gives its group. *)
Fixpoint first_group1 (patterns : list regex) (content : text) : option text :=
match patterns with
| [] => None
| r :: more =>
  match group1_of no_flags r content with
  | Some v => Some v
  | None => first_group1 more content
  end
end.

(** [_extract_background_sprite] *)
Definition _extract_background_sprite (content : text) : option text :=
first_group1 [bg_sprite_pattern; bg_quad_pattern; bg_simple_pattern] content.

(** [_extract_margin] *)
Definition margin_pattern : regex :=
Cat [Lit (str "margin"); Pat.eq_sign; Chr Pat.open_brace; not_close;
     Lit (str "left"); Pat.eq_sign; Group 1 (Plus Dg); not_close;
     Lit (str "right"); Pat.eq_sign; Group 2 (Plus Dg); not_close; Chr Pat.close_brace].

Definition _extract_margin (content : text) : outcome (option (dict Z)) :=
match search no_flags margin_pattern content with
| Some m =>
  left_margin <- int_of_text (group_or_empty m 1);;
  right_margin <- int_of_text (group_or_empty m 2);;
  Returned (Some [(str "left", left_margin); (str "right", right_margin)])
| None => Returned None
end.

Definition _extract_boolean_property (content prop_name : text) : option bool :=
ScriptedGUIParser._extract_boolean_property content prop_name.

(** [_extract_numeric_property]: digits, given to [int]. *)
Definition numeric_property (prop_name : text) : regex :=
Cat [Lit prop_name; Pat.eq_sign; Group 1 (Plus Dg)].

Definition _extract_numeric_property (content prop_name : text) : outcome (option Z) :=
match search no_flags (numeric_property prop_name) content with
| Some m =>
  n <- int_of_text (group_or_empty m 1);;
  Returned (Some n)
| None => Returned None
end.

(** Two numbers in braces after [key =]: named by [first] and [second], or
    bare and separated by spaces. *)
Definition pair_named (key first second : text) (number : regex) : regex :=
Cat [Lit key; Pat.eq_sign; Chr Pat.open_brace; Pat.ws;
     Lit first; Pat.eq_sign; Group 1 number; Pat.ws;
     Lit second; Pat.eq_sign; Group 2 number; Pat.ws; Chr Pat.close_brace].

Definition pair_bare (key : text) (number : regex) : regex :=
Cat [Lit key; Pat.eq_sign; Chr Pat.open_brace; Pat.ws;
     Group 1 number; Plus Sp; Group 2 number; Pat.ws; Chr Pat.close_brace].

(** The two groups of the first match of [r], each given to [int], the
    first one first. *)
Definition int_pair (r : regex) (content : text) : outcome (option (Z * Z)) :=
match search no_flags r content with
| Some m =>
  first <- int_of_text (group_or_empty m 1);;
  second <- int_of_text (group_or_empty m 2);;
  Returned (Some (first, second))
| None => Returned None
end.

(** [_extract_position] *)
Definition _extract_position (content : text) : outcome Position :=
named_pair <-
  int_pair (pair_named (str "position") (str "x") (str "y") Pat.signed_int) content;;
match named_pair with
| Some (px, py) => Returned (mkPosition px py)
| None =>
  bare_pair <- int_pair (pair_bare (str "position") Pat.signed_int) content;;
  match bare_pair with
  | Some (px, py) => Returned (mkPosition px py)
  | None => Returned default_Position
  end
end.

(** [_extract_size] *)
Definition _extract_size (content : text) : outcome (option Size) :=
named_pair <-
  int_pair (pair_named (str "size") (str "width") (str "height") (Plus Dg)) content;;
match named_pair with
| Some (w, h) => Returned (Some (mkSize w h))
| None =>
  bare_pair <- int_pair (pair_bare (str "size") (Plus Dg)) content;;
  match bare_pair with
  | Some (w, h) => Returned (Some (mkSize w h))
  | None => Returned None
  end
end.

(** [GUIElement(...)] is built only [if name:]. *)
Definition named (n : option text) (build : text -> GUIElement) : option GUIElement :=
match n with
| Some (c :: n') => Some (build (c :: n'))
| _ => None
end.

(** [size or Size(w, h)] *)
Definition size_or (sz : option Size) (w h : Z) : option Size :=
match sz with
| Some s => Some s
| None => Some (mkSize w h)
end.

(** [_parse_container_window_element]: the properties are read in the
    order of the source, before the name is looked at. *)
Definition _parse_container_window_element (content : text) : outcome (option GUIElement) :=
pos <- _extract_position content;;
sz <- _extract_size content;;
mg <- _extract_margin content;;
Returned (named (_extract_property content (str "name")) (fun n =>
  {| name := n; element_type := str "containerWindowType";
     position := pos;
     size := sz;
     sprite_type := _extract_background_sprite content;
     text_attr := None; font := None; properties := None;
     orientation := _extract_property content (str "orientation");
     origo := _extract_property content (str "origo");
     margin := mg;
     clipping := _extract_boolean_property content (str "clipping");
     button_text := None; button_font := None; max_width := None; max_height := None;
     format_align := None; visible_condition := None; click_effect := None;
     is_dynamic := false; scripted_data := None |})).

(** The background sprite of a [windowType]. *)
Definition bg_pattern : regex :=
Cat [Lit (str "background"); Pat.eq_sign; Chr Pat.open_brace; Pat.no_braces;
     Lit (str "spriteType"); Pat.eq_sign; opt_quoted_value; Pat.no_braces;
     Chr Pat.close_brace].

(** An element with the fields every constructor call passes. *)
Definition element (n ty : text) (p : Position) (sz : option Size) (sprite : option text)
  : GUIElement :=
{| name := n; element_type := ty; position := p; size := sz; sprite_type := sprite;
   text_attr := None; font := None; properties := None; orientation := None;
   origo := None; margin := None; clipping := None; button_text := None;
   button_font := None; max_width := None; max_height := None; format_align := None;
   visible_condition := None; click_effect := None; is_dynamic := false;
   scripted_data := None |}.

(** [_parse_window_element] *)
Definition _parse_window_element (content : text) : outcome (option GUIElement) :=
pos <- _extract_position content;;
sz <- _extract_size content;;
Returned (named (_extract_property content (str "name")) (fun n =>
  element n (str "windowType") pos sz (group1_of no_flags bg_pattern content))).

(** [_parse_icon_element] *)
Definition _parse_icon_element (content : text) : outcome (option GUIElement) :=
pos <- _extract_position content;;
let sprite_type := _extract_property content (str "spriteType") in
let sprite_type :=
  if truthy_str sprite_type then sprite_type
  else _extract_property content (str "quadTextureSprite") in
Returned (named (_extract_property content (str "name")) (fun n =>
  element n (str "iconType") pos None sprite_type)).

Definition sprite_patterns : list regex :=
[Cat [Lit (str "quadTextureSprite"); Pat.eq_sign; opt_quoted_value];
 Cat [Lit (str "spriteType"); Pat.eq_sign; opt_quoted_value]].

(** [_parse_button_element] *)
Definition _parse_button_element (content : text) : outcome (option GUIElement) :=
pos <- _extract_position content;;
sz <- _extract_size content;;
Returned (named (_extract_property content (str "name")) (fun n =>
  {| name := n; element_type := str "buttonType";
     position := pos;
     size := sz;
     sprite_type := first_group1 sprite_patterns content;
     text_attr := None; font := None; properties := None;
     orientation := _extract_property content (str "orientation");
     origo := None; margin := None; clipping := None;
     button_text := _extract_property content (str "buttonText");
     button_font := _extract_property content (str "buttonFont");
     max_width := None; max_height := None; format_align := None;
     visible_condition := None; click_effect := None;
     is_dynamic := false; scripted_data := None |})).

(** [_parse_text_box_element] *)
Definition _parse_text_box_element (content : text) : outcome (option GUIElement) :=
pos <- _extract_position content;;
max_w <- _extract_numeric_property content (str "maxWidth");;
max_h <- _extract_numeric_property content (str "maxHeight");;
Returned (named (_extract_property content (str "name")) (fun n =>
  {| name := n; element_type := str "instantTextBoxType";
     position := pos;
     size := None; sprite_type := None;
     text_attr := _extract_property content (str "text");
     font := _extract_property content (str "font");
     properties := None;
     orientation := _extract_property content (str "orientation");
     origo := None; margin := None; clipping := None;
     button_text := None; button_font := None;
     max_width := max_w;
     max_height := max_h;
     format_align := _extract_property content (str "format");
     visible_condition := None; click_effect := None;
     is_dynamic := false; scripted_data := None |})).

(** [_parse_checkbox_element] *)
Definition _parse_checkbox_element (content : text) : outcome (option GUIElement) :=
pos <- _extract_position content;;
Returned (named (_extract_property content (str "name")) (fun n =>
  element n (str "checkboxType") pos (Some (mkSize 24 24))
    (_extract_property content (str "spriteType")))).

(** [_parse_scrollbar_element] *)
Definition _parse_scrollbar_element (content : text) : outcome (option GUIElement) :=
pos <- _extract_position content;;
sz <- _extract_size content;;
Returned (named (_extract_property content (str "name")) (fun n =>
  element n (str "scrollbarType") pos (size_or sz 20 200) None)).

(** [_parse_gridbox_element] *)
Definition _parse_gridbox_element (content : text) : outcome (option GUIElement) :=
pos <- _extract_position content;;
sz <- _extract_size content;;
Returned (named (_extract_property content (str "name")) (fun n =>
  element n (str "gridBoxType") pos (size_or sz 300 200) None)).

(** [_parse_listbox_element] *)
Definition _parse_listbox_element (content : text) : outcome (option GUIElement) :=
pos <- _extract_position content;;
sz <- _extract_size content;;
Returned (named (_extract_property content (str "name")) (fun n =>
  element n (str "listboxType") pos (size_or sz 200 100) None)).

(** [_parse_editbox_element] *)
Definition _parse_editbox_element (content : text) : outcome (option GUIElement) :=
pos <- _extract_position content;;
sz <- _extract_size content;;
Returned (named (_extract_property content (str "name")) (fun n =>
  {| name := n; element_type := str "editboxType";
     position := pos;
     size := size_or sz 150 25;
     sprite_type := None;
     text_attr := _extract_property content (str "text");
     font := None; properties := None; orientation := None; origo := None;
     margin := None; clipping := None; button_text := None; button_font := None;
     max_width := None; max_height := None; format_align := None;
     visible_condition := None; click_effect := None;
     is_dynamic := false; scripted_data := None |})).

(** [_extract_block_content]: a [block_type] that starts with [(?i)] is
    searched without regard to case. *)
Definition _extract_block_content (content block_type : text) : list text :=
let '(clean_pattern, search_flags) :=
  if startswith block_type (str "(?i)") then (skipn 4 block_type, Pat.ignorecase)
  else (block_type, no_flags) in
block_loop (S (length content)) search_flags (Pat.block_open clean_pattern)
  collect content 0 [].

(** [_get_element_key] *)
Definition _get_element_key (e : GUIElement) : text :=
element_type e ++ str ":" ++ name e ++ str ":" ++ str_of_Z (x (position e))
  ++ str ":" ++ str_of_Z (y (position e)).

(** [_is_duplicate] *)
Definition _is_duplicate (e : GUIElement) (self : t) : bool :=
mem (_get_element_key e) (parsed_elements self).

(** [_mark_as_parsed] *)
Definition _mark_as_parsed (e : GUIElement) (self : t) : t :=
with_parsed_elements (add (parsed_elements self) (_get_element_key e)) self.

(** [self.elements.append(element)] *)
Definition append (e : GUIElement) (self : t) : t :=
with_elements (elements self ++ [e]) self.

(** [if element and not self._is_duplicate(element): append; mark]: the
    parser afterwards, and whether the element was taken. *)
Definition take_new (element : option GUIElement) (self : t) : t * bool :=
match element with
| Some e =>
  if _is_duplicate e self then (self, false)
  else (_mark_as_parsed e (append e self), true)
| None => (self, false)
end.

(** [if len(self.elements) == 1 and element.size: self.window_size = element.size] *)
Definition first_sets_window_size (e : GUIElement) (self : t) : t :=
match length (elements self), size e with
| 1, Some sz => with_window_size sz self
| _, _ => self
end.

(** A method that may raise leaves the parser as it stands at that point,
    and the message of the exception on its way to the handler of
    [parse_file], if there is one. *)
Definition run : Type := (t * option text)%type.

Definition ok (self : t) : run := (self, None).

Definition raise (e : text) (self : t) : run := (self, Some e).

(** The statements after a call run only when the call returned. *)
Definition and_then (r : run) (rest : t -> run) : run :=
match r with
| (self, None) => rest self
| (self, Some e) => (self, Some e)
end.

(** A [for] loop: the first turn that raises ends it. *)
Definition for_each {A : Type} (body : t -> A -> run) (items : list A) (self : t) : run :=
fold_left (fun r item => and_then r (fun self => body self item)) items (ok self).

(** [sys.getrecursionlimit()], the interpreter's default: the calls that
    can be open at a time.  The frames the caller of the parser holds are
    not counted. *)
Definition recursion_limit : nat := 1000.

(** The message of the [RecursionError]. *)
Definition recursion_error : text := str "maximum recursion depth exceeded".

(** One turn of the loops over icons, buttons and text boxes. *)
Definition take_each (parse : text -> outcome (option GUIElement)) (self : t)
  (block_content : text) : run :=
match parse block_content with
| Raised e => raise e self
| Returned element => ok (fst (take_new element self))
end.

(** [_parse_nested_elements]: nested containers first, each new one entered
    in turn, then the icons, buttons and text boxes found anywhere in
    [content].  [frames] calls can still be opened: with none left the call
    raises [RecursionError]. *)
Fixpoint _parse_nested_elements (frames : nat) (content : text) (self : t) : run :=
match frames with
| O => raise recursion_error self
| S frames' =>
  and_then
    (for_each (fun self container_content =>
        match _parse_container_window_element container_content with
        | Raised e => raise e self
        | Returned element =>
          match take_new element self with
          | (self', true) => _parse_nested_elements frames' container_content self'
          | (self', false) => ok self'
          end
        end)
      (_extract_block_content content (str "containerWindowType")) self)
    (fun self =>
  and_then
    (for_each (take_each _parse_icon_element)
      (_extract_block_content content (str "iconType")) self)
    (fun self =>
  and_then
    (for_each (take_each _parse_button_element)
      (_extract_block_content content (str "buttonType")) self)
    (fun self =>
  for_each (take_each _parse_text_box_element)
    (_extract_block_content content (str "(?i)instantTextboxType")) self)))
end.

(** One turn of the loop of [_parse_container_window_types]. *)
Definition parse_container (self : t) (container_content : text) : run :=
match _parse_container_window_element container_content with
| Raised e => raise e self
| Returned element =>
  let self :=
    match element with
    | Some e =>
      if _is_duplicate e self then self
      else first_sets_window_size e (_mark_as_parsed e (append e self))
    | None => self
    end in
  _parse_nested_elements recursion_limit container_content self
end.

(** [_parse_container_window_types] *)
Definition _parse_container_window_types (content : text) (self : t) : run :=
for_each parse_container (_extract_block_content content (str "containerWindowType")) self.

(** The loops of the top-level parsers: every match of the element's
    pattern that yields an element is appended. *)
Definition top_level_pattern (tag : text) : regex := Pat.one_level_block (Lit tag).

Definition append_matches (tag : text) (parse : text -> outcome (option GUIElement))
  (after_append : GUIElement -> t -> t) (content : text) (self : t) : run :=
for_each (fun self matched =>
    match parse matched with
    | Raised e => raise e self
    | Returned (Some e) => ok (after_append e (append e self))
    | Returned None => ok self
    end)
  (findall_group Pat.dotall (top_level_pattern tag) content) self.

(** [_parse_window_types] *)
Definition _parse_window_types (content : text) (self : t) : run :=
append_matches (str "windowType") _parse_window_element first_sets_window_size content self.

Definition _parse_checkbox_types (content : text) (self : t) : run :=
append_matches (str "checkboxType") _parse_checkbox_element (fun _ s => s) content self.

Definition _parse_scrollbar_types (content : text) (self : t) : run :=
append_matches (str "scrollbarType") _parse_scrollbar_element (fun _ s => s) content self.

Definition _parse_gridbox_types (content : text) (self : t) : run :=
append_matches (str "gridBoxType") _parse_gridbox_element (fun _ s => s) content self.

Definition _parse_listbox_types (content : text) (self : t) : run :=
append_matches (str "listboxType") _parse_listbox_element (fun _ s => s) content self.

Definition _parse_editbox_types (content : text) (self : t) : run :=
append_matches (str "editboxType") _parse_editbox_element (fun _ s => s) content self.

(** [_parse_top_level_elements] *)
Definition _parse_top_level_elements (content : text) (self : t) : run :=
and_then (_parse_window_types content self) (fun self =>
and_then (_parse_checkbox_types content self) (fun self =>
and_then (_parse_scrollbar_types content self) (fun self =>
and_then (_parse_gridbox_types content self) (fun self =>
and_then (_parse_listbox_types content self) (fun self =>
_parse_editbox_types content self))))).

(** [_parse_elements] *)
Definition _parse_elements (content : text) (self : t) : run :=
let self := with_parsed_elements [] self in
and_then (_parse_container_window_types content self) (fun self =>
_parse_top_level_elements content self).

(** [data[key] = value if cond] in [_create_scripted_data_dict]. *)
Definition put_str (key : text) (v : option text) (data : dict pyval) : dict pyval :=
match v with
| Some (c :: s) => set data key (VStr (c :: s))
| _ => data
end.

Definition put_some {A : Type} (key : text) (inj : A -> pyval) (v : option A)
  (data : dict pyval) : dict pyval :=
match v with
| Some a => set data key (inj a)
| None => data
end.

Definition put_dict {V : Type} (key : text) (inj : dict V -> pyval) (v : option (dict V))
  (data : dict pyval) : dict pyval :=
match v with
| Some (kv :: d) => set data key (inj (kv :: d))
| _ => data
end.

(** [_create_scripted_data_dict] *)
Definition _create_scripted_data_dict (scripted_gui : ScriptedGUIDefinition) : dict pyval :=
let data := [] in
let data := put_str (str "ai_enabled") (sg_ai_enabled scripted_gui) data in
let data := put_str (str "dirty") (sg_dirty scripted_gui) data in
let data := put_some (str "moveable") VBool (sg_moveable scripted_gui) data in
let data := put_str (str "orientation") (sg_orientation scripted_gui) data in
let data := put_str (str "animation_type") (sg_animation_type scripted_gui) data in
let data := put_some (str "animation_time") VFloat (sg_animation_time scripted_gui) data in
let data := put_str (str "upsound") (sg_upsound scripted_gui) data in
let data := put_str (str "downsound") (sg_downsound scripted_gui) data in
let data := put_dict (str "keyframe") VDict (sg_keyframe scripted_gui) data in
let data := put_dict (str "input_handler") VDict (sg_input_handler scripted_gui) data in
let data := put_dict (str "scope_conditions") VDict (sg_scope_conditions scripted_gui) data in
let data := put_dict (str "dynamic_lists") VDict (sg_dynamic_lists scripted_gui) data in
put_dict (str "nested_elements") VNested (sg_nested_elements scripted_gui) data.

(** What a matching definition writes on a container element. *)
Definition bind_window (scripted_gui : ScriptedGUIDefinition) (e : GUIElement) : GUIElement :=
{| name := name e; element_type := element_type e; position := position e;
   size := size e; sprite_type := sprite_type e; text_attr := text_attr e;
   font := font e; properties := properties e; orientation := orientation e;
   origo := origo e; margin := margin e; clipping := clipping e;
   button_text := button_text e; button_font := button_font e;
   max_width := max_width e; max_height := max_height e;
   format_align := format_align e;
   visible_condition := sg_visible_condition scripted_gui;
   click_effect := click_effect e;
   is_dynamic := true;
   scripted_data := Some (_create_scripted_data_dict scripted_gui) |}.

Definition with_properties (p : option (dict (dict text))) (e : GUIElement) : GUIElement :=
{| name := name e; element_type := element_type e; position := position e;
   size := size e; sprite_type := sprite_type e; text_attr := text_attr e;
   font := font e; properties := p; orientation := orientation e;
   origo := origo e; margin := margin e; clipping := clipping e;
   button_text := button_text e; button_font := button_font e;
   max_width := max_width e; max_height := max_height e;
   format_align := format_align e; visible_condition := visible_condition e;
   click_effect := click_effect e; is_dynamic := is_dynamic e;
   scripted_data := scripted_data e |}.

(** [element.properties = element.properties or {}; element.properties.update(...)] *)
Definition merge_properties (scripted_gui : ScriptedGUIDefinition) (e : GUIElement) : GUIElement :=
match sg_properties scripted_gui with
| Some (kv :: more) =>
  let own := match properties e with
             | Some (p :: ps) => p :: ps
             | _ => []
             end in
  with_properties (Some (update own (kv :: more))) e
| _ => e
end.

(** The container branch of [_apply_scripted_gui_data]: the lookup by the
    element's name, then the scan of all definitions up to the first whose
    [window_name] is the element's name. *)
Definition apply_to_container (data : dict ScriptedGUIDefinition) (e : GUIElement) : GUIElement :=
let e :=
  match get data (name e) with
  | Some scripted_gui => merge_properties scripted_gui (bind_window scripted_gui e)
  | None => e
  end in
match find (fun scripted_gui => text_eqb (sg_window_name scripted_gui) (name e)) (values data) with
| Some scripted_gui => bind_window scripted_gui e
| None => e
end.

Definition with_visible (cond : option text) (e : GUIElement) : GUIElement :=
{| name := name e; element_type := element_type e; position := position e;
   size := size e; sprite_type := sprite_type e; text_attr := text_attr e;
   font := font e; properties := properties e; orientation := orientation e;
   origo := origo e; margin := margin e; clipping := clipping e;
   button_text := button_text e; button_font := button_font e;
   max_width := max_width e; max_height := max_height e;
   format_align := format_align e; visible_condition := cond;
   click_effect := click_effect e; is_dynamic := true;
   scripted_data := scripted_data e |}.

Definition with_click (eff : option text) (e : GUIElement) : GUIElement :=
{| name := name e; element_type := element_type e; position := position e;
   size := size e; sprite_type := sprite_type e; text_attr := text_attr e;
   font := font e; properties := properties e; orientation := orientation e;
   origo := origo e; margin := margin e; clipping := clipping e;
   button_text := button_text e; button_font := button_font e;
   max_width := max_width e; max_height := max_height e;
   format_align := format_align e; visible_condition := visible_condition e;
   click_effect := eff; is_dynamic := true;
   scripted_data := scripted_data e |}.

Definition with_scripted_data (d : dict pyval) (e : GUIElement) : GUIElement :=
{| name := name e; element_type := element_type e; position := position e;
   size := size e; sprite_type := sprite_type e; text_attr := text_attr e;
   font := font e; properties := properties e; orientation := orientation e;
   origo := origo e; margin := margin e; clipping := clipping e;
   button_text := button_text e; button_font := button_font e;
   max_width := max_width e; max_height := max_height e;
   format_align := format_align e; visible_condition := visible_condition e;
   click_effect := click_effect e; is_dynamic := is_dynamic e;
   scripted_data := Some d |}.

(** The first of [patterns] that is a key of [d], with its value. *)
Definition first_key (patterns : list text) (d : dict text) : option text :=
match find (has_key d) patterns with
| Some pattern => get d pattern
| None => None
end.

(** The branch for buttons, icons and text boxes: the definitions in turn,
    up to the first one with a trigger or, failing that, a click effect
    named after the element. *)
Fixpoint apply_to_widget (definitions : list ScriptedGUIDefinition) (e : GUIElement) : GUIElement :=
match definitions with
| [] => e
| scripted_gui :: more =>
  let patterns :=
    [name e ++ str "_click_enabled"; name e ++ str "_visible";
     name e ++ str "_visible"; name e ++ str "_click_enabled"] in
  let click_patterns := [name e ++ str "_click"; name e ++ str "_click"] in
  let by_trigger :=
    match sg_triggers scripted_gui with
    | Some (kv :: d) => first_key patterns (kv :: d)
    | _ => None
    end in
  match by_trigger with
  | Some cond =>
    with_scripted_data (_create_scripted_data_dict scripted_gui) (with_visible (Some cond) e)
  | None =>
    let by_effect :=
      match sg_effects scripted_gui with
      | Some (kv :: d) => first_key click_patterns (kv :: d)
      | _ => None
      end in
    match by_effect with
    | Some eff =>
      with_scripted_data (_create_scripted_data_dict scripted_gui) (with_click (Some eff) e)
    | None => apply_to_widget more e
    end
  end
end.

Definition apply_to_element (data : dict ScriptedGUIDefinition) (e : GUIElement) : GUIElement :=
if text_eqb (element_type e) (str "containerWindowType") then apply_to_container data e
else if mem (element_type e) [str "buttonType"; str "iconType"; str "instantTextBoxType"]
then apply_to_widget (values data) e
else e.

(** [_apply_scripted_gui_data] *)
Definition _apply_scripted_gui_data (self : t) : t :=
match scripted_gui_data self with
| [] => self
| data => with_elements (map (apply_to_element data) (elements self)) self
end.

Definition add_error (msg : text) (self : t) : t :=
with_parse_errors (parse_errors self ++ [msg]) self.

(** The body of [parse_file]'s [try] block, entered with [parse_errors]
    already reset: what it returns or raises, and the parser as it stands
    then. *)
Definition parse_file_body (fs : filesystem) (file_path : text) (self : t)
  : outcome (list GUIElement) * t :=
match fs file_path with
| None => (Returned [], add_error (str "File not found: " ++ file_path) self)
| Some f =>
  match read_source f with
  | Raised e => (Raised e, self)
  | Returned (inr error_msg) => (Returned [], add_error error_msg self)
  | Returned (inl content) =>
    match strip content with
    | [] => (Returned [], add_error (str "File is empty.") self)
    | _ =>
      let content := _remove_comments content in
      match search Pat.dotall (ScriptedGUIParser.root_block (str "guiTypes")) content with
      | None =>
        (Returned [], add_error
          (str "guiTypes block not found. Please check if this is a valid HOI4 GUI file.")
          self)
      | Some gui_match =>
        let gui_content := group_or_empty gui_match 1 in
        let self := with_elements [] self in
        match _parse_elements gui_content self with
        | (self, Some e) => (Raised e, self)
        | (self, None) =>
          let self := _apply_scripted_gui_data self in
          (Returned (elements self), self)
        end
      end
    end
  end
end.

(** [parse_file]: the returned list and the parser afterwards.  The
    handler of the [try] block appends its message to the error list of
    the parser as the exception left it. *)
Definition parse_file (fs : filesystem) (file_path : text) (self : t)
  : list GUIElement * t :=
let self := with_parse_errors [] self in
match parse_file_body fs file_path self with
| (Returned returned, self) => (returned, self)
| (Raised e, self) =>
  ([], add_error (str "Unexpected error during GUI file parsing: " ++ e) self)
end.

End HOI4GUIParser.

(* ===================================================================== *)
(** ** [class AnalysisWorker] of [main.py] *)
(* ===================================================================== *)

Module AnalysisWorker.

(** A value of [gfx_data]: the record the asset scan stores under a name. *)
Record gfx_info : Type := mkInfo
{ texturefile : text; file_source : text; status : text; relative_path : text }.

(** A file of the corpus, as the scan loop meets it: [str(code_file)] and
    what [open(...).read()] gives ([None] when it raises). *)
Record code_file : Type := mkCodeFile
{ path_str : text; read_result : option text }.

(** The [results] dictionary. *)
Record results : Type := mkResults
{ orphaned_gfx : list text;
  missing_definitions : list text;
  duplicate_definitions : dict (list text);
  used_gfx : list text;
  usage_locations : dict (list text) }.

Definition with_usage (used : list text) (locations : dict (list text)) (r : results) : results :=
mkResults (orphaned_gfx r) (missing_definitions r) (duplicate_definitions r) used locations.

(** The comment stripper of the scan loop, on one line: [prev] is
    [line[i-1]], absent at [i == 0]. *)
Fixpoint clean_line (line : text) (prev : option ascii) (in_string : bool)
  (quote_char : option ascii) : text :=
match line with
| [] => []
| char :: rest =>
  if negb in_string && Ascii.eqb char "#" then []
  else
    let unescaped := match prev with
                     | None => true
                     | Some p => negb (Ascii.eqb p backslash)
                     end in
    let '(in_string', quote_char') :=
      if (Ascii.eqb char dquote || Ascii.eqb char squote) && unescaped then
        if negb in_string then (true, Some char)
        else match quote_char with
             | Some q => if Ascii.eqb char q then (false, None) else (in_string, quote_char)
             | None => (in_string, quote_char)
             end
      else (in_string, quote_char) in
    char :: clean_line rest (Some char) in_string' quote_char'
end.

Definition strip_comments (content : text) : text :=
join [newline] (map (fun line => clean_line line None false None) (split_on newline content)).

(** The pieces of the pattern bank. *)
Definition ident : regex :=
Plus (Cls false [CRange "A" "Z"; CRange "a" "z"; CRange "0" "9"; CChar "_"]).

Definition ident_star : regex :=
Star true (Cls false [CRange "A" "Z"; CRange "a" "z"; CRange "0" "9"; CChar "_"]).

Definition path_chars : regex :=
Plus (Cls false [CRange "A" "Z"; CRange "a" "z"; CRange "0" "9"; CChar "_";
                 CChar "."; CChar "/"; CChar backslash]).

(** An optional quote as group 1. *)
Definition quote1 : regex := Group 1 (Opt Pat.any_quote).

(** [key\s*=\s*(q?)(value)\1] *)
Definition key_value (key : text) (value : regex) : regex :=
Cat [Lit key; Pat.eq_sign; quote1; Group 2 value; Backref 1].

(** [outer\s*=\s*\{[^}]*?key\s*=\s*(q?)(ident)\1] *)
Definition inside_block (outer key : text) : regex :=
Cat [Lit outer; Pat.eq_sign; Chr Pat.open_brace;
     Star false (Cls true [CChar Pat.close_brace]);
     Lit key; Pat.eq_sign; quote1; Group 2 ident; Backref 1].

(** A quoted [GFX_...] literal between two [q] characters. *)
Definition quoted_gfx (q : ascii) : regex :=
Cat [Chr q; Group 1 (Seq (Lit (str "GFX_")) (Plus (Cls true [CChar q]))); Chr q].

Definition gfx_inside : regex := Cat [ident_star; Lit (str "GFX"); ident_star].

(** [name\s*\(\s*q([^quotes and closing parenthesis]+)q\s*\)] *)
Definition sprite_call (fn : text) : regex :=
Cat [Lit fn; Pat.ws; Chr "("; Pat.ws; Pat.any_quote;
     Group 1 (Plus (Cls true [CChar dquote; CChar squote; CChar dquote; CChar ")"]));
     Pat.any_quote; Pat.ws; Chr ")"].

(** [gfx_patterns], in the order of the source. *)
Definition gfx_patterns : list regex :=
[ key_value (str "icon") ident;
  key_value (str "texture") ident;
  key_value (str "spriteType") ident;
  key_value (str "texturefile") path_chars;
  key_value (str "sprite") ident;
  key_value (str "frame") ident;
  inside_block (str "buttonType") (str "quadTextureSprite");
  inside_block (str "iconType") (str "spriteType");
  inside_block (str "instantTextBoxType") (str "font");
  Seq (Lit (str "GFX_")) ident;
  quoted_gfx dquote;
  quoted_gfx squote;
  Cat [Chr "@"; Opt (Chr "["); Group 1 gfx_inside; Opt (Chr "]")];
  Cat [Chr "$"; Group 1 gfx_inside; Chr "$"];
  Cat [Lit (str "@sprite"); Pat.eq_sign; Group 1 ident];
  Cat [Lit (str "@texture"); Pat.eq_sign; Group 1 ident];
  key_value (str "effectFile") path_chars;
  key_value (str "animationmaskfile") path_chars;
  key_value (str "animationtexturefile") path_chars;
  sprite_call (str "GetSprite");
  sprite_call (str "SetSprite");
  key_value (str "background") ident;
  key_value (str "highlight") ident;
  key_value (str "glow") ident ].

Definition scan_flags : flags := mkFlags true true true.

(** [next((m for m in match if m), '')] for a tuple; a string as it is. *)
Definition first_nonempty (f : found) : text :=
match f with
| FStr s => s
| FTuple parts =>
  match find (fun p => negb (text_eqb p [])) parts with
  | Some p => p
  | None => []
  end
end.

(** Every match of every pattern on the text, in the order the two loops
    visit them. *)
Definition raw_matches (content : text) : list text :=
flat_map (fun pattern => map first_nonempty (findall scan_flags pattern content)) gfx_patterns.

Definition has_gfx_marker (s : text) : bool :=
startswith s (str "GFX_") || contains s (str "GFX").

(** [posixpath.basename] and [posixpath.splitext(...)[0]]; the analysis is
    stated for any host [os.path] and run with this one. *)
Definition posix_basename (p : text) : text :=
rev (takewhile (fun c => negb (Ascii.eqb c "/")) (rev p)).

Definition posix_stem (base : text) : text :=
let after_dot := takewhile (fun c => negb (Ascii.eqb c ".")) (rev base) in
if has_char "." base then
  let root := firstn (length base - length after_dot - 1) base in
  if forallb (Ascii.eqb ".") root then base else root
else base.

Definition posix_filename (p : text) : text := posix_stem (posix_basename p).

Section Run.

(** [os.path.splitext(os.path.basename(match))[0]] of the host platform. *)
Variable path_filename : text -> text.

Variable gfx_data : dict gfx_info.

(** What one raw match names, if anything: the [GFX] marker is required, a
    path is replaced by its file name (which must carry the marker too), and
    quotes are stripped. *)
Definition normalize (matched : text) : option text :=
if negb (text_eqb matched []) && has_gfx_marker matched then
  let reduced :=
    if has_char "/" matched || has_char backslash matched then
      let filename := path_filename matched in
      if has_gfx_marker filename then Some filename else None
    else Some matched in
  match reduced with
  | Some m => Some (strip_chars [dquote; squote] m)
  | None => None
  end
else None.

(** The acceptance test and the bookkeeping for one normalized candidate. *)
Definition record_usage (code_path : text) (r : results) (candidate : text) : results :=
match candidate with
| [] => r
| _ =>
  match get gfx_data candidate with
  | None => r
  | Some info =>
    if text_eqb code_path (file_source info) then r
    else
      let used := add (used_gfx r) candidate in
      let locations :=
        if has_key (usage_locations r) candidate then usage_locations r
        else set (usage_locations r) candidate [] in
      let files := match get locations candidate with
                   | Some fs => fs
                   | None => []
                   end in
      let locations :=
        if mem code_path files then locations
        else set locations candidate (files ++ [code_path]) in
      with_usage used locations r
  end
end.

Definition scan_match (code_path : text) (r : results) (matched : text) : results :=
match normalize matched with
| Some candidate => record_usage code_path r candidate
| None => r
end.

(** One turn of the scan loop: a file that cannot be read is skipped. *)
Definition scan_file (r : results) (f : code_file) : results :=
match read_result f with
| None => r
| Some content =>
  fold_left (scan_match (path_str f)) (raw_matches (strip_comments content)) r
end.

(** The files recorded for a name in [usage_locations]. *)
Definition files_of (r : results) (n : text) : list text :=
match get (usage_locations r) n with
| Some fs => fs
| None => []
end.

(** The acceptance test of the scan loop, as a proposition: the candidate is
    a key of the table and the file at [path] is not the one that defines it. *)
Definition accepted (path candidate : text) : Prop :=
candidate <> [] /\
exists info, get gfx_data candidate = Some info /\ path <> file_source info.

(** A raw match in the file at [path] that names [n] and is accepted. *)
Definition match_names (path : text) (raw n : text) : Prop :=
normalize raw = Some n /\ accepted path n.

(** The file [f] is read, and one of its raw matches names [n] and is
    accepted: [f] is evidence that [n] is used. *)
Definition references (f : code_file) (n : text) : Prop :=
exists content raw,
  read_result f = Some content /\
  In raw (raw_matches (strip_comments content)) /\
  normalize raw = Some n /\
  accepted (path_str f) n.

(** [name.replace('GFX_', '') if name.startswith('GFX_') else name] *)
Definition base_of (gfx_name : text) : text :=
if startswith gfx_name (str "GFX_") then remove_all (str "GFX_") gfx_name else gfx_name.

(** The test of the reconciliation loop. *)
Definition reconciles (gfx_name used_name : text) : bool :=
text_eqb (base_of gfx_name) (base_of used_name)
|| contains used_name gfx_name || contains gfx_name used_name.

(** The body run for the first used name that reconciles: its locations,
    the defining file apart, are appended to the name's own. *)
Definition borrow_locations (gfx_name used_name : text) (locations : dict (list text))
  : dict (list text) :=
match get locations used_name with
| None => locations
| Some used_files =>
  let locations :=
    if has_key locations gfx_name then locations else set locations gfx_name [] in
  let gfx_definition_file :=
    match get gfx_data gfx_name with
    | Some info => file_source info
    | None => []
    end in
  fold_left (fun locations usage_file =>
      if text_eqb usage_file gfx_definition_file then locations
      else
        let own := match get locations gfx_name with
                   | Some fs => fs
                   | None => []
                   end in
        set locations gfx_name (own ++ [usage_file]))
    used_files locations
end.

(** One turn of the orphan loop. *)
Definition check_orphan (r : results) (gfx_name : text) : results :=
if mem gfx_name (used_gfx r) then r
else
  match find (reconciles gfx_name) (used_gfx r) with
  | Some used_name =>
    mkResults (orphaned_gfx r) (missing_definitions r) (duplicate_definitions r)
      (used_gfx r) (borrow_locations gfx_name used_name (usage_locations r))
  | None =>
    mkResults (add (orphaned_gfx r) gfx_name) (missing_definitions r)
      (duplicate_definitions r) (used_gfx r) (usage_locations r)
  end.

(** The last loop: used names that the table does not hold. *)
Definition check_missing (r : results) (used_name : text) : results :=
if has_key gfx_data used_name then r
else mkResults (orphaned_gfx r) (add (missing_definitions r) used_name)
       (duplicate_definitions r) (used_gfx r) (usage_locations r).

(** The duplicate scan: the files of each name, and the names with several. *)
Definition name_to_files : dict (list text) :=
fold_left (fun d item =>
    let d := if has_key d (fst item) then d else set d (fst item) [] in
    let files := match get d (fst item) with
                 | Some fs => fs
                 | None => []
                 end in
    set d (fst item) (files ++ [file_source (snd item)]))
  gfx_data [].

Definition find_duplicates : dict (list text) :=
fold_left (fun d item =>
    if 1 <? length (snd item) then set d (fst item) (snd item) else d)
  name_to_files [].

(** [run]: the payload of [analysis_complete], for the files [rglob] listed.
    The progress signals are not part of the model. *)
Definition run (code_files : list code_file) : results :=
let r := mkResults [] [] find_duplicates [] [] in
let r := fold_left scan_file code_files r in
let r := fold_left check_orphan (keys gfx_data) r in
fold_left check_missing (used_gfx r) r.

End Run.

End AnalysisWorker.

(* ===================================================================== *)
(** ** Braces and openings, for the statements about the Block Extractor *)
(* ===================================================================== *)

(** The brace depth after one more character. *)
Definition brace_step (d : Z) (c : ascii) : Z :=
if Ascii.eqb c Pat.open_brace then (d + 1)%Z
else if Ascii.eqb c Pat.close_brace then (d - 1)%Z
else d.

(** The brace depth after the text [s], from depth [d]. *)
Definition brace_depth (d : Z) (s : text) : Z := fold_left brace_step s d.

(** From depth [d], the depth stays above zero throughout [s]. *)
Fixpoint open_throughout (d : Z) (s : text) : bool :=
match s with
| [] => true
| c :: s' => (0 <? brace_step d c)%Z && open_throughout (brace_step d c) s'
end.

(** The inner text of a block: inside it every closing brace answers an
    opening one, and none is left open. *)
Definition balanced (body : text) : bool :=
open_throughout 1 body && (brace_depth 1 body =? 1)%Z.

(** An opening [tag = {], with white space [ws1] and [ws2] around the sign. *)
Definition opening (tag ws1 ws2 : text) : text :=
tag ++ ws1 ++ "="%char :: ws2 ++ [Pat.open_brace].

(** The opening pattern of [tag] matches at offset [j] of [content]. *)
Definition opens_at (tag content : text) (j : nat) : bool :=
match match_at no_flags (Pat.block_open tag) false (cursor_at content j) with
| Some _ => true
| None => false
end.

(* ===================================================================== *)
(** ** Characters of values, for the statements about the scalar extractors *)
(* ===================================================================== *)

Definition is_quote (c : ascii) : bool := Ascii.eqb dquote c || Ascii.eqb squote c.

(** A character of a quoted value: no quote, no closing brace. *)
Definition inner_char (c : ascii) : bool :=
negb (Ascii.eqb dquote c || (Ascii.eqb squote c || (Ascii.eqb Pat.close_brace c || false))).

(** A character of a bare token: no white space, no closing brace. *)
Definition token_char (c : ascii) : bool :=
negb (is_space c || (Ascii.eqb Pat.close_brace c || false)).

(** The text ends here or goes on with a character outside the set. *)
Definition stops (p : ascii -> bool) (rest : text) : Prop :=
match rest with
| [] => True
| y :: _ => p y = false
end.

(** The quoted form of [key] in the element parser matches at offset [j]. *)
Definition quoted_at (key content : text) (j : nat) : bool :=
match match_at no_flags (HOI4GUIParser.property_quoted key) false (cursor_at content j) with
| Some _ => true
| None => false
end.

(** The bare form of [key] in the element parser matches at offset [j]. *)
Definition bare_at (key content : text) (j : nat) : bool :=
match match_at no_flags (HOI4GUIParser.property_unquoted key) false (cursor_at content j) with
| Some _ => true
| None => false
end.

(** The line-anchored bare form of [key] in the scripted parser matches at
    offset [j]. *)
Definition bare_line_at (key content : text) (j : nat) : bool :=
match match_at Pat.multiline (ScriptedGUIParser.property_unquoted key) false
        (cursor_at content j) with
| Some _ => true
| None => false
end.

(** A pattern without back-references: whether it matches does not depend on
    the groups captured so far. *)
Fixpoint no_backref (r : regex) : bool :=
match r with
| Eps | Chr _ | Cls _ _ | Dot | Bol => true
| Seq r1 r2 | Alt r1 r2 => no_backref r1 && no_backref r2
| Star _ r1 | Group _ r1 => no_backref r1
| Backref _ => false
end.

(** The text before a line: empty, or ended by a line break. *)
Definition ends_line (pre : text) : bool :=
match rev pre with
| [] => true
| c :: _ => Ascii.eqb c newline
end.

(* ===================================================================== *)
(** ** Element identity *)
(* ===================================================================== *)

(** The 4-tuple that identifies an element for deduplication. *)
Definition identity (e : GUIElement) : text * text * Z * Z :=
(element_type e, name e, x (position e), y (position e)).

(** The element types that are appended behind the duplicate guard. *)
Definition guarded_type (e : GUIElement) : bool :=
mem (element_type e)
  [str "containerWindowType"; str "iconType"; str "buttonType"; str "instantTextBoxType"].

(** The key [_get_element_key] makes of an identity. *)
Definition key_of (i : text * text * Z * Z) : text :=
let '(ty, n, px, py) := i in
ty ++ str ":" ++ n ++ str ":" ++ str_of_Z px ++ str ":" ++ str_of_Z py.

(** The duplicate guard's invariant: the guarded elements have distinct
    keys, all of them marked as parsed. *)
Definition guard_inv (self : HOI4GUIParser.t) : Prop :=
NoDup (map HOI4GUIParser._get_element_key
         (filter guarded_type (HOI4GUIParser.elements self))) /\
forall e, In e (HOI4GUIParser.elements self) -> guarded_type e = true ->
          In (HOI4GUIParser._get_element_key e) (HOI4GUIParser.parsed_elements self).




(** Two parser states that differ at most in the canvas size. *)
Definition same_but_canvas (a b : HOI4GUIParser.t) : Prop :=
HOI4GUIParser.elements a = HOI4GUIParser.elements b /\
HOI4GUIParser.scripted_gui_data a = HOI4GUIParser.scripted_gui_data b /\
HOI4GUIParser.parse_errors a = HOI4GUIParser.parse_errors b /\
HOI4GUIParser.parsed_elements a = HOI4GUIParser.parsed_elements b.

(** Two runs of a call end alike: the parsers they leave are related, and
    they raised the same exception or none. *)
Definition alike (R : HOI4GUIParser.t -> HOI4GUIParser.t -> Prop)
  (r1 r2 : HOI4GUIParser.run) : Prop :=
R (fst r1) (fst r2) /\ snd r1 = snd r2.

(* ===================================================================== *)
(** ** The specification's own wording, for comparison with the code *)
(* ===================================================================== *)

Module SpecWords.

(** Stripping a literal [GFX_] prefix. *)
Definition strip_gfx_prefix (s : text) : text :=
if startswith s (str "GFX_") then skipn 4 s else s.

(** The reconciliation rule as the specification words it: equal once the
    prefix is stripped from both names, or one name a substring of the
    other. *)
Definition spec_reconciles (defined_name used_name : text) : bool :=
text_eqb (strip_gfx_prefix defined_name) (strip_gfx_prefix used_name)
|| contains used_name defined_name || contains defined_name used_name.

(** What a raw match stands for: a path stands for the stem of its file
    name, any other match for itself. *)
Definition candidate_of (path_filename : text -> text) (raw : text) : text :=
if has_char "/" raw || has_char backslash raw then path_filename raw else raw.

End SpecWords.

(** The four ways a load fails, with the message each leaves: the file is
    missing; it decodes under neither encoding; its text is empty or
    blank; the text, comments removed, has no [root = { ... }] block. *)
Inductive load_failure (root not_found : text) (fs : filesystem) (file_path : text)
  : text -> Prop :=
| missing_file :
    fs file_path = None ->
    load_failure root not_found fs file_path (str "File not found: " ++ file_path)
| undecodable_file (f : file) (e1 e2 : text) :
    fs file_path = Some f ->
    read_utf8_sig f = ReadUnicodeDecodeError e1 ->
    read_cp1252 f = ReadUnicodeDecodeError e2 \/ read_cp1252 f = ReadOtherError e2 ->
    load_failure root not_found fs file_path (str "File encoding error: " ++ e2)
| empty_file (f : file) (content : text) :
    fs file_path = Some f ->
    read_source f = Returned (inl content) ->
    strip content = [] ->
    load_failure root not_found fs file_path (str "File is empty.")
| no_root_block (f : file) (content : text) :
    fs file_path = Some f ->
    read_source f = Returned (inl content) ->
    strip content <> [] ->
    search Pat.dotall (ScriptedGUIParser.root_block root) (_remove_comments content) = None ->
    load_failure root not_found fs file_path not_found.

Definition gui_not_found : text :=
str "guiTypes block not found. Please check if this is a valid HOI4 GUI file.".

Definition scripted_not_found : text :=
str "scripted_gui block not found. Please check if this is a valid scripted_gui file.".

(* ===================================================================== *)
(** ** Sample inputs *)
(* ===================================================================== *)

Module Samples.

(** A definition that sets only what the merge reads. *)
Definition definition (n window visible : text) : ScriptedGUIDefinition :=
{| sg_name := n; sg_window_name := window;
   sg_parent_window_name := None; sg_context_type := None;
   sg_visible_condition := Some visible;
   sg_triggers := None; sg_effects := None; sg_properties := None;
   sg_ai_enabled := None; sg_dirty := Some n; sg_moveable := None;
   sg_resizable := None; sg_orientation := None; sg_animation_type := None;
   sg_animation_time := None; sg_upsound := None; sg_downsound := None;
   sg_horizontalScrollbar := None; sg_verticalScrollbar := None;
   sg_smooth_scrolling := None; sg_keyframe := None; sg_input_handler := None;
   sg_scope_conditions := None; sg_dynamic_lists := None;
   sg_nested_elements := None |}.

Definition first_def : ScriptedGUIDefinition :=
definition (str "first") (str "main") (str "has_flag = a").

Definition second_def : ScriptedGUIDefinition :=
definition (str "second") (str "main") (str "has_flag = b").

Definition main_container : GUIElement :=
HOI4GUIParser.element (str "main") (str "containerWindowType") default_Position
  (Some (mkSize 800 600)) None.

Definition parser_with_main : HOI4GUIParser.t :=
HOI4GUIParser.with_elements [main_container] HOI4GUIParser.init.

(** A table entry defined in the file at [source]. *)
Definition defined_in (source : text) : AnalysisWorker.gfx_info :=
AnalysisWorker.mkInfo (str "gfx/x.dds") source (str "valid") (str "gfx/x.dds").

(** A name without the [GFX] marker, defined in one file and referenced by
    [icon = my_icon] in another. *)
Definition plain_table : dict AnalysisWorker.gfx_info :=
[(str "my_icon", defined_in (str "interface/a.gfx"))].

Definition plain_reference : AnalysisWorker.code_file :=
AnalysisWorker.mkCodeFile (str "interface/b.gui") (Some (str "icon = my_icon")).

(** A definition file that names [GFX_x] in its own text, and a file that
    refers to it. *)
Definition x_table : dict AnalysisWorker.gfx_info :=
[(str "GFX_x", defined_in (str "interface/x.gfx"))].

Definition x_definition_file : AnalysisWorker.code_file :=
AnalysisWorker.mkCodeFile (str "interface/x.gfx")
  (Some (qstr "spriteTypes = { spriteType = { name = `GFX_x` texturefile = `gfx/x.dds` } }")).

Definition x_user_file : AnalysisWorker.code_file :=
AnalysisWorker.mkCodeFile (str "interface/main.gui")
  (Some (qstr "iconType = { name = `flag` spriteType = `GFX_x` }")).

(** Two names defined in one file. *)
Definition banner_table : dict AnalysisWorker.gfx_info :=
[(str "GFX_banner", defined_in (str "interface/banner.gfx"));
 (str "GFX_unrelated", defined_in (str "interface/banner.gfx"))].

(** A reconciliation: three names defined in one file, of which an event
    file refers to [GFX_banner_small] alone. *)
Definition banner_family : dict AnalysisWorker.gfx_info :=
[(str "GFX_banner", defined_in (str "interface/banner.gfx"));
 (str "GFX_banner_small", defined_in (str "interface/banner.gfx"));
 (str "GFX_unrelated", defined_in (str "interface/banner.gfx"))].

Definition banner_reference : AnalysisWorker.code_file :=
AnalysisWorker.mkCodeFile (str "events/a.txt") (Some (str "icon = GFX_banner_small")).

(** A file system with one readable text file. *)
Definition one_file (path content : text) : filesystem :=
fun p => if text_eqb p path then Some (mkFile (ReadOk content) (ReadOk content)) else None.

(** A file without a root block. *)
Definition rootless : filesystem := one_file (str "foo.gui") (str "foo = { bar = 1 }").

(** Two GUI files loaded one after the other: the first gives its container
    a size, the second does not. *)
Definition sized_gui : text :=
qstr "guiTypes = { containerWindowType = { name = `big` size = { width = 1024 height = 768 } } }".

Definition unsized_gui : text :=
qstr "guiTypes = { containerWindowType = { name = `plain` } }".

Definition two_files : filesystem :=
fun p => if text_eqb p (str "first.gui") then Some (mkFile (ReadOk sized_gui) (ReadOk sized_gui))
         else if text_eqb p (str "second.gui")
              then Some (mkFile (ReadOk unsized_gui) (ReadOk unsized_gui))
              else None.






(** A block nested in a block of the same tag, and one nested in a block
    that is never closed. *)
Definition nested_same_tag : text := str "icon = { icon = { a } }".
Definition nested_in_unclosed : text := str "icon = { icon = { a }".

(** A property written bare on one line and quoted on the next, and one
    whose quoted value holds a space. *)
Definition bare_then_quoted : text :=
qstr "name = bare
name = `the value`".

Definition quoted_with_space : text := qstr "window_name = `my window`".

(** A property whose value is the empty string in quotes. *)
Definition empty_quoted : text := qstr "name = ``".

(** A container of 5 by 6 followed by a window whose [x] is written with
    4301 digits, one more than [int] accepts. *)
Definition overlong_gui : text :=
qstr "guiTypes = { containerWindowType = { name = `main` size = { width = 5 height = 6 } } windowType = { name = `w` position = { x = "
++ repeat "1"%char 4301 ++ str " y = 0 } } }".

Definition overlong_position : filesystem := one_file (str "o.gui") overlong_gui.

(** A button, and a definition for another window whose trigger names it. *)
Definition flag_button : GUIElement :=
HOI4GUIParser.element (str "flag") (str "buttonType") default_Position None None.

Definition flag_def : ScriptedGUIDefinition :=
{| sg_name := str "panel"; sg_window_name := str "other";
   sg_parent_window_name := None; sg_context_type := None;
   sg_visible_condition := None;
   sg_triggers := Some [(str "flag_visible", str "always = yes")];
   sg_effects := None; sg_properties := None;
   sg_ai_enabled := None; sg_dirty := None; sg_moveable := None;
   sg_resizable := None; sg_orientation := None; sg_animation_type := None;
   sg_animation_time := None; sg_upsound := None; sg_downsound := None;
   sg_horizontalScrollbar := None; sg_verticalScrollbar := None;
   sg_smooth_scrolling := None; sg_keyframe := None; sg_input_handler := None;
   sg_scope_conditions := None; sg_dynamic_lists := None;
   sg_nested_elements := None |}.

End Samples.

(* ===================================================================== *)
(** ** [class GUIPreviewCanvas]: where an anchored element is drawn *)
(* ===================================================================== *)

Module GUIPreviewCanvas.

(** [_apply_orientation]: [self.window_size] is the canvas; [//] is
    [Z.div], which rounds down as Python's does. *)
Definition _apply_orientation (window_size : Size) (x y width height : Z) (orientation : text)
  : Z * Z :=
let '(mkSize canvas_width canvas_height) := window_size in
let o := lower orientation in
if text_eqb o (str "center") then
  ((canvas_width - width) / 2 + x, (canvas_height - height) / 2 + y)%Z
else if text_eqb o (str "center_up") then
  ((canvas_width - width) / 2 + x, y)%Z
else if text_eqb o (str "center_down") then
  ((canvas_width - width) / 2 + x, canvas_height - height + y)%Z
else if text_eqb o (str "left_up") then
  (x, y)
else if text_eqb o (str "right_up") then
  (canvas_width - width + x, y)%Z
else if text_eqb o (str "left_down") then
  (x, canvas_height - height + y)%Z
else if text_eqb o (str "right_down") then
  (canvas_width - width + x, canvas_height - height + y)%Z
else (x, y).

End GUIPreviewCanvas.

(* ===================================================================== *)
(** ** Predicates for the statements about the rest of the code *)
(* ===================================================================== *)

(** A block as it lies in the text it was cut from: its braces are
    balanced, and the closing brace that ends it follows. *)
Definition closed_block (content b : text) : Prop :=
balanced b = true /\
exists pre post, content = pre ++ b ++ Pat.close_brace :: post.

(** An element as the element parsers build it, before any binding. *)
Definition as_parsed (e : GUIElement) : Prop :=
is_dynamic e = false /\ visible_condition e = None /\ click_effect e = None /\
scripted_data e = None.

(** The element is what [parse] makes of some text. *)
Definition parsed_by (parse : text -> outcome (option GUIElement)) (e : GUIElement) : Prop :=
exists content, parse content = Returned (Some e).

(** The element comes from the container pass: a container, or an icon, a
    button or a text box found inside one. *)
Definition from_container_pass (e : GUIElement) : Prop :=
parsed_by HOI4GUIParser._parse_container_window_element e \/
parsed_by HOI4GUIParser._parse_icon_element e \/
parsed_by HOI4GUIParser._parse_button_element e \/
parsed_by HOI4GUIParser._parse_text_box_element e.

(* ===================================================================== *)
(** ** [class GFXManager] of [main.py]: the asset table *)
(* ===================================================================== *)

Module GFXManager.

(** The fields of the window that the scan and the analysis write. *)
Record t : Type := mkManager
{ gfx_data : dict AnalysisWorker.gfx_info;
  orphaned_gfx : list text;
  missing_definitions : list text;
  duplicate_definitions : dict (list text);
  used_gfx : list text;
  usage_locations : dict (list text) }.

(** [__init__] *)
Definition init : t := mkManager [] [] [] [] [] [].

Definition sprite_flags : flags := mkFlags true false true.

(** [spriteType], the sign, and a braced body with blocks of one level. *)
Definition sprite_pattern : regex := Pat.one_level_block (Lit (str "spriteType")).

(** The key, the sign, and a bare value between optional quotes. *)
Definition field_pattern (key : text) : regex :=
Cat [Lit key; Pat.eq_sign; Opt Pat.any_quote; Group 1 Pat.bare_value; Opt Pat.any_quote].

Section Scan.

(** [self.mod_folder_path], and [os.path.join] and [os.path.exists] of the
    host platform. *)
Variable mod_folder_path : text.
Variable path_join : text -> text -> text.
Variable path_exists : text -> bool.

(** One turn of the loop of [parse_gfx_file] over the sprite blocks of the
    file at [gfx_file_path]. *)
Definition register (gfx_file_path : text) (self : t) (sprite_content : text) : t :=
match search Pat.ignorecase (field_pattern (str "name")) sprite_content,
      search Pat.ignorecase (field_pattern (str "texturefile")) sprite_content with
| Some name_match, Some texture_match =>
  let name := strip_chars [dquote; squote] (group_or_empty name_match 1) in
  let texture_path := strip_chars [dquote; squote] (group_or_empty texture_match 1) in
  let full_texture_path := path_join mod_folder_path texture_path in
  let status := if path_exists full_texture_path then str "valid" else str "missing_file" in
  let '(status, duplicates) :=
    match get (gfx_data self) name with
    | Some earlier =>
      (str "duplicate",
       match get (duplicate_definitions self) name with
       | Some files => set (duplicate_definitions self) name (files ++ [gfx_file_path])
       | None =>
         set (duplicate_definitions self) name
           [AnalysisWorker.file_source earlier; gfx_file_path]
       end)
    | None => (status, duplicate_definitions self)
    end in
  mkManager
    (set (gfx_data self) name
       (AnalysisWorker.mkInfo full_texture_path gfx_file_path status texture_path))
    (orphaned_gfx self) (missing_definitions self) duplicates
    (used_gfx self) (usage_locations self)
| _, _ => self
end.

(** [parse_gfx_file]: a file that cannot be read leaves the table as it is. *)
Definition parse_gfx_file (f : AnalysisWorker.code_file) (self : t) : t :=
match AnalysisWorker.read_result f with
| None => self
| Some content =>
  fold_left (register (AnalysisWorker.path_str f))
    (findall_group sprite_flags sprite_pattern (_remove_comments content)) self
end.

(** [scan_gfx_files], for the files [rglob] lists: the table is cleared,
    the duplicate map is not. *)
Definition scan_gfx_files (gfx_files : list AnalysisWorker.code_file) (self : t) : t :=
let self :=
  mkManager [] (orphaned_gfx self) (missing_definitions self) (duplicate_definitions self)
    (used_gfx self) (usage_locations self) in
fold_left (fun self f => parse_gfx_file f self) gfx_files self.

End Scan.

(** The numbers of [update_statistics_cards]. *)
Definition total_gfx (self : t) : nat := length (gfx_data self).

Definition valid_gfx (self : t) : nat :=
length (filter (fun item => text_eqb (AnalysisWorker.status (snd item)) (str "valid"))
          (gfx_data self)).

Definition error_gfx (self : t) : nat :=
length (filter (fun item =>
                  mem (AnalysisWorker.status (snd item)) [str "missing_file"; str "duplicate"])
          (gfx_data self)).

(** [on_analysis_complete] *)
Definition on_analysis_complete (results : AnalysisWorker.results) (self : t) : t :=
mkManager (gfx_data self) (AnalysisWorker.orphaned_gfx results)
  (AnalysisWorker.missing_definitions results)
  (AnalysisWorker.duplicate_definitions results)
  (AnalysisWorker.used_gfx results) (AnalysisWorker.usage_locations results).

(** [run_full_analysis] with the worker's result delivered: nothing is done
    on an empty table; the worker reads the table as it stands. *)
Definition run_full_analysis (path_filename : text -> text)
  (code_files : list AnalysisWorker.code_file) (self : t) : t :=
match gfx_data self with
| [] => self
| _ :: _ =>
  on_analysis_complete (AnalysisWorker.run path_filename (gfx_data self) code_files) self
end.

End GFXManager.

(** The bookkeeping of duplicates agrees with the table: a name listed in
    the duplicate map is a key of the table with status [duplicate], its
    list holds at least two files, and the last of them is the file the
    table records for the name. *)
Definition duplicates_recorded (self : GFXManager.t) : Prop :=
forall (name : text) (files : list text),
  get (GFXManager.duplicate_definitions self) name = Some files ->
  exists info,
    get (GFXManager.gfx_data self) name = Some info /\
    AnalysisWorker.status info = str "duplicate" /\
    2 <= length files /\
    last files [] = AnalysisWorker.file_source info.

(** Every entry of the table with status [duplicate] is listed in the
    duplicate map. *)
Definition duplicates_listed (self : GFXManager.t) : Prop :=
forall (name : text) (info : AnalysisWorker.gfx_info),
  get (GFXManager.gfx_data self) name = Some info ->
  AnalysisWorker.status info = str "duplicate" ->
  has_key (GFXManager.duplicate_definitions self) name = true.

(** The status of every entry is one of the three the scan assigns. *)
Definition statuses_known (self : GFXManager.t) : Prop :=
Forall (fun item =>
          In (AnalysisWorker.status (snd item))
             [str "valid"; str "missing_file"; str "duplicate"])
  (GFXManager.gfx_data self).

(** The pattern [r] reads the text [t] at a cursor where [t] stands before a
    rest that [after] accepts, adding the groups [gs] (latest first) and
    leaving the cursor behind [t]. *)
Definition reads (fl : flags) (r : regex) (t : text) (gs : captures) (after : text -> Prop)
  : Prop :=
forall (c : cursor) (g : captures) (k : cursor -> captures -> option Match)
       (m : Match) (rest : text),
  c_rest c = t ++ rest -> after rest ->
  k (feed c t) (gs ++ g) = Some m ->
  exec Match fl r c g k = Some m.

(** The [i]-th stretch of white space of a block, empty when none is given. *)
Definition gap (w : list text) (i : nat) : text := nth i w [].

(** A block [key = { first = t1 second = t2 }], with the stretches of white
    space [w] between its tokens. *)
Definition named_pair_text (key first second t1 t2 : text) (w : list text) : text :=
key ++ gap w 0 ++ "="%char :: gap w 1 ++ Pat.open_brace :: gap w 2 ++
first ++ gap w 3 ++ "="%char :: gap w 4 ++ t1 ++ gap w 5 ++
second ++ gap w 6 ++ "="%char :: gap w 7 ++ t2 ++ gap w 8 ++ [Pat.close_brace].

(** A pattern of the element parser matches at offset [j] of [content]. *)
Definition matches_at (r : regex) (content : text) (j : nat) : bool :=
match match_at no_flags r false (cursor_at content j) with
| Some _ => true
| None => false
end.

(** The definition names the widget [n]: a trigger [n_click_enabled] or
    [n_visible], or a click effect [n_click]. *)
Definition names_widget (scripted_gui : ScriptedGUIDefinition) (n : text) : bool :=
match sg_triggers scripted_gui with
| Some (kv :: d) =>
  has_key (kv :: d) (n ++ str "_click_enabled") || has_key (kv :: d) (n ++ str "_visible")
| _ => false
end
|| match sg_effects scripted_gui with
   | Some (kv :: d) => has_key (kv :: d) (n ++ str "_click")
   | _ => false
   end.

(* ===================================================================== *)
(** * Properties *)
(* ===================================================================== *)

(** ** Strings, dictionaries, sets *)

Lemma text_eqb_refl (a : text) : text_eqb a a = true.
Proof.
induction a as [|c a IH]; simpl; [reflexivity|].
now rewrite Ascii.eqb_refl, IH.
Qed.

Lemma text_eqb_eq (a b : text) : text_eqb a b = true <-> a = b.
Proof.
split.
- revert b. induction a as [|c a IH]; intros [|d b] H; simpl in H; try discriminate; auto.
  apply andb_true_iff in H as [H1 H2].
  apply Ascii.eqb_eq in H1. subst d. f_equal. now apply IH.
- intros ->. apply text_eqb_refl.
Qed.

Lemma text_eqb_neq (a b : text) : text_eqb a b = false <-> a <> b.
Proof.
split.
- intros H E. apply text_eqb_eq in E. congruence.
- intros H. destruct (text_eqb a b) eqn:E; [|reflexivity].
  apply text_eqb_eq in E. contradiction.
Qed.

Lemma text_eqb_sym (a b : text) : text_eqb a b = text_eqb b a.
Proof.
destruct (text_eqb a b) eqn:E.
- apply text_eqb_eq in E. subst. symmetry. apply text_eqb_refl.
- symmetry. apply text_eqb_neq. apply text_eqb_neq in E. congruence.
Qed.

Lemma mem_In (x : text) (s : list text) : mem x s = true <-> In x s.
Proof.
unfold mem. rewrite existsb_exists. split.
- intros (y & Hy & E). apply text_eqb_eq in E. now subst.
- intros H. exists x. split; [assumption | apply text_eqb_refl].
Qed.

Lemma mem_false (x : text) (s : list text) : mem x s = false <-> ~ In x s.
Proof.
rewrite <- mem_In. destruct (mem x s); split; congruence.
Qed.

Lemma In_add (s : list text) (x y : text) : In y (add s x) <-> In y s \/ y = x.
Proof.
unfold add. destruct (mem x s) eqn:E.
- apply mem_In in E. split; [auto | intros [H | ->]; assumption].
- rewrite in_app_iff. simpl. intuition.
Qed.

Lemma NoDup_add (s : list text) (x : text) : NoDup s -> NoDup (add s x).
Proof.
intros H. unfold add. destruct (mem x s) eqn:E; [assumption|].
apply mem_false in E.
apply NoDup_app; [assumption | repeat constructor; intros [] | ].
intros y Hy [<- | []]. contradiction.
Qed.

Section DictFacts.
Context {V : Type}.
Implicit Types (d : dict V) (k : text) (v : V).

Lemma get_set_same d k v : get (set d k v) k = Some v.
Proof.
induction d as [|[k' v'] d IH]; simpl.
- now rewrite text_eqb_refl.
- destruct (text_eqb k k') eqn:E; simpl; rewrite E; [reflexivity | exact IH].
Qed.

Lemma get_set_other d k k' v : k' <> k -> get (set d k v) k' = get d k'.
Proof.
intros Hne. induction d as [|[k0 v0] d IH]; simpl.
- apply text_eqb_neq in Hne. now rewrite Hne.
- destruct (text_eqb k k0) eqn:E; simpl.
  + apply text_eqb_eq in E. subst k0.
    apply text_eqb_neq in Hne. now rewrite Hne.
  + destruct (text_eqb k' k0); [reflexivity | exact IH].
Qed.

Lemma get_In d k v : get d k = Some v -> In (k, v) d.
Proof.
induction d as [|[k0 v0] d IH]; simpl; [discriminate|].
destruct (text_eqb k k0) eqn:E.
- apply text_eqb_eq in E. intros [= ->]. subst. now left.
- intros H. right. now apply IH.
Qed.

Lemma has_key_get d k : has_key d k = true <-> exists v, get d k = Some v.
Proof.
unfold has_key. destruct (get d k); split; try congruence; eauto.
intros [v [=]].
Qed.

(** Every entry of [set d k v] is [(k, v)] or an entry of [d]. *)
Lemma In_set d k v kv : In kv (set d k v) -> kv = (k, v) \/ In kv d.
Proof.
induction d as [|[k0 v0] d IH]; simpl.
- intros [<- | []]. now left.
- destruct (text_eqb k k0) eqn:E; simpl.
  + apply text_eqb_eq in E. subst k0. intros [<- | H]; auto.
  + intros [<- | H]; auto. destruct (IH H); auto.
Qed.

End DictFacts.

(* ===================================================================== *)
(** ** The Dynamic-Binding Merger *)
(* ===================================================================== *)

Section MergerFacts.
Import HOI4GUIParser.

Lemma scripted_gui_data_set defs self :
  scripted_gui_data (set_scripted_gui_data defs self) = index_definitions defs [].
Proof. reflexivity. Qed.

Lemma elements_set_scripted_gui_data defs self :
  elements (set_scripted_gui_data defs self) = elements self.
Proof. reflexivity. Qed.

(** Every entry of the index stands under its own [window_name]. *)
Lemma index_keyed defs : forall d0,
  (forall k v, In (k, v) d0 -> k = sg_window_name v) ->
  forall k v, In (k, v) (index_definitions defs d0) -> k = sg_window_name v.
Proof.
induction defs as [|def defs IH]; intros d0 H0 k v; simpl; [apply H0|].
apply IH. intros k' v' Hin.
destruct (In_set _ _ _ _ Hin) as [[= -> ->] | Hold]; [reflexivity | now apply H0].
Qed.

(** Later definitions with other window names leave an entry alone. *)
Lemma index_keeps after : forall d0 key d,
  get d0 key = Some d ->
  (forall d', In d' after -> sg_window_name d' <> key) ->
  get (index_definitions after d0) key = Some d.
Proof.
induction after as [|a after IH]; intros d0 key d Hget Hother; simpl; [assumption|].
apply IH.
- rewrite get_set_other; [assumption|].
  intros E. apply (Hother a); [now left | now symmetry].
- intros d' Hd'. apply Hother. now right.
Qed.

(** The last definition of a window name is the one the index holds. *)
Lemma index_last before d after :
  (forall d', In d' after -> sg_window_name d' <> sg_window_name d) ->
  get (index_definitions (before ++ d :: after) []) (sg_window_name d) = Some d.
Proof.
intros Hother. unfold index_definitions. rewrite fold_left_app. simpl.
apply index_keeps; [apply get_set_same | assumption].
Qed.

(** In an index keyed by window name the scan of the values finds what the
    lookup finds. *)
Lemma scan_is_lookup (data : dict ScriptedGUIDefinition) key :
  (forall k v, In (k, v) data -> k = sg_window_name v) ->
  find (fun scripted_gui => text_eqb (sg_window_name scripted_gui) key) (values data)
  = get data key.
Proof.
induction data as [|[k0 v0] data IH]; intros Hkeyed; simpl; [reflexivity|].
rewrite (Hkeyed k0 v0) by now left.
rewrite (text_eqb_sym key). destruct (text_eqb (sg_window_name v0) key); [reflexivity|].
apply IH. intros k v Hin. apply Hkeyed. now right.
Qed.

Lemma name_merge_properties sg e : name (merge_properties sg e) = name e.
Proof. unfold merge_properties. destruct (sg_properties sg) as [[|? ?]|]; reflexivity. Qed.

Lemma apply_to_container_bound data e d :
  (forall k v, In (k, v) data -> k = sg_window_name v) ->
  get data (name e) = Some d ->
  let e' := apply_to_container data e in
  name e' = name e /\ element_type e' = element_type e /\
  visible_condition e' = sg_visible_condition d /\
  is_dynamic e' = true /\
  scripted_data e' = Some (_create_scripted_data_dict d).
Proof.
intros Hkeyed Hget. unfold apply_to_container. rewrite Hget.
rewrite scan_is_lookup by assumption.
rewrite name_merge_properties. simpl. rewrite Hget. simpl.
unfold merge_properties. destruct (sg_properties d) as [[|? ?]|]; simpl; auto.
Qed.

End MergerFacts.

(** C1. When several definitions share a window name, the merge
    ([set_scripted_gui_data], then [_apply_scripted_gui_data]) gives a
    [containerWindowType] element of that name the visibility condition and
    the attached metadata of the last such definition in the input order:
    whatever stands before the definition [d], if no later definition has
    its window name, the element at any index comes out bound to [d]. *)
Theorem C1_last_definition_wins :
  forall (self : HOI4GUIParser.t) (before after : list ScriptedGUIDefinition)
         (d : ScriptedGUIDefinition) (i : nat) (e : GUIElement),
    nth_error (HOI4GUIParser.elements self) i = Some e ->
    element_type e = str "containerWindowType" ->
    sg_window_name d = name e ->
    (forall d', In d' after -> sg_window_name d' <> name e) ->
    let merged :=
      HOI4GUIParser._apply_scripted_gui_data
        (HOI4GUIParser.set_scripted_gui_data (before ++ d :: after) self) in
    exists e',
      nth_error (HOI4GUIParser.elements merged) i = Some e' /\
      name e' = name e /\
      element_type e' = element_type e /\
      visible_condition e' = sg_visible_condition d /\
      is_dynamic e' = true /\
      scripted_data e' = Some (HOI4GUIParser._create_scripted_data_dict d).
Proof.
intros self before after d i e Hnth Hty Hname Hafter merged.
assert (Hlast : get (HOI4GUIParser.index_definitions (before ++ d :: after) []) (name e) = Some d).
{ rewrite <- Hname. apply index_last. intros d' Hd'. rewrite Hname. now apply Hafter. }
assert (Hkeyed : forall k v, In (k, v) (HOI4GUIParser.index_definitions (before ++ d :: after) []) ->
                             k = sg_window_name v).
{ apply index_keyed. intros k v []. }
subst merged. unfold HOI4GUIParser._apply_scripted_gui_data.
rewrite scripted_gui_data_set, elements_set_scripted_gui_data.
destruct (HOI4GUIParser.index_definitions (before ++ d :: after) []) as [|entry data] eqn:Hdata;
  [discriminate Hlast|].
rewrite <- Hdata in *. clear Hdata entry data.
exists (HOI4GUIParser.apply_to_element (HOI4GUIParser.index_definitions (before ++ d :: after) []) e).
split.
- cbn [HOI4GUIParser.elements HOI4GUIParser.with_elements].
  rewrite nth_error_map, Hnth. reflexivity.
- unfold HOI4GUIParser.apply_to_element. rewrite Hty, text_eqb_refl.
  rewrite <- Hty. now apply apply_to_container_bound.
Qed.

Lemma C1_last_definition_wins_witness :
  exists e',
    nth_error (HOI4GUIParser.elements
      (HOI4GUIParser._apply_scripted_gui_data
        (HOI4GUIParser.set_scripted_gui_data [Samples.first_def; Samples.second_def]
           Samples.parser_with_main))) 0 = Some e' /\
    name e' = str "main" /\
    element_type e' = str "containerWindowType" /\
    visible_condition e' = Some (str "has_flag = b") /\
    is_dynamic e' = true /\
    scripted_data e' = Some [(str "dirty", VStr (str "second"))].
Proof.
apply (C1_last_definition_wins Samples.parser_with_main [Samples.first_def] []
         Samples.second_def 0 Samples.main_container).
- reflexivity.
- reflexivity.
- reflexivity.
- intros d' [].
Defined.

(* ===================================================================== *)
(** ** The Usage Analyzer *)
(* ===================================================================== *)

(** What a fold collects: if each step adds to an observation exactly what
    [P] says of the item, the fold adds what [P] says of some item. *)
Lemma fold_left_collect {A B X : Type} (step : B -> A -> B)
  (obs : B -> X -> Prop) (P : A -> X -> Prop) :
  (forall b a x, obs (step b a) x <-> obs b x \/ P a x) ->
  forall l b x, obs (fold_left step l b) x <-> obs b x \/ exists a, In a l /\ P a x.
Proof.
intros Hstep l. induction l as [|a l IH]; intros b x; simpl.
- split; [auto | intros [H | (a & [] & _)]; exact H].
- rewrite IH, Hstep. split.
  + intros [[H | H] | (a' & Hin & H)]; eauto.
  + intros [H | (a' & [<- | Hin] & H)]; eauto.
Qed.

Section AnalyzerFacts.
Import AnalysisWorker.

Variable path_filename : text -> text.
Variable gfx_data : dict gfx_info.

Lemma used_record_usage path r c n :
  In n (used_gfx (record_usage gfx_data path r c)) <->
  In n (used_gfx r) \/ (n = c /\ accepted gfx_data path c).
Proof.
unfold record_usage, accepted. destruct c as [|a c].
- split; [auto | intros [H | [_ [H _]]]; [exact H | congruence]].
- destruct (get gfx_data (a :: c)) as [info|] eqn:Hget.
  + destruct (text_eqb path (file_source info)) eqn:E.
    * apply text_eqb_eq in E. split; [auto|].
      intros [H | (_ & _ & info' & [= <-] & Hne)]; [exact H | contradiction].
    * apply text_eqb_neq in E. cbn [used_gfx with_usage]. rewrite In_add.
      split; intros [H | H]; auto.
      -- right. split; [exact H|]. split; [discriminate | eauto].
      -- right. apply H.
  + split; [auto | intros [H | (_ & _ & info & [=] & _)]; exact H].
Qed.

Lemma files_record_usage path r c n q :
  In q (files_of (record_usage gfx_data path r c) n) <->
  In q (files_of r n) \/ (n = c /\ q = path /\ accepted gfx_data path c).
Proof.
unfold record_usage, accepted. destruct c as [|a c].
- split; [auto | intros [H | (_ & _ & H & _)]; [exact H | congruence]].
- destruct (get gfx_data (a :: c)) as [info|] eqn:Hget.
  2:{ split; [auto | intros [H | (_ & _ & _ & info & [=] & _)]; exact H]. }
  destruct (text_eqb path (file_source info)) eqn:E.
  { apply text_eqb_eq in E. split; [auto|].
    intros [H | (_ & _ & _ & info' & [= <-] & Hne)]; [exact H | contradiction]. }
  apply text_eqb_neq in E.
  assert (Hacc : (a :: c) <> [] /\
                 exists info0, Some info = Some info0 /\ path <> file_source info0)
    by (split; [discriminate | eauto]).
  unfold files_of at 1. cbn [usage_locations with_usage].
  set (locs := if has_key (usage_locations r) (a :: c) then usage_locations r
               else set (usage_locations r) (a :: c) []).
  assert (Hlocs : forall m, match get locs m with Some fs => fs | None => [] end
                            = files_of r m).
  { intros m. unfold locs, files_of, has_key.
    destruct (get (usage_locations r) (a :: c)) eqn:Hg; [reflexivity|].
    destruct (text_eqb m (a :: c)) eqn:Em.
    - apply text_eqb_eq in Em. subst m. now rewrite get_set_same, Hg.
    - apply text_eqb_neq in Em. now rewrite get_set_other. }
  destruct (mem path (match get locs (a :: c) with Some fs => fs | None => [] end)) eqn:Hmem.
  + rewrite Hlocs. rewrite Hlocs in Hmem. apply mem_In in Hmem.
    split; [auto|]. intros [H | (-> & -> & _)]; assumption.
  + destruct (text_eqb n (a :: c)) eqn:En.
    * apply text_eqb_eq in En. subst n. rewrite get_set_same, Hlocs.
      rewrite in_app_iff. simpl. split.
      -- intros [H | [<- | []]]; auto.
      -- intros [H | (_ & -> & _)]; auto.
    * apply text_eqb_neq in En. rewrite get_set_other by assumption.
      rewrite Hlocs. split; [auto|].
      intros [H | (-> & _)]; [exact H | contradiction].
Qed.

Lemma used_scan_match path r raw n :
  In n (used_gfx (scan_match path_filename gfx_data path r raw)) <->
  In n (used_gfx r) \/ match_names path_filename gfx_data path raw n.
Proof.
unfold scan_match, match_names. destruct (normalize path_filename raw) as [c|].
- rewrite used_record_usage. split; intros [H | H]; auto.
  + destruct H as [-> H]. auto.
  + destruct H as [[= ->] H]. auto.
- split; [auto | intros [H | [[=] _]]; exact H].
Qed.

Lemma files_scan_match path r raw n q :
  In q (files_of (scan_match path_filename gfx_data path r raw) n) <->
  In q (files_of r n) \/ (q = path /\ match_names path_filename gfx_data path raw n).
Proof.
unfold scan_match, match_names. destruct (normalize path_filename raw) as [c|].
- rewrite files_record_usage. split; intros [H | H]; auto.
  + destruct H as (-> & -> & H). auto.
  + destruct H as (-> & [= ->] & H). auto.
- split; [auto | intros [H | (_ & [=] & _)]; exact H].
Qed.

Lemma used_scan_file r f n :
  In n (used_gfx (scan_file path_filename gfx_data r f)) <->
  In n (used_gfx r) \/ references path_filename gfx_data f n.
Proof.
unfold scan_file, references. destruct (read_result f) as [content|].
- rewrite (fold_left_collect _ (fun r n => In n (used_gfx r))
             (fun raw n => match_names path_filename gfx_data (path_str f) raw n)).
  + unfold match_names. split; intros [H | H]; auto.
    * destruct H as (raw & Hin & Hn & Hacc). right. exists content, raw. auto.
    * destruct H as (content' & raw & [= <-] & Hin & Hn & Hacc). right. exists raw. auto.
  + intros. apply used_scan_match.
- split; [auto | intros [H | (? & ? & [=] & _)]; exact H].
Qed.

Lemma files_scan_file r f n q :
  In q (files_of (scan_file path_filename gfx_data r f) n) <->
  In q (files_of r n) \/ (q = path_str f /\ references path_filename gfx_data f n).
Proof.
unfold scan_file, references. destruct (read_result f) as [content|].
- rewrite (fold_left_collect _ (fun r (nq : text * text) => In (snd nq) (files_of r (fst nq)))
             (fun raw (nq : text * text) =>
                snd nq = path_str f /\ match_names path_filename gfx_data (path_str f) raw (fst nq))
             (fun b a x => files_scan_match (path_str f) b a (fst x) (snd x))
             _ _ (n, q)).
  simpl. unfold match_names. split; intros [H | H]; auto.
  + destruct H as (raw & Hin & -> & Hn & Hacc). right. split; [reflexivity|].
    exists content, raw. auto.
  + destruct H as (-> & content' & raw & [= <-] & Hin & Hn & Hacc). right. exists raw. auto.
- split; [auto | intros [H | (_ & ? & ? & [=] & _)]; exact H].
Qed.

(** The scan loop over the whole corpus. *)
Lemma used_scan_files files r n :
  In n (used_gfx (fold_left (scan_file path_filename gfx_data) files r)) <->
  In n (used_gfx r) \/ exists f, In f files /\ references path_filename gfx_data f n.
Proof.
apply (fold_left_collect _ (fun r n => In n (used_gfx r)) (references path_filename gfx_data)).
intros. apply used_scan_file.
Qed.

Lemma files_scan_files files r n q :
  In q (files_of (fold_left (scan_file path_filename gfx_data) files r) n) <->
  In q (files_of r n) \/ exists f, In f files /\ q = path_str f /\ references path_filename gfx_data f n.
Proof.
apply (fold_left_collect _ (fun r (nq : text * text) => In (snd nq) (files_of r (fst nq)))
         (fun f (nq : text * text) => snd nq = path_str f /\ references path_filename gfx_data f (fst nq))
         (fun b a x => files_scan_file b a (fst x) (snd x)) files r (n, q)).
Qed.

End AnalyzerFacts.

Section OrphanFacts.
Import AnalysisWorker.

Variable path_filename : text -> text.
Variable gfx_data : dict gfx_info.

Lemma find_none_iff {A : Type} (f : A -> bool) (l : list A) :
  find f l = None <-> forall a, In a l -> f a = false.
Proof.
split; [intros H a; now apply find_none|].
induction l as [|a l IH]; intros H; simpl; [reflexivity|].
rewrite (H a) by now left. apply IH. intros b Hb. apply H. now right.
Qed.

Lemma used_check_orphan r n : used_gfx (check_orphan gfx_data r n) = used_gfx r.
Proof.
unfold check_orphan. destruct (mem n (used_gfx r)); [reflexivity|].
destruct (find (reconciles n) (used_gfx r)); reflexivity.
Qed.

Lemma missing_check_orphan r n :
  missing_definitions (check_orphan gfx_data r n) = missing_definitions r.
Proof.
unfold check_orphan. destruct (mem n (used_gfx r)); [reflexivity|].
destruct (find (reconciles n) (used_gfx r)); reflexivity.
Qed.

Lemma orphaned_check_orphan r n x :
  In x (orphaned_gfx (check_orphan gfx_data r n)) <->
  In x (orphaned_gfx r) \/
  (x = n /\ ~ In n (used_gfx r) /\ forall u, In u (used_gfx r) -> reconciles n u = false).
Proof.
unfold check_orphan. destruct (mem n (used_gfx r)) eqn:Hmem.
- apply mem_In in Hmem. split; [auto | intros [H | (_ & H & _)]; [exact H | contradiction]].
- apply mem_false in Hmem. destruct (find (reconciles n) (used_gfx r)) as [u|] eqn:Hfind.
  + apply find_some in Hfind as [Hu Hrec]. cbn [orphaned_gfx]. split; [auto|].
    intros [H | (_ & _ & H)]; [exact H|]. rewrite (H u Hu) in Hrec. discriminate.
  + cbn [orphaned_gfx]. rewrite In_add. rewrite find_none_iff in Hfind.
    split; intros [H | H]; auto. right. apply H.
Qed.

Lemma used_orphan_loop names : forall r,
  used_gfx (fold_left (check_orphan gfx_data) names r) = used_gfx r.
Proof.
induction names as [|n names IH]; intros r; simpl; [reflexivity|].
now rewrite IH, used_check_orphan.
Qed.

Lemma missing_orphan_loop names : forall r,
  missing_definitions (fold_left (check_orphan gfx_data) names r) = missing_definitions r.
Proof.
induction names as [|n names IH]; intros r; simpl; [reflexivity|].
now rewrite IH, missing_check_orphan.
Qed.

(** The orphan loop: a name ends up orphaned exactly when the loop visits
    it, it is not used, and no used name reconciles with it. *)
Lemma orphaned_orphan_loop names : forall r x,
  In x (orphaned_gfx (fold_left (check_orphan gfx_data) names r)) <->
  In x (orphaned_gfx r) \/
  (In x names /\ ~ In x (used_gfx r) /\
   forall u, In u (used_gfx r) -> reconciles x u = false).
Proof.
induction names as [|n names IH]; intros r x; simpl.
- split; [auto | intros [H | ([] & _)]; exact H].
- rewrite IH, orphaned_check_orphan, used_check_orphan. split.
  + intros [[H | (-> & H)] | (Hin & H)]; auto.
  + intros [H | ([<- | Hin] & H)]; auto.
Qed.

(** The last loop adds nothing when every used name is a key of the table. *)
Lemma missing_loop_defined used : forall r,
  (forall u, In u used -> has_key gfx_data u = true) ->
  fold_left (check_missing gfx_data) used r = r.
Proof.
induction used as [|u used IH]; intros r H; simpl; [reflexivity|].
unfold check_missing at 2. rewrite (H u) by now left.
apply IH. intros v Hv. apply H. now right.
Qed.

Lemma run_used files :
  used_gfx (run path_filename gfx_data files)
  = used_gfx (fold_left (scan_file path_filename gfx_data) files
                (mkResults [] [] (find_duplicates gfx_data) [] [])).
Proof.
unfold run.
set (scanned := fold_left (scan_file path_filename gfx_data) files _).
set (checked := fold_left (check_orphan gfx_data) (keys gfx_data) scanned).
assert (Hused : used_gfx checked = used_gfx scanned) by apply used_orphan_loop.
assert (Hdef : forall u, In u (used_gfx checked) -> has_key gfx_data u = true).
{ intros u Hu. rewrite Hused in Hu. unfold scanned in Hu.
  apply used_scan_files in Hu as [[] | (f & _ & content & raw & _ & _ & _ & _ & info & Hget & _)].
  apply has_key_get. eauto. }
rewrite missing_loop_defined by assumption. exact Hused.
Qed.

Lemma run_after_scan files :
  run path_filename gfx_data files
  = fold_left (check_orphan gfx_data) (keys gfx_data)
      (fold_left (scan_file path_filename gfx_data) files
         (mkResults [] [] (find_duplicates gfx_data) [] [])).
Proof.
unfold run. apply missing_loop_defined.
intros u Hu. rewrite used_orphan_loop in Hu.
apply used_scan_files in Hu as [[] | (f & _ & content & raw & _ & _ & _ & _ & info & Hget & _)].
apply has_key_get. eauto.
Qed.

End OrphanFacts.

(** ** The reconciliation rule of the specification against the code's *)

Lemma startswith_app (s p : text) : startswith s p = true -> s = p ++ skipn (length p) s.
Proof.
revert s. induction p as [|c p IH]; intros s H; [reflexivity|].
destruct s as [|d s]; simpl in H; [discriminate|].
apply andb_true_iff in H as [Hc Hp]. apply Ascii.eqb_eq in Hc. subst d.
simpl. f_equal. now apply IH.
Qed.

Lemma startswith_refl (s : text) : startswith s s = true.
Proof. induction s as [|c s IH]; simpl; [reflexivity|]. now rewrite Ascii.eqb_refl. Qed.

Lemma contains_refl (s : text) : contains s s = true.
Proof. destruct s; simpl; [reflexivity|]. now rewrite Ascii.eqb_refl, startswith_refl. Qed.

(** A suffix is a substring. *)
Lemma contains_suffix (a s : text) : contains (a ++ s) s = true.
Proof.
induction a as [|c a IH]; simpl; [apply contains_refl|].
rewrite IH. apply orb_true_r.
Qed.

Lemma spec_reconciles_reconciles (defined_name used_name : text) :
  SpecWords.spec_reconciles defined_name used_name = true ->
  AnalysisWorker.reconciles defined_name used_name = true.
Proof.
unfold SpecWords.spec_reconciles, AnalysisWorker.reconciles.
intros H. apply orb_true_iff in H as [H | H];
  [apply orb_true_iff in H as [H | H] | ]; [ | now rewrite H, orb_true_r | now rewrite H, orb_true_r].
apply text_eqb_eq in H. unfold SpecWords.strip_gfx_prefix in H.
unfold AnalysisWorker.base_of.
destruct (startswith defined_name (str "GFX_")) eqn:Hd;
  destruct (startswith used_name (str "GFX_")) eqn:Hu.
- apply startswith_app in Hd, Hu.
  change (length (str "GFX_")) with 4 in Hd, Hu. rewrite H in Hd.
  rewrite Hd at 1. rewrite <- Hu. now rewrite text_eqb_refl.
- apply startswith_app in Hd.
  change (length (str "GFX_")) with 4 in Hd. rewrite H in Hd.
  rewrite Hd at 3. rewrite contains_suffix. apply orb_true_r.
- apply startswith_app in Hu.
  change (length (str "GFX_")) with 4 in Hu. rewrite <- H in Hu.
  rewrite Hu at 2. rewrite contains_suffix. now rewrite orb_true_r.
- subst. now rewrite text_eqb_refl.
Qed.

(** C7 (as stated, refuted).  [my_icon] is a key of the table, the file
    [interface/b.gui] is not the file that defines it, and the pattern bank
    extracts [my_icon] from that file's [icon = my_icon]; all the same the
    name is not counted as used, no location is recorded, and it is
    classified orphaned: the candidate lacks the [GFX] marker. *)
Lemma C7_counterexample :
  In (str "my_icon")
     (AnalysisWorker.raw_matches (AnalysisWorker.strip_comments (str "icon = my_icon"))) /\
  has_key Samples.plain_table (str "my_icon") = true /\
  text_eqb (AnalysisWorker.path_str Samples.plain_reference) (str "interface/a.gfx") = false /\
  AnalysisWorker.used_gfx
    (AnalysisWorker.run AnalysisWorker.posix_filename Samples.plain_table
       [Samples.plain_reference]) = [] /\
  AnalysisWorker.usage_locations
    (AnalysisWorker.run AnalysisWorker.posix_filename Samples.plain_table
       [Samples.plain_reference]) = [] /\
  AnalysisWorker.orphaned_gfx
    (AnalysisWorker.run AnalysisWorker.posix_filename Samples.plain_table
       [Samples.plain_reference]) = [str "my_icon"].
Proof.
split; [vm_compute; auto|]. repeat split; vm_compute; reflexivity.
Qed.

(** C10.  The result of [run] never reports a missing definition: a name
    enters the used set only as a key of the table, so the last loop finds
    nothing to report. *)
Theorem C10_no_missing_definitions :
  forall (path_filename : text -> text) (gfx_data : dict AnalysisWorker.gfx_info)
         (code_files : list AnalysisWorker.code_file),
    AnalysisWorker.missing_definitions
      (AnalysisWorker.run path_filename gfx_data code_files) = [].
Proof.
intros path_filename gfx_data code_files.
rewrite run_after_scan, missing_orphan_loop.
set (r0 := AnalysisWorker.mkResults [] [] (AnalysisWorker.find_duplicates gfx_data) [] []).
assert (H : forall files r,
          AnalysisWorker.missing_definitions
            (fold_left (AnalysisWorker.scan_file path_filename gfx_data) files r)
          = AnalysisWorker.missing_definitions r).
{ induction files as [|f files IH]; intros r; simpl; [reflexivity|].
  rewrite IH. unfold AnalysisWorker.scan_file.
  destruct (AnalysisWorker.read_result f) as [content|]; [|reflexivity].
  generalize (AnalysisWorker.raw_matches (AnalysisWorker.strip_comments content)).
  intros raws. revert r. induction raws as [|raw raws IHr]; intros r; simpl; [reflexivity|].
  rewrite IHr. unfold AnalysisWorker.scan_match.
  destruct (AnalysisWorker.normalize path_filename raw) as [c|]; [|reflexivity].
  unfold AnalysisWorker.record_usage. destruct c; [reflexivity|].
  destruct (get gfx_data (a :: c)); [|reflexivity].
  destruct (text_eqb _ _); reflexivity. }
now rewrite H.
Qed.

(* ===================================================================== *)
(** ** Calls that may raise *)
(* ===================================================================== *)

Lemma fold_left_preserves {A B : Type} (P : B -> Prop) (step : B -> A -> B) :
  (forall b a, P b -> P (step b a)) ->
  forall l b, P b -> P (fold_left step l b).
Proof.
intros Hstep l. induction l as [|a l IH]; intros b Hb; simpl; auto.
Qed.

Section RunFacts.
Import HOI4GUIParser.

Lemma for_each_raised {A : Type} (body : t -> A -> run) (items : list A) (self : t) (e : text) :
  fold_left (fun r item => and_then r (fun s => body s item)) items (self, Some e)
  = (self, Some e).
Proof. induction items as [|x items IH]; simpl; [reflexivity | exact IH]. Qed.

Lemma for_each_cons {A : Type} (body : t -> A -> run) (x : A) (items : list A) (self : t) :
  for_each body (x :: items) self = and_then (body self x) (for_each body items).
Proof.
unfold for_each. cbn [fold_left ok and_then].
destruct (body self x) as [s [e|]]; cbn [and_then]; [apply for_each_raised | reflexivity].
Qed.


(** The parser a call leaves satisfies what every statement of it keeps,
    whether the call returns or raises. *)
Lemma and_then_preserves (P : t -> Prop) (r : run) (rest : t -> run) :
  P (fst r) -> (forall s, P s -> P (fst (rest s))) -> P (fst (and_then r rest)).
Proof. destruct r as [s [e|]]; cbn [and_then fst]; auto. Qed.

Lemma for_each_preserves {A : Type} (P : t -> Prop) (body : t -> A -> run) :
  (forall s x, P s -> P (fst (body s x))) ->
  forall items self, P self -> P (fst (for_each body items self)).
Proof.
intros Hbody items. induction items as [|x items IH]; intros self Hself; [exact Hself|].
rewrite for_each_cons. apply and_then_preserves; auto.
Qed.

Lemma and_then_alike (R : t -> t -> Prop) (r1 r2 : run) (rest : t -> run) :
  alike R r1 r2 -> (forall a b, R a b -> alike R (rest a) (rest b)) ->
  alike R (and_then r1 rest) (and_then r2 rest).
Proof.
destruct r1 as [a [e1|]], r2 as [b [e2|]]; intros [HR He] Hrest; cbn [fst snd] in *;
  try discriminate He; cbn [and_then]; [now split | now apply Hrest].
Qed.

Lemma for_each_alike {A : Type} (R : t -> t -> Prop) (body : t -> A -> run) :
  (forall a b x, R a b -> alike R (body a x) (body b x)) ->
  forall items a b, R a b -> alike R (for_each body items a) (for_each body items b).
Proof.
intros Hbody items. induction items as [|x items IH]; intros a b Hab; [now split|].
rewrite !for_each_cons. apply and_then_alike; auto.
Qed.

End RunFacts.

Lemma named_some n build e :
  HOI4GUIParser.named n build = Some e -> exists n', n' <> [] /\ e = build n'.
Proof.
unfold HOI4GUIParser.named. destruct n as [[|c n]|]; try discriminate.
intros [= <-]. eexists. split; [|reflexivity]. discriminate.
Qed.

(** What a block yields when its parser returns an element. *)
Ltac returned_element H :=
  repeat match type of H with
         | bind ?o _ = Returned _ =>
           let E := fresh "E" in
           destruct o eqn:E; cbn [bind] in H; [|discriminate H]
         end;
  injection H as H; apply named_some in H as (? & ? & ->).

(* ===================================================================== *)
(** ** The element parser as a state machine *)
(* ===================================================================== *)


Section ParserFacts.
Import HOI4GUIParser.

Lemma key_of_identity e : _get_element_key e = key_of (identity e).
Proof. reflexivity. Qed.











(** *** The duplicate guard *)

Lemma guard_inv_window_size sz self : guard_inv self -> guard_inv (with_window_size sz self).
Proof. exact (fun H => H). Qed.











(** The merger leaves an element's identity alone. *)
Lemma identity_apply_to_widget defs : forall e,
  identity (apply_to_widget defs e) = identity e.
Proof.
induction defs as [|d defs IH]; intros e; simpl; [reflexivity|].
destruct (match sg_triggers d with Some (kv :: d0) => _ | _ => None end); [reflexivity|].
destruct (match sg_effects d with Some (kv :: d0) => _ | _ => None end); [reflexivity|].
apply IH.
Qed.

Lemma identity_apply_to_container data e :
  identity (apply_to_container data e) = identity e.
Proof.
unfold apply_to_container.
destruct (find _ (values data)); destruct (get data (name e)) as [d|];
  try reflexivity; unfold merge_properties;
  destruct (sg_properties d) as [[|? ?]|]; reflexivity.
Qed.

Lemma identity_apply_to_element data e :
  identity (apply_to_element data e) = identity e.
Proof.
unfold apply_to_element. destruct (text_eqb _ _); [apply identity_apply_to_container|].
destruct (mem _ _); [apply identity_apply_to_widget | reflexivity].
Qed.

Lemma guarded_apply_to_element data e :
  guarded_type (apply_to_element data e) = guarded_type e.
Proof.
unfold guarded_type.
replace (element_type (apply_to_element data e)) with (element_type e); [reflexivity|].
pose proof (identity_apply_to_element data e) as H. unfold identity in H. congruence.
Qed.




End ParserFacts.


Section CanvasFacts.
Import HOI4GUIParser.

















(** *** The canvas size is the start value or the size of the head *)







End CanvasFacts.
Section FirstElementFacts.
Import HOI4GUIParser.










End FirstElementFacts.

Section CanvasOfParseFile.
Import HOI4GUIParser.








End CanvasOfParseFile.

(** A load that raises in the middle of the parse.  The container of 5 by 6
    is read and sets the canvas; then [int] refuses the [x] of the window.
    The load returns nothing, and the parser keeps the container in its
    list and the canvas of 5 by 6. *)
Lemma raised_load_keeps_what_was_written :
  fst (HOI4GUIParser.parse_file Samples.overlong_position (str "o.gui") HOI4GUIParser.init)
  = [] /\
  map identity
    (HOI4GUIParser.elements
       (snd (HOI4GUIParser.parse_file Samples.overlong_position (str "o.gui")
               HOI4GUIParser.init)))
  = [(str "containerWindowType", str "main", 0%Z, 0%Z)] /\
  HOI4GUIParser.window_size
    (snd (HOI4GUIParser.parse_file Samples.overlong_position (str "o.gui")
            HOI4GUIParser.init))
  = mkSize 5 6.
Proof.
split; [|split]; vm_compute; reflexivity.
Qed.



(* ===================================================================== *)
(** ** The matcher *)
(* ===================================================================== *)

Lemma reach_refl (c : cursor) : reach 0 c c.
Proof. exists []. simpl. rewrite Nat.add_0_r. auto. Qed.

Lemma reach_trans (n m : nat) (a b c : cursor) :
  reach n a b -> reach m b c -> reach (n + m) a c.
Proof.
intros (s1 & H1 & P1 & L1) (s2 & H2 & P2 & L2). exists (s1 ++ s2).
rewrite <- app_assoc, <- H2, length_app. repeat split; [assumption | lia | lia].
Qed.

Lemma reach_weaken (n m : nat) (a b : cursor) : m <= n -> reach n a b -> reach m a b.
Proof. intros Hle (s & H & P & L). exists s. repeat split; [assumption | assumption | lia]. Qed.

Lemma reach_advance (c : cursor) (x : ascii) (rest : text) :
  c_rest c = x :: rest -> reach 1 c (advance c x rest).
Proof. intros H. exists [x]. simpl. rewrite H. repeat split; lia. Qed.

Lemma reach_pos (n : nat) (a b : cursor) : reach n a b -> c_pos a + n <= c_pos b.
Proof. intros (s & _ & P & L). lia. Qed.

Lemma reach_length (n : nat) (a b : cursor) :
  reach n a b -> c_pos b + length (c_rest b) = c_pos a + length (c_rest a).
Proof. intros (s & H & P & _). rewrite H, length_app. lia. Qed.

Lemma read_text_reach (fl : flags) (t : text) : forall c c',
  read_text fl t c = Some c' -> reach 0 c c'.
Proof.
induction t as [|a t IH]; intros c c'; simpl.
- intros [= <-]. apply reach_refl.
- destruct (c_rest c) as [|x rest] eqn:Hrest; [discriminate|].
  destruct (chr_matches fl a x); [|discriminate].
  intros H. apply IH in H.
  apply (reach_weaken 1 0); [lia|].
  apply (reach_trans 1 0 c (advance c x rest) c'); [now apply reach_advance | assumption].
Qed.

Section MatcherFacts.
Variable R : Type.
Variable fl : flags.

(** A star goes on with its continuation at a cursor further on, if its body does. *)
Lemma star_loop_reach
  (body : cursor -> captures -> (cursor -> captures -> option R) -> option R)
  (greedy : bool) (k : cursor -> captures -> option R) :
  (forall c g k' x, body c g k' = Some x ->
     exists c' g', k' c' g' = Some x /\ reach 0 c c') ->
  forall n c g x,
    star_loop R body greedy k n c g = Some x ->
    exists c' g', k c' g' = Some x /\ reach 0 c c'.
Proof.
intros Hbody n. induction n as [|n IH]; intros c g x; simpl.
- intros H. exists c, g. split; [assumption | apply reach_refl].
- assert (Hagain :
    body c g (fun c' g' =>
      if c_pos c <? c_pos c' then star_loop R body greedy k n c' g' else None) = Some x ->
    exists c' g', k c' g' = Some x /\ reach 0 c c').
  { intros H. apply Hbody in H as (c1 & g1 & H & Hr1).
    destruct (c_pos c <? c_pos c1); [|discriminate].
    apply IH in H as (c2 & g2 & H & Hr2). exists c2, g2. split; [assumption|].
    apply (reach_trans 0 0 c c1 c2); assumption. }
  destruct greedy.
  + destruct (body c g _) as [res|] eqn:E.
    * intros [= ->]. now apply Hagain.
    * intros H. exists c, g. split; [assumption | apply reach_refl].
  + destruct (k c g) as [res|] eqn:E.
    * intros [= ->]. exists c, g. split; [assumption | apply reach_refl].
    * exact Hagain.
Qed.

(** The matcher only moves forward: when it succeeds, its continuation
    succeeded at a cursor at least [min_len r] characters further on. *)
Lemma exec_reach (r : regex) : forall c g k x,
  exec R fl r c g k = Some x ->
  exists c' g', k c' g' = Some x /\ reach (min_len r) c c'.
Proof.
induction r as [ | a | negated ms | | | r1 IH1 r2 IH2 | r1 IH1 r2 IH2 | greedy r1 IH1
               | n r1 IH1 | n ]; intros c g k x; simpl.
- intros H. exists c, g. split; [assumption | apply reach_refl].
- destruct (c_rest c) as [|y rest] eqn:Hrest; [discriminate|].
  destruct (chr_matches fl a y); [|discriminate].
  intros H. exists (advance c y rest), g. split; [assumption | now apply reach_advance].
- destruct (c_rest c) as [|y rest] eqn:Hrest; [discriminate|].
  destruct (cls_matches fl negated ms y); [|discriminate].
  intros H. exists (advance c y rest), g. split; [assumption | now apply reach_advance].
- destruct (c_rest c) as [|y rest] eqn:Hrest; [discriminate|].
  destruct (dot_matches fl y); [|discriminate].
  intros H. exists (advance c y rest), g. split; [assumption | now apply reach_advance].
- destruct (at_bol fl c); [|discriminate].
  intros H. exists c, g. split; [assumption | apply reach_refl].
- intros H. apply IH1 in H as (c1 & g1 & H & Hr1).
  apply IH2 in H as (c2 & g2 & H & Hr2).
  exists c2, g2. split; [assumption | eapply reach_trans; eassumption].
- destruct (exec R fl r1 c g k) as [res|] eqn:E.
  + intros [= ->]. apply IH1 in E as (c1 & g1 & H & Hr1).
    exists c1, g1. split; [assumption | eapply reach_weaken; [|eassumption]; lia].
  + intros H. apply IH2 in H as (c2 & g2 & H & Hr2).
    exists c2, g2. split; [assumption | eapply reach_weaken; [|eassumption]; lia].
- apply star_loop_reach. intros c0 g0 k' x0 H.
  apply IH1 in H as (c1 & g1 & H & Hr1). exists c1, g1.
  split; [assumption | eapply reach_weaken; [|eassumption]; lia].
- intros H. apply IH1 in H as (c1 & g1 & H & Hr1). eauto.
- destruct (capture g n) as [t|]; [|discriminate].
  destruct (read_text fl t c) as [c'|] eqn:E; [|discriminate].
  intros H. exists c', g. split; [assumption | eapply read_text_reach; eassumption].
Qed.

End MatcherFacts.

(** A match starts at the cursor and ends at least [min_len r] and at most
    [length rest] characters further on. *)
Lemma match_at_bounds (fl : flags) (r : regex) (ma : bool) (c : cursor) (m : Match) :
  match_at fl r ma c = Some m ->
  m_start m = c_pos c /\
  c_pos c + min_len r <= m_end m /\
  m_end m <= c_pos c + length (c_rest c).
Proof.
unfold match_at. intros H. apply exec_reach in H as (c' & g' & H & Hr).
destruct (ma && (c_pos c' =? c_pos c)); [discriminate|]. injection H as <-.
simpl. pose proof (reach_pos _ _ _ Hr). pose proof (reach_length _ _ _ Hr). lia.
Qed.

Lemma search_rest_bounds (fl : flags) (r : regex) (rest : text) : forall ma pos prev m,
  search_rest fl r ma pos prev rest = Some m ->
  pos <= m_start m /\
  m_start m + min_len r <= m_end m /\
  m_end m <= pos + length rest.
Proof.
induction rest as [|x rest IH]; intros ma pos prev m; simpl.
- destruct (match_at fl r ma (mkCursor pos prev [])) as [m'|] eqn:E; [|discriminate].
  intros [= ->]. apply match_at_bounds in E. simpl in E. lia.
- destruct (match_at fl r ma (mkCursor pos prev (x :: rest))) as [m'|] eqn:E.
  + intros [= ->]. apply match_at_bounds in E. simpl in E. lia.
  + intros H. apply IH in H. lia.
Qed.

Lemma search_bounds (fl : flags) (r : regex) (s : text) (m : Match) :
  search fl r s = Some m ->
  m_start m + min_len r <= m_end m /\ m_end m <= length s.
Proof.
unfold search, search_from. intros H. apply search_rest_bounds in H. simpl in H. lia.
Qed.

(** *** Reading a known text *)

Lemma feed_app (s t : text) : forall c, feed c (s ++ t) = feed (feed c s) t.
Proof. induction s as [|x s IH]; intros c; simpl; [reflexivity | apply IH]. Qed.

Lemma feed_spec (s : text) : forall c rest,
  c_rest c = s ++ rest ->
  c_rest (feed c s) = rest /\ c_pos (feed c s) = c_pos c + length s.
Proof.
induction s as [|x s IH]; intros c rest H; simpl.
- split; [assumption | lia].
- destruct (IH (advance c x (tl (c_rest c))) rest) as [Hr Hp].
  + simpl. now rewrite H.
  + split; [assumption|]. rewrite Hp. simpl. lia.
Qed.

Lemma chr_matches_refl (fl : flags) (a : ascii) : chr_matches fl a a = true.
Proof. unfold chr_matches. now rewrite Ascii.eqb_refl. Qed.

Section Reading.
Variable R : Type.
Variable fl : flags.

Lemma exec_Chr (a : ascii) (c : cursor) (g : captures) (k : cursor -> captures -> option R)
  (rest : text) :
  c_rest c = a :: rest ->
  exec R fl (Chr a) c g k = k (feed c [a]) g.
Proof. intros H. simpl. now rewrite H, chr_matches_refl. Qed.

Lemma exec_Seq (r1 r2 : regex) (c : cursor) (g : captures)
  (k : cursor -> captures -> option R) :
  exec R fl (Seq r1 r2) c g k = exec R fl r1 c g (fun c' g' => exec R fl r2 c' g' k).
Proof. reflexivity. Qed.

Lemma exec_Group (n : nat) (r1 : regex) (c : cursor) (g : captures)
  (k : cursor -> captures -> option R) :
  exec R fl (Group n r1) c g k
  = exec R fl r1 c g (fun c' g' =>
      k c' ((n, firstn (c_pos c' - c_pos c) (c_rest c)) :: g')).
Proof. reflexivity. Qed.

Lemma exec_Opt (r1 : regex) (c : cursor) (g : captures)
  (k : cursor -> captures -> option R) :
  exec R fl (Opt r1) c g k
  = match exec R fl r1 c g k with
    | Some res => Some res
    | None => k c g
    end.
Proof. reflexivity. Qed.

(** A literal reads itself. *)
Lemma exec_Lit (s : text) : forall c g (k : cursor -> captures -> option R) rest,
  c_rest c = s ++ rest ->
  exec R fl (Lit s) c g k = k (feed c s) g.
Proof.
induction s as [|a s IH]; intros c g k rest H; [reflexivity|].
destruct s as [|b s].
- now apply (exec_Chr a c g k rest).
- change (Lit (a :: b :: s)) with (Seq (Chr a) (Lit (b :: s))).
  cbn [exec]. simpl in H. rewrite H, chr_matches_refl.
  rewrite (IH _ g k rest) by reflexivity.
  simpl. now rewrite H.
Qed.

(** A greedy star over a character set reads a whole run of the set, when
    the run ends the text or stops at a character outside the set and the
    rest of the pattern succeeds there. *)
Lemma star_run (p : ascii -> bool)
  (body : cursor -> captures -> (cursor -> captures -> option R) -> option R)
  (k : cursor -> captures -> option R) (g : captures) (x : R) (s : text) :
  (forall c0 g0 k0,
     body c0 g0 k0 = match c_rest c0 with
                     | [] => None
                     | y :: rest0 => if p y then k0 (advance c0 y rest0) g0 else None
                     end) ->
  forall n c rest,
    c_rest c = s ++ rest ->
    forallb p s = true ->
    match rest with
    | [] => True
    | y :: _ => p y = false
    end ->
    length s <= n ->
    k (feed c s) g = Some x ->
    star_loop R body true k n c g = Some x.
Proof.
intros Hbody. induction s as [|a s IH]; intros n c rest Hrest Hall Hstop Hn Hk.
- simpl in Hk, Hrest. destruct n as [|n]; simpl; [assumption|].
  rewrite Hbody, Hrest. destruct rest as [|y rest']; [assumption|]. now rewrite Hstop.
- destruct n as [|n]; [simpl in Hn; lia|].
  simpl in Hall. apply andb_true_iff in Hall as [Ha Hall].
  cbn [star_loop]. simpl in Hrest. rewrite Hbody, Hrest, Ha.
  replace (c_pos c <? c_pos (advance c a (s ++ rest))) with true
    by (symmetry; apply Nat.ltb_lt; simpl; lia).
  rewrite (IH n (advance c a (s ++ rest)) rest); [reflexivity | reflexivity | assumption
    | assumption | simpl in Hn; lia | ].
  simpl in Hk. now rewrite Hrest in Hk.
Qed.

Lemma exec_star_run (negated : bool) (ms : list cset) (k : cursor -> captures -> option R)
  (g : captures) (x : R) (s : text) (c : cursor) (rest : text) :
  c_rest c = s ++ rest ->
  forallb (cls_matches fl negated ms) s = true ->
  match rest with
  | [] => True
  | y :: _ => cls_matches fl negated ms y = false
  end ->
  k (feed c s) g = Some x ->
  exec R fl (Star true (Cls negated ms)) c g k = Some x.
Proof.
intros Hrest Hall Hstop Hk. cbn [exec].
apply (star_run (cls_matches fl negated ms) _ k g x s (fun _ _ _ => eq_refl) _ c rest); auto.
rewrite Hrest, length_app. lia.
Qed.

Lemma exec_plus_run (negated : bool) (ms : list cset) (k : cursor -> captures -> option R)
  (g : captures) (x : R) (a : ascii) (s : text) (c : cursor) (rest : text) :
  c_rest c = (a :: s) ++ rest ->
  forallb (cls_matches fl negated ms) (a :: s) = true ->
  match rest with
  | [] => True
  | y :: _ => cls_matches fl negated ms y = false
  end ->
  k (feed c (a :: s)) g = Some x ->
  exec R fl (Plus (Cls negated ms)) c g k = Some x.
Proof.
intros Hrest Hall Hstop Hk. unfold Plus. cbn [exec].
simpl in Hrest, Hall. apply andb_true_iff in Hall as [Ha Hall].
rewrite Hrest, Ha.
apply (star_run (cls_matches fl negated ms) _ k g x s (fun _ _ _ => eq_refl) _
         (advance c a (s ++ rest)) rest); auto.
- simpl. rewrite length_app. lia.
- simpl in Hk. now rewrite Hrest in Hk.
Qed.

End Reading.

(** White space is in the set of [\s] under any flags, and the equals sign
    and the braces are not. *)
Lemma spaces_in_set (fl : flags) (s : text) :
  forallb is_space s = true -> forallb (cls_matches fl false [CSpace]) s = true.
Proof.
intros H. apply forallb_forall. intros y Hy.
rewrite forallb_forall in H. unfold cls_matches, members_have. simpl.
now rewrite (H y Hy).
Qed.

(** *** The leftmost match *)

Lemma search_rest_unfold (fl : flags) (r : regex) (ma : bool) (pos : nat)
  (prev : option ascii) (rest : text) :
  search_rest fl r ma pos prev rest
  = match match_at fl r ma (mkCursor pos prev rest) with
    | Some m => Some m
    | None =>
      match rest with
      | [] => None
      | y :: rest' => search_rest fl r false (S pos) (Some y) rest'
      end
    end.
Proof. destruct rest; reflexivity. Qed.

Lemma skipn_nth_error {A : Type} (l : list A) (i : nat) (y : A) :
  nth_error l i = Some y -> skipn i l = y :: skipn (S i) l.
Proof.
revert l. induction i as [|i IH]; intros [|a l] H; simpl in *; try discriminate.
- now injection H as ->.
- now apply IH.
Qed.

Lemma search_from_first (fl : flags) (r : regex) (s : text) (m : Match) (n : nat) :
  forall d i,
    i + d = n -> n <= length s ->
    (forall j, i <= j < n -> match_at fl r false (cursor_at s j) = None) ->
    match_at fl r false (cursor_at s n) = Some m ->
    search_from fl r false (cursor_at s i) = Some m.
Proof.
induction d as [|d IH]; intros i Hi Hn Hnone Hm; unfold search_from; rewrite search_rest_unfold.
- replace i with n in * by lia.
  change (mkCursor (c_pos (cursor_at s n)) (c_prev (cursor_at s n)) (c_rest (cursor_at s n)))
    with (cursor_at s n). now rewrite Hm.
- change (mkCursor (c_pos (cursor_at s i)) (c_prev (cursor_at s i)) (c_rest (cursor_at s i)))
    with (cursor_at s i). rewrite Hnone by lia.
  destruct (nth_error s i) as [y|] eqn:Hy.
  2:{ apply nth_error_None in Hy. lia. }
  cbn [c_rest cursor_at]. rewrite (skipn_nth_error s i y Hy).
  specialize (IH (S i)). unfold search_from in IH.
  cbn [c_pos c_prev c_rest cursor_at] in IH. rewrite Hy in IH.
  apply IH; [lia | assumption | | assumption].
  intros j Hj. apply Hnone. lia.
Qed.

(** The search returns the match at offset [n] when the pattern matches
    there and at no offset before. *)
Lemma search_first (fl : flags) (r : regex) (s : text) (m : Match) (n : nat) :
  n <= length s ->
  (forall j, j < n -> match_at fl r false (cursor_at s j) = None) ->
  match_at fl r false (cursor_at s n) = Some m ->
  search fl r s = Some m.
Proof.
intros Hn Hnone Hm. unfold search.
change (start_of s) with (cursor_at s 0).
apply (search_from_first fl r s m n n 0); auto.
intros j Hj. apply Hnone. lia.
Qed.

(* ===================================================================== *)
(** ** The Block Extractor *)
(* ===================================================================== *)

Lemma match_braces_done (rest : text) (pos : nat) :
  match_braces rest pos 0 = (pos, 0%Z).
Proof. destruct rest; reflexivity. Qed.

Lemma open_throughout_depth (s : text) : forall d,
  (0 < d)%Z -> open_throughout d s = true -> (0 < brace_depth d s)%Z.
Proof.
induction s as [|c s IH]; intros d Hd H; simpl in *; [assumption|].
apply andb_true_iff in H as [H1 H2]. apply IH; [now apply Z.ltb_lt | assumption].
Qed.

(** While the depth stays above zero the loop runs on. *)
Lemma match_braces_run (s : text) : forall rest pos d,
  (0 < d)%Z -> open_throughout d s = true ->
  match_braces (s ++ rest) pos d = match_braces rest (pos + length s) (brace_depth d s).
Proof.
induction s as [|c s IH]; intros rest pos d Hd H; simpl.
- now rewrite Nat.add_0_r.
- simpl in H. apply andb_true_iff in H as [H1 H2].
  replace (0 <? d)%Z with true by (symmetry; now apply Z.ltb_lt).
  fold (brace_step d c). rewrite IH; [|now apply Z.ltb_lt | assumption].
  f_equal. lia.
Qed.

Lemma match_braces_balanced (body post : text) (pos : nat) :
  balanced body = true ->
  match_braces (body ++ Pat.close_brace :: post) pos 1 = (pos + length body + 1, 0%Z).
Proof.
unfold balanced. intros H. apply andb_true_iff in H as [Hopen Hdepth].
apply Z.eqb_eq in Hdepth.
rewrite match_braces_run by (auto; lia). rewrite Hdepth. simpl.
rewrite match_braces_done. f_equal. lia.
Qed.

Lemma match_braces_unclosed (rest : text) (pos : nat) :
  open_throughout 1 rest = true ->
  exists d, (0 < d)%Z /\ match_braces rest pos 1 = (pos + length rest, d).
Proof.
intros H. exists (brace_depth 1 rest). split; [apply open_throughout_depth; [lia | assumption]|].
rewrite <- (app_nil_r rest) at 1. rewrite match_braces_run by (auto; lia). reflexivity.
Qed.

Lemma match_braces_ge (rest : text) : forall pos d, pos <= fst (match_braces rest pos d).
Proof.
induction rest as [|c rest IH]; intros pos d; simpl; [lia|].
destruct (0 <? d)%Z; simpl; [|lia].
etransitivity; [|apply IH]. lia.
Qed.

Lemma match_braces_shift (rest : text) : forall p pos d,
  match_braces rest (p + pos) d
  = (p + fst (match_braces rest pos d), snd (match_braces rest pos d)).
Proof.
induction rest as [|c rest IH]; intros p pos d; simpl; [reflexivity|].
destruct (0 <? d)%Z; simpl; [|reflexivity].
replace (S (p + pos)) with (p + S pos) by lia. apply IH.
Qed.

Section BlockLoop.
Variable fl : flags.
Variable pattern : regex.
Hypothesis pattern_reads : 1 <= min_len pattern.

Lemma search_nil : search fl pattern [] = None.
Proof.
destruct (search fl pattern []) as [m|] eqn:E; [|reflexivity].
apply search_bounds in E. simpl in E. lia.
Qed.

Lemma block_loop_acc (fuel : nat) : forall content p acc,
  block_loop fuel fl pattern collect content p acc
  = acc ++ block_loop fuel fl pattern collect content p [].
Proof.
induction fuel as [|fuel IH]; intros content p acc; simpl; [now rewrite app_nil_r|].
destruct (search fl pattern (skipn p content)) as [m|]; [|now rewrite app_nil_r].
destruct (match_braces _ _ 1) as [pos bc].
destruct (bc =? 0)%Z.
- rewrite IH. rewrite (IH _ _ (collect [] _ _)). unfold collect. simpl.
  now rewrite <- app_assoc.
- apply IH.
Qed.

(** The loop from offset [p] is the loop over the text from [p] on. *)
Lemma block_loop_shift (fuel : nat) : forall content p,
  block_loop fuel fl pattern collect content p []
  = block_loop fuel fl pattern collect (skipn p content) 0 [].
Proof.
induction fuel as [|fuel IH]; intros content p; simpl; [reflexivity|].
destruct (search fl pattern (skipn p content)) as [m|] eqn:E; [|reflexivity].
pose proof (search_bounds _ _ _ _ E) as [Hmin Hmax].
replace (p + m_end m - 1 + 1) with (p + m_end m) by lia.
replace (m_end m - 1 + 1) with (m_end m) by lia.
rewrite skipn_skipn. replace (m_end m + p) with (p + m_end m) by lia.
replace (p + m_end m) with (p + m_end m) at 2 by reflexivity.
rewrite (match_braces_shift _ p (m_end m) 1).
destruct (match_braces (skipn (p + m_end m) content) (m_end m) 1) as [pos bc] eqn:Hmb.
cbn [fst snd].
assert (Hge : m_end m <= pos).
{ pose proof (match_braces_ge (skipn (p + m_end m) content) (m_end m) 1) as H.
  now rewrite Hmb in H. }
assert (Hslice : slice content (p + m_end m) (p + pos - 1)
                 = slice (skipn p content) (m_end m) (pos - 1)).
{ unfold slice. rewrite skipn_skipn.
  replace (m_end m + p) with (p + m_end m) by lia. f_equal. lia. }
rewrite Hslice.
destruct (bc =? 0)%Z.
- rewrite block_loop_acc, (block_loop_acc _ (skipn p content)).
  f_equal. rewrite IH, (IH (skipn p content)). rewrite skipn_skipn.
  now replace (pos + p) with (p + pos) by lia.
- rewrite IH, (IH (skipn p content)). rewrite skipn_skipn.
  now replace (pos + p) with (p + pos) by lia.
Qed.

(** More turns than characters left change nothing. *)
Lemma block_loop_fuel (fuel1 : nat) : forall fuel2 content p,
  length content + 1 - p <= fuel1 ->
  length content + 1 - p <= fuel2 ->
  block_loop fuel1 fl pattern collect content p []
  = block_loop fuel2 fl pattern collect content p [].
Proof.
induction fuel1 as [|fuel1 IH]; intros fuel2 content p H1 H2.
- assert (Hp : length content < p) by lia.
  destruct fuel2 as [|fuel2]; [reflexivity|]. simpl.
  rewrite skipn_all2 by lia. now rewrite search_nil.
- destruct fuel2 as [|fuel2].
  + assert (Hp : length content < p) by lia. simpl.
    rewrite skipn_all2 by lia. now rewrite search_nil.
  + simpl. destruct (search fl pattern (skipn p content)) as [m|] eqn:E; [|reflexivity].
    pose proof (search_bounds _ _ _ _ E) as [Hmin Hmax].
    destruct (match_braces _ _ 1) as [pos bc] eqn:Hmb.
    assert (Hge : p + m_end m - 1 + 1 <= pos).
    { pose proof (match_braces_ge (skipn (p + m_end m - 1 + 1) content)
                    (p + m_end m - 1 + 1) 1) as H.
      now rewrite Hmb in H. }
    destruct (bc =? 0)%Z.
    * rewrite block_loop_acc, (block_loop_acc fuel2). f_equal. apply IH; lia.
    * apply IH; lia.
Qed.

(** One turn on a closed block: its inner text, then the blocks of the
    text after its closing brace. *)
Lemma block_loop_closed (content body post : text) (m : Match) :
  search fl pattern content = Some m ->
  skipn (m_end m) content = body ++ Pat.close_brace :: post ->
  balanced body = true ->
  block_loop (S (length content)) fl pattern collect content 0 []
  = body :: block_loop (S (length post)) fl pattern collect post 0 [].
Proof.
intros Hsearch Hskip Hbal.
remember (block_loop (S (length post)) fl pattern collect post 0 []) as later eqn:Hlater.
pose proof (search_bounds _ _ _ _ Hsearch) as [Hmin Hmax].
assert (Hlen : length content = m_end m + (length body + 1 + length post)).
{ rewrite <- (firstn_skipn (m_end m) content) at 1.
  rewrite length_app, length_firstn, Hskip, length_app. simpl. lia. }
cbn [block_loop]. simpl skipn at 1. rewrite Hsearch.
replace (0 + m_end m - 1 + 1) with (m_end m) by lia.
rewrite Hskip, match_braces_balanced by assumption.
simpl Z.eqb. cbv iota.
rewrite block_loop_acc. unfold collect at 2. simpl app at 1.
assert (Hbody : slice content (m_end m) (m_end m + length body + 1 - 1) = body).
{ unfold slice. rewrite Hskip.
  replace (m_end m + length body + 1 - 1 - m_end m) with (length body) by lia.
  rewrite firstn_app, firstn_all, Nat.sub_diag. simpl. apply app_nil_r. }
rewrite Hbody. simpl. f_equal.
rewrite block_loop_shift.
assert (Hpost : skipn (m_end m + length body + 1) content = post).
{ replace (m_end m + length body + 1) with ((length body + 1) + m_end m) by lia.
  rewrite <- skipn_skipn, Hskip.
  replace (length body + 1) with (length (body ++ [Pat.close_brace]))
    by (rewrite length_app; simpl; lia).
  change (body ++ Pat.close_brace :: post) with (body ++ [Pat.close_brace] ++ post).
  rewrite app_assoc. rewrite skipn_app, skipn_all, Nat.sub_diag. reflexivity. }
rewrite Hpost, Hlater. apply block_loop_fuel; lia.
Qed.

(** One turn on a block that is never closed: nothing, and the scan is over. *)
Lemma block_loop_unclosed (content rest : text) (m : Match) :
  search fl pattern content = Some m ->
  skipn (m_end m) content = rest ->
  open_throughout 1 rest = true ->
  block_loop (S (length content)) fl pattern collect content 0 [] = [].
Proof.
intros Hsearch Hskip Hopen.
pose proof (search_bounds _ _ _ _ Hsearch) as [Hmin Hmax].
cbn [block_loop]. simpl skipn at 1. rewrite Hsearch.
replace (0 + m_end m - 1 + 1) with (m_end m) by lia.
rewrite Hskip.
destruct (match_braces_unclosed rest (m_end m) Hopen) as (d & Hd & ->).
replace (d =? 0)%Z with false by (symmetry; apply Z.eqb_neq; lia).
assert (Hlen : length content = m_end m + length rest).
{ rewrite <- (firstn_skipn (m_end m) content) at 1.
  rewrite length_app, length_firstn, Hskip. lia. }
destruct (length content) as [|n] eqn:E; [reflexivity|].
cbn [block_loop]. rewrite skipn_all2 by lia. now rewrite search_nil.
Qed.

End BlockLoop.

Lemma equals_not_space (fl : flags) : cls_matches fl false [CSpace] "="%char = false.
Proof. destruct fl as [[|] ? ?]; reflexivity. Qed.

Lemma brace_not_space (fl : flags) : cls_matches fl false [CSpace] Pat.open_brace = false.
Proof. destruct fl as [[|] ? ?]; reflexivity. Qed.

Lemma opening_app (tag ws1 ws2 rest : text) :
  opening tag ws1 ws2 ++ rest = tag ++ ws1 ++ "="%char :: ws2 ++ Pat.open_brace :: rest.
Proof.
unfold opening. rewrite <- !app_assoc. simpl. rewrite <- app_assoc. reflexivity.
Qed.

Lemma opening_length (tag ws1 ws2 : text) :
  length (opening tag ws1 ws2) = length tag + length ws1 + 1 + length ws2 + 1.
Proof. unfold opening. rewrite !length_app. simpl. rewrite length_app. simpl. lia. Qed.

(** The opening pattern reads an opening, and ends at its brace. *)
Lemma match_block_open (fl : flags) (tag ws1 ws2 rest : text) (c : cursor) :
  c_rest c = opening tag ws1 ws2 ++ rest ->
  forallb is_space ws1 = true ->
  forallb is_space ws2 = true ->
  exists m,
    match_at fl (Pat.block_open tag) false c = Some m /\
    m_end m = c_pos c + length (opening tag ws1 ws2).
Proof.
intros Hrest Hws1 Hws2. rewrite opening_app in Hrest.
set (c1 := feed c tag).
destruct (feed_spec tag c _ Hrest) as [Hr1 Hp1]. fold c1 in Hr1, Hp1.
set (c2 := feed c1 ws1).
destruct (feed_spec ws1 c1 _ Hr1) as [Hr2 Hp2]. fold c2 in Hr2, Hp2.
set (c3 := feed c2 ["="%char]).
destruct (feed_spec ["="%char] c2 (ws2 ++ Pat.open_brace :: rest) Hr2) as [Hr3 Hp3].
fold c3 in Hr3, Hp3.
set (c4 := feed c3 ws2).
destruct (feed_spec ws2 c3 _ Hr3) as [Hr4 Hp4]. fold c4 in Hr4, Hp4.
set (c5 := feed c4 [Pat.open_brace]).
destruct (feed_spec [Pat.open_brace] c4 rest Hr4) as [Hr5 Hp5]. fold c5 in Hr5, Hp5.
exists (mkMatch (c_pos c) (c_pos c5) [] c5). split.
- unfold match_at, Pat.block_open, Pat.eq_sign, Pat.ws, Sp. cbn [Cat].
  rewrite exec_Seq, (exec_Lit _ fl tag c [] _ _ Hrest). fold c1.
  rewrite !exec_Seq.
  apply (exec_star_run _ fl false [CSpace] _ [] _ ws1 c1 _ Hr1);
    [now apply spaces_in_set | apply equals_not_space |]. fold c2.
  rewrite exec_Seq, (exec_Chr _ fl "="%char c2 [] _ _ Hr2). fold c3.
  apply (exec_star_run _ fl false [CSpace] _ [] _ ws2 c3 _ Hr3);
    [now apply spaces_in_set | apply brace_not_space |]. fold c4.
  rewrite (exec_Chr _ fl Pat.open_brace c4 [] _ _ Hr4). fold c5.
  reflexivity.
- cbn [m_end]. rewrite Hp5, Hp4, Hp3, Hp2, Hp1, opening_length. simpl. lia.
Qed.

Lemma skipn_app_length {A : Type} (l1 l2 : list A) : skipn (length l1) (l1 ++ l2) = l2.
Proof. induction l1; simpl; auto. Qed.

(** The search finds an opening that no opening precedes. *)
Lemma search_opening (tag pre ws1 ws2 rest : text) :
  forallb is_space ws1 = true ->
  forallb is_space ws2 = true ->
  (forall j, j < length pre ->
     opens_at tag (pre ++ opening tag ws1 ws2 ++ rest) j = false) ->
  exists m,
    search no_flags (Pat.block_open tag) (pre ++ opening tag ws1 ws2 ++ rest) = Some m /\
    skipn (m_end m) (pre ++ opening tag ws1 ws2 ++ rest) = rest.
Proof.
intros Hws1 Hws2 Hnone.
set (content := pre ++ opening tag ws1 ws2 ++ rest) in *.
assert (Hrest : c_rest (cursor_at content (length pre)) = opening tag ws1 ws2 ++ rest).
{ unfold content. cbn [c_rest cursor_at]. apply skipn_app_length. }
destruct (match_block_open no_flags tag ws1 ws2 rest _ Hrest Hws1 Hws2) as (m & Hm & Hend).
exists m. split.
- apply (search_first no_flags _ content m (length pre)).
  + unfold content. rewrite length_app. lia.
  + intros j Hj. specialize (Hnone j Hj). unfold opens_at in Hnone.
    destruct (match_at no_flags (Pat.block_open tag) false (cursor_at content j));
      [discriminate | reflexivity].
  + exact Hm.
- rewrite Hend. cbn [c_pos cursor_at]. unfold content.
  rewrite app_assoc, <- length_app. apply skipn_app_length.
Qed.

Lemma block_open_reads (tag : text) : 1 <= min_len (Pat.block_open tag).
Proof. unfold Pat.block_open, Pat.eq_sign. cbn [Cat min_len]. simpl. lia. Qed.

(** C4 (as stated, refuted).  The text [icon = { icon = { a } }] holds the
    balanced occurrence [icon = { a }], and the extractors return one match,
    the outer block; the inner occurrence has none of its own.  Inside an
    opening that is never closed, a balanced occurrence yields no match
    either. *)
Lemma C4_counterexample :
  HOI4GUIParser._extract_block_content Samples.nested_same_tag (str "icon")
  = [str " icon = { a } "] /\
  ScriptedGUIParser._extract_block_content_simple Samples.nested_same_tag (str "icon")
  = [str " icon = { a } "] /\
  HOI4GUIParser._extract_block_content Samples.nested_in_unclosed (str "icon") = [] /\
  ScriptedGUIParser._extract_block_content_simple Samples.nested_in_unclosed (str "icon") = [].
Proof.
repeat split; vm_compute; reflexivity.
Qed.

(** C4 (amended).  For every text in which the scan reaches an opening
    [tag = {] -- the opening pattern matches at no earlier offset -- both
    extractors behave as follows.  If the text after the opening brace is a
    balanced body followed by a closing brace, they return that body
    verbatim as one match, followed by what they return for the text after
    the closing brace.  If the depth never returns to zero before the end of
    the text, they return nothing: the unclosed content is dropped. *)
Theorem C4_block_extractor :
  forall (tag pre ws1 ws2 : text),
    startswith tag (str "(?i)") = false ->
    forallb is_space ws1 = true ->
    forallb is_space ws2 = true ->
    (forall (body post : text),
       balanced body = true ->
       let content := pre ++ opening tag ws1 ws2 ++ body ++ Pat.close_brace :: post in
       (forall j, j < length pre -> opens_at tag content j = false) ->
       HOI4GUIParser._extract_block_content content tag
       = body :: HOI4GUIParser._extract_block_content post tag /\
       ScriptedGUIParser._extract_block_content_simple content tag
       = body :: ScriptedGUIParser._extract_block_content_simple post tag) /\
    (forall (rest : text),
       open_throughout 1 rest = true ->
       let content := pre ++ opening tag ws1 ws2 ++ rest in
       (forall j, j < length pre -> opens_at tag content j = false) ->
       HOI4GUIParser._extract_block_content content tag = [] /\
       ScriptedGUIParser._extract_block_content_simple content tag = []).
Proof.
intros tag pre ws1 ws2 Hplain Hws1 Hws2.
assert (Hsame : forall content,
          HOI4GUIParser._extract_block_content content tag
          = ScriptedGUIParser._extract_block_content_simple content tag).
{ intros content. unfold HOI4GUIParser._extract_block_content. now rewrite Hplain. }
split.
- intros body post Hbal content Hnone. rewrite !Hsame.
  assert (H : ScriptedGUIParser._extract_block_content_simple content tag
              = body :: ScriptedGUIParser._extract_block_content_simple post tag).
  { destruct (search_opening tag pre ws1 ws2 _ Hws1 Hws2 Hnone) as (m & Hm & Hskip).
    unfold ScriptedGUIParser._extract_block_content_simple.
    apply (block_loop_closed no_flags _ (block_open_reads tag) content body post m);
      assumption. }
  now rewrite H.
- intros rest Hopen content Hnone. rewrite Hsame.
  assert (H : ScriptedGUIParser._extract_block_content_simple content tag = []).
  { destruct (search_opening tag pre ws1 ws2 _ Hws1 Hws2 Hnone) as (m & Hm & Hskip).
    unfold ScriptedGUIParser._extract_block_content_simple.
    apply (block_loop_unclosed no_flags _ (block_open_reads tag) content rest m);
      assumption. }
  now rewrite H.
Qed.

Lemma C4_block_extractor_witness :
  HOI4GUIParser._extract_block_content (str "x tag = { A { B } C } tail") (str "tag")
  = [str " A { B } C "] /\
  ScriptedGUIParser._extract_block_content_simple (str "x tag = { A { B } C } tail") (str "tag")
  = [str " A { B } C "] /\
  HOI4GUIParser._extract_block_content (str "x tag = { A { B") (str "tag") = [] /\
  ScriptedGUIParser._extract_block_content_simple (str "x tag = { A { B") (str "tag") = [].
Proof.
destruct (C4_block_extractor (str "tag") (str "x ") (str " ") (str " ")
            eq_refl eq_refl eq_refl) as [Hclosed Hunclosed].
assert (H1 : forall j, j < length (str "x ") ->
               opens_at (str "tag") (str "x tag = { A { B } C } tail") j = false).
{ intros [|[|j]] H; [reflexivity | reflexivity | simpl in H; lia]. }
assert (H2 : forall j, j < length (str "x ") ->
               opens_at (str "tag") (str "x tag = { A { B") j = false).
{ intros [|[|j]] H; [reflexivity | reflexivity | simpl in H; lia]. }
destruct (Hclosed (str " A { B } C ") (str " tail") eq_refl H1) as [Ha Hb].
destruct (Hunclosed (str " A { B") eq_refl H2) as [Hc Hd].
split; [exact Ha|]. split; [exact Hb|]. split; [exact Hc | exact Hd].
Defined.

(* ===================================================================== *)
(** ** The scalar property extractors *)
(* ===================================================================== *)

Lemma firstn_app_length {A : Type} (l1 l2 : list A) : firstn (length l1) (l1 ++ l2) = l1.
Proof. induction l1; simpl; [now destruct l2 | now f_equal]. Qed.

Lemma exec_Cls (R : Type) (fl : flags) (negated : bool) (ms : list cset) (x : ascii)
  (c : cursor) (g : captures) (k : cursor -> captures -> option R) (rest : text) :
  c_rest c = x :: rest ->
  cls_matches fl negated ms x = true ->
  exec R fl (Cls negated ms) c g k = k (feed c [x]) g.
Proof. intros H Hx. simpl. now rewrite H, Hx. Qed.

Lemma quote_in_set (fl : flags) (q : ascii) :
  is_quote q = true -> cls_matches fl false [CChar dquote; CChar squote] q = true.
Proof.
unfold is_quote, cls_matches, members_have. simpl. intros H.
apply orb_true_iff in H as [-> | ->]; simpl; [reflexivity | now rewrite orb_true_r].
Qed.

Lemma quote_not_space (q : ascii) : is_quote q = true -> is_space q = false.
Proof.
unfold is_quote. intros H. apply orb_true_iff in H as [H | H];
  apply Ascii.eqb_eq in H; subst q; reflexivity.
Qed.

Lemma quote_not_inner (q : ascii) : is_quote q = true -> inner_char q = false.
Proof.
unfold is_quote, inner_char. intros H. apply orb_true_iff in H as [-> | ->]; simpl;
  [reflexivity | now rewrite orb_true_r].
Qed.

Lemma token_char_not_space (c : ascii) : token_char c = true -> is_space c = false.
Proof. unfold token_char. destruct (is_space c); [discriminate | reflexivity]. Qed.

Lemma space_set_plain (fl : flags) (x : ascii) :
  is_space x = false -> IGNORECASE fl = false -> cls_matches fl false [CSpace] x = false.
Proof.
intros Hx Hic. unfold cls_matches, members_have. simpl. now rewrite Hx, Hic.
Qed.

Lemma cls_inner (fl : flags) (x : ascii) :
  IGNORECASE fl = false ->
  cls_matches fl true [CChar dquote; CChar squote; CChar Pat.close_brace] x = inner_char x.
Proof.
intros Hic. unfold cls_matches, members_have, inner_char. simpl.
now rewrite Hic, orb_false_r.
Qed.

Lemma cls_token (fl : flags) (x : ascii) :
  IGNORECASE fl = false ->
  cls_matches fl true [CSpace; CChar Pat.close_brace] x = token_char x.
Proof.
intros Hic. unfold cls_matches, members_have, token_char. simpl.
now rewrite Hic, orb_false_r.
Qed.

Lemma forallb_ext_eq {A : Type} (p q : A -> bool) (l : list A) :
  (forall a, p a = q a) -> forallb q l = true -> forallb p l = true.
Proof.
intros H. induction l as [|a l IH]; simpl; [auto|]. rewrite H.
intros Hq. apply andb_true_iff in Hq as [-> Hl]. now apply IH.
Qed.

Section ElementProperty.
Import HOI4GUIParser.

(** The quoted form of the element parser reads [key = 'value'], and its
    group is the value. *)
Lemma match_property_quoted (key ws1 ws2 v rest : text) (q1 q2 : ascii) (c : cursor) :
  c_rest c = key ++ ws1 ++ "="%char :: ws2 ++ q1 :: v ++ q2 :: rest ->
  forallb is_space ws1 = true ->
  forallb is_space ws2 = true ->
  is_quote q1 = true -> is_quote q2 = true ->
  v <> [] -> forallb inner_char v = true ->
  exists m,
    match_at no_flags (property_quoted key) false c = Some m /\
    group_or_empty m 1 = v.
Proof.
intros Hrest Hws1 Hws2 Hq1 Hq2 Hv Hinner.
destruct v as [|a v]; [contradiction|]. clear Hv.
set (c1 := feed c key).
destruct (feed_spec key c _ Hrest) as [Hr1 Hp1]. fold c1 in Hr1, Hp1.
set (c2 := feed c1 ws1).
destruct (feed_spec ws1 c1 _ Hr1) as [Hr2 Hp2]. fold c2 in Hr2, Hp2.
set (c3 := feed c2 ["="%char]).
destruct (feed_spec ["="%char] c2 (ws2 ++ q1 :: (a :: v) ++ q2 :: rest) Hr2) as [Hr3 Hp3].
fold c3 in Hr3, Hp3.
set (c4 := feed c3 ws2).
destruct (feed_spec ws2 c3 _ Hr3) as [Hr4 Hp4]. fold c4 in Hr4, Hp4.
set (c5 := feed c4 [q1]).
destruct (feed_spec [q1] c4 ((a :: v) ++ q2 :: rest) Hr4) as [Hr5 Hp5]. fold c5 in Hr5, Hp5.
set (c6 := feed c5 (a :: v)).
destruct (feed_spec (a :: v) c5 (q2 :: rest) Hr5) as [Hr6 Hp6]. fold c6 in Hr6, Hp6.
set (c7 := feed c6 [q2]).
exists (mkMatch (c_pos c) (c_pos c7) [(1, a :: v)] c7). split; [|reflexivity].
unfold match_at, property_quoted, Pat.eq_sign, Pat.ws, Pat.any_quote, Sp. cbn [Cat].
rewrite exec_Seq, (exec_Lit _ no_flags key c [] _ _ Hrest). fold c1.
rewrite !exec_Seq.
apply (exec_star_run _ no_flags false [CSpace] _ [] _ ws1 c1 _ Hr1);
  [now apply spaces_in_set | apply equals_not_space |]. fold c2.
rewrite exec_Seq, (exec_Chr _ no_flags "="%char c2 [] _ _ Hr2). fold c3.
apply (exec_star_run _ no_flags false [CSpace] _ [] _ ws2 c3 _ Hr3);
  [now apply spaces_in_set | apply space_set_plain; [now apply quote_not_space | reflexivity] |].
fold c4.
rewrite exec_Seq, (exec_Cls _ no_flags false _ q1 c4 [] _ _ Hr4 (quote_in_set _ _ Hq1)).
fold c5.
rewrite exec_Seq, exec_Group.
apply (exec_plus_run _ no_flags true _ _ [] _ a v c5 _ Hr5);
  [apply (forallb_ext_eq _ inner_char); [intros; now apply cls_inner | exact Hinner]
  | rewrite cls_inner by reflexivity; now apply quote_not_inner |]. fold c6.
rewrite (exec_Cls _ no_flags false _ q2 c6 _ _ _ Hr6 (quote_in_set _ _ Hq2)). fold c7.
rewrite Hp6, Hr5, Nat.add_comm, Nat.add_sub.
rewrite (firstn_app_length (a :: v)). reflexivity.
Qed.

(** The element parser returns the value of a quoted form that no quoted
    form precedes, whatever bare forms the text holds. *)
Lemma extract_property_quoted (key pre ws1 ws2 v post : text) (q1 q2 : ascii) :
  forallb is_space ws1 = true ->
  forallb is_space ws2 = true ->
  is_quote q1 = true -> is_quote q2 = true ->
  v <> [] -> forallb inner_char v = true ->
  let content := pre ++ key ++ ws1 ++ "="%char :: ws2 ++ q1 :: v ++ q2 :: post in
  (forall j, j < length pre -> quoted_at key content j = false) ->
  _extract_property content key = Some (strip v).
Proof.
intros Hws1 Hws2 Hq1 Hq2 Hv Hinner content Hnone.
assert (Hrest : c_rest (cursor_at content (length pre))
                = key ++ ws1 ++ "="%char :: ws2 ++ q1 :: v ++ q2 :: post).
{ unfold content. cbn [c_rest cursor_at]. apply skipn_app_length. }
destruct (match_property_quoted key ws1 ws2 v post q1 q2 _ Hrest Hws1 Hws2 Hq1 Hq2 Hv Hinner)
  as (m & Hm & Hgroup).
unfold _extract_property.
rewrite (search_first no_flags _ content m (length pre)).
- now rewrite Hgroup.
- unfold content. rewrite length_app. lia.
- intros j Hj. specialize (Hnone j Hj). unfold quoted_at in Hnone.
  destruct (match_at no_flags (property_quoted key) false (cursor_at content j));
    [discriminate | reflexivity].
- exact Hm.
Qed.

End ElementProperty.

Lemma dropwhile_head (p : ascii -> bool) (s : text) :
  match s with [] => True | c :: _ => p c = false end -> dropwhile p s = s.
Proof. destruct s as [|c s]; simpl; [reflexivity | now intros ->]. Qed.

(** A text without white space is its own [strip()]. *)
Lemma strip_token (s : text) : forallb token_char s = true -> strip s = s.
Proof.
intros Hs. unfold strip, strip_by.
assert (Hall : forall c, In c s -> is_space c = false).
{ intros c Hc. apply token_char_not_space. now apply (proj1 (forallb_forall _ _) Hs). }
rewrite (dropwhile_head is_space s).
- rewrite dropwhile_head; [apply rev_involutive|].
  destruct (rev s) as [|c t] eqn:Hrev; [exact I|].
  apply Hall, in_rev. rewrite Hrev. now left.
- destruct s as [|c t]; [exact I | apply Hall; now left].
Qed.

(** The bare form, from the key on: the key, the sign, and the longest run of
    token characters as group 1. *)
Lemma exec_bare_tail (R : Type) (fl : flags) (key ws1 ws2 v rest : text) (a : ascii)
  (c : cursor) (g : captures) (k : cursor -> captures -> option R) (x : R) :
  IGNORECASE fl = false ->
  c_rest c = key ++ ws1 ++ "="%char :: ws2 ++ (a :: v) ++ rest ->
  forallb is_space ws1 = true ->
  forallb is_space ws2 = true ->
  forallb token_char (a :: v) = true ->
  stops token_char rest ->
  k (feed c (key ++ ws1 ++ "="%char :: ws2 ++ a :: v)) ((1, a :: v) :: g) = Some x ->
  exec R fl (Cat [Lit key; Pat.eq_sign;
                  Group 1 (Plus (Cls true [CSpace; CChar Pat.close_brace]))]) c g k = Some x.
Proof.
intros Hic Hrest Hws1 Hws2 Htoken Hstop Hk.
set (c1 := feed c key).
destruct (feed_spec key c _ Hrest) as [Hr1 Hp1]. fold c1 in Hr1, Hp1.
set (c2 := feed c1 ws1).
destruct (feed_spec ws1 c1 _ Hr1) as [Hr2 Hp2]. fold c2 in Hr2, Hp2.
set (c3 := feed c2 ["="%char]).
destruct (feed_spec ["="%char] c2 (ws2 ++ (a :: v) ++ rest) Hr2) as [Hr3 Hp3].
fold c3 in Hr3, Hp3.
set (c4 := feed c3 ws2).
destruct (feed_spec ws2 c3 _ Hr3) as [Hr4 Hp4]. fold c4 in Hr4, Hp4.
set (c5 := feed c4 (a :: v)).
destruct (feed_spec (a :: v) c4 rest Hr4) as [Hr5 Hp5]. fold c5 in Hr5, Hp5.
assert (Hfeed : feed c (key ++ ws1 ++ "="%char :: ws2 ++ a :: v) = c5).
{ unfold c5, c4, c3, c2, c1.
  rewrite feed_app, feed_app. change ("="%char :: ws2 ++ a :: v) with (["="%char] ++ ws2 ++ a :: v).
  now rewrite feed_app, feed_app. }
rewrite Hfeed in Hk.
unfold Pat.eq_sign, Pat.ws, Sp. cbn [Cat].
rewrite exec_Seq, (exec_Lit _ fl key c g _ _ Hrest). fold c1.
rewrite !exec_Seq.
apply (exec_star_run _ fl false [CSpace] _ g _ ws1 c1 _ Hr1);
  [now apply spaces_in_set | apply equals_not_space |]. fold c2.
rewrite exec_Seq, (exec_Chr _ fl "="%char c2 g _ _ Hr2). fold c3.
apply (exec_star_run _ fl false [CSpace] _ g _ ws2 c3 _ Hr3);
  [now apply spaces_in_set
  | apply space_set_plain;
      [apply token_char_not_space; simpl in Htoken; now apply andb_true_iff in Htoken as [? _]
      | exact Hic]
  |].
fold c4.
rewrite exec_Group.
apply (exec_plus_run _ fl true _ _ g _ a v c4 _ Hr4);
  [apply (forallb_ext_eq _ token_char); [intros; now apply cls_token | exact Htoken]
  | destruct rest as [|y rest']; [exact I | rewrite cls_token by exact Hic; exact Hstop]
  |]. fold c5.
rewrite Hp5, Hr4, Nat.add_comm, Nat.add_sub.
rewrite (firstn_app_length (a :: v)). exact Hk.
Qed.

Section ElementFallback.
Import HOI4GUIParser.

Lemma match_property_unquoted (key ws1 ws2 v rest : text) (c : cursor) :
  c_rest c = key ++ ws1 ++ "="%char :: ws2 ++ v ++ rest ->
  forallb is_space ws1 = true ->
  forallb is_space ws2 = true ->
  v <> [] -> forallb token_char v = true ->
  stops token_char rest ->
  exists m,
    match_at no_flags (property_unquoted key) false c = Some m /\
    group_or_empty m 1 = v.
Proof.
intros Hrest Hws1 Hws2 Hv Htoken Hstop.
destruct v as [|a v]; [contradiction|]. clear Hv.
eexists. split.
- unfold match_at, property_unquoted.
  apply (exec_bare_tail _ no_flags key ws1 ws2 v rest a c [] _ _ eq_refl Hrest Hws1 Hws2
           Htoken Hstop).
  reflexivity.
- reflexivity.
Qed.

(** When no quoted form matches, the element parser returns the first bare
    token as it stands. *)
Lemma extract_property_fallback (key pre ws1 ws2 v post : text) :
  forallb is_space ws1 = true ->
  forallb is_space ws2 = true ->
  v <> [] -> forallb token_char v = true ->
  stops token_char post ->
  let content := pre ++ key ++ ws1 ++ "="%char :: ws2 ++ v ++ post in
  search no_flags (property_quoted key) content = None ->
  (forall j, j < length pre -> bare_at key content j = false) ->
  _extract_property content key = Some v.
Proof.
intros Hws1 Hws2 Hv Htoken Hstop content Hquoted Hnone.
assert (Hrest : c_rest (cursor_at content (length pre))
                = key ++ ws1 ++ "="%char :: ws2 ++ v ++ post).
{ unfold content. cbn [c_rest cursor_at]. apply skipn_app_length. }
destruct (match_property_unquoted key ws1 ws2 v post _ Hrest Hws1 Hws2 Hv Htoken Hstop)
  as (m & Hm & Hgroup).
unfold _extract_property. rewrite Hquoted.
rewrite (search_first no_flags _ content m (length pre)).
- now rewrite Hgroup, strip_token.
- unfold content. rewrite length_app. lia.
- intros j Hj. specialize (Hnone j Hj). unfold bare_at in Hnone.
  destruct (match_at no_flags (property_unquoted key) false (cursor_at content j));
    [discriminate | reflexivity].
- exact Hm.
Qed.

End ElementFallback.

Lemma at_line_start (pre rest : text) :
  at_bol Pat.multiline (cursor_at (pre ++ rest) (length pre)) = ends_line pre.
Proof.
unfold at_bol, ends_line, cursor_at. cbn [c_prev].
destruct pre as [|x pre] using rev_ind; [reflexivity|].
rewrite rev_app_distr, length_app, Nat.add_comm. cbn [length Nat.add rev app].
rewrite <- app_assoc, nth_error_app2 by lia. rewrite Nat.sub_diag. reflexivity.
Qed.

Lemma exec_Alt_left (R : Type) (fl : flags) (r1 r2 : regex) (c : cursor) (g : captures)
  (k : cursor -> captures -> option R) (x : R) :
  exec R fl r1 c g k = Some x -> exec R fl (Alt r1 r2) c g k = Some x.
Proof. intros H. simpl. now rewrite H. Qed.

Lemma exec_Bol (R : Type) (fl : flags) (c : cursor) (g : captures)
  (k : cursor -> captures -> option R) :
  at_bol fl c = true -> exec R fl Bol c g k = k c g.
Proof. intros H. simpl. now rewrite H. Qed.

Section ScriptedProperty.
Import ScriptedGUIParser.

(** The bare form of the scripted parser at the start of a line: white space,
    the key, the sign, and the token as group 1. *)
Lemma match_line_bare (key ws0 ws1 ws2 v rest : text) (c : cursor) :
  at_bol Pat.multiline c = true ->
  c_rest c = ws0 ++ key ++ ws1 ++ "="%char :: ws2 ++ v ++ rest ->
  forallb is_space ws0 = true ->
  stops is_space key -> key <> [] ->
  forallb is_space ws1 = true ->
  forallb is_space ws2 = true ->
  v <> [] -> forallb token_char v = true ->
  stops token_char rest ->
  exists m,
    match_at Pat.multiline (property_unquoted key) false c = Some m /\
    group_or_empty m 1 = v.
Proof.
intros Hbol Hrest Hws0 Hkey Hkey' Hws1 Hws2 Hv Htoken Hstop.
destruct v as [|a v]; [contradiction|]. clear Hv.
destruct key as [|kh kt]; [contradiction|]. clear Hkey'.
destruct (feed_spec ws0 c _ Hrest) as [Hr0 Hp0].
eexists. split.
- unfold match_at, property_unquoted.
  change (Cat (?r1 :: ?r2 :: ?rs)) with (Seq r1 (Seq r2 (Cat rs))).
  rewrite exec_Seq. apply exec_Alt_left. rewrite (exec_Bol _ _ _ _ _ Hbol).
  rewrite exec_Seq. unfold Pat.ws at 1. unfold Sp at 1.
  apply (exec_star_run _ Pat.multiline false [CSpace] _ [] _ ws0 c _ Hrest);
    [now apply spaces_in_set
    | apply space_set_plain; [exact Hkey | reflexivity] |].
  apply (exec_bare_tail _ Pat.multiline (kh :: kt) ws1 ws2 v rest a (feed c ws0) [] _ _
           eq_refl Hr0 Hws1 Hws2 Htoken Hstop).
  reflexivity.
- reflexivity.
Qed.

(** The scripted parser returns the first bare token that starts a line, with
    matching quotes around it removed, whatever quoted forms the text holds. *)
Lemma extract_line_bare (key pre ws0 ws1 ws2 v post : text) :
  ends_line pre = true ->
  forallb is_space ws0 = true ->
  stops is_space key -> key <> [] ->
  forallb is_space ws1 = true ->
  forallb is_space ws2 = true ->
  v <> [] -> forallb token_char v = true ->
  stops token_char post ->
  let content := pre ++ ws0 ++ key ++ ws1 ++ "="%char :: ws2 ++ v ++ post in
  (forall j, j < length pre -> bare_line_at key content j = false) ->
  _extract_property content key = Some (unquote v).
Proof.
intros Hpre Hws0 Hkey Hkey' Hws1 Hws2 Hv Htoken Hstop content Hnone.
assert (Hrest : c_rest (cursor_at content (length pre))
                = ws0 ++ key ++ ws1 ++ "="%char :: ws2 ++ v ++ post).
{ unfold content. cbn [c_rest cursor_at]. apply skipn_app_length. }
assert (Hbol : at_bol Pat.multiline (cursor_at content (length pre)) = true).
{ unfold content. now rewrite at_line_start. }
destruct (match_line_bare key ws0 ws1 ws2 v post _ Hbol Hrest Hws0 Hkey Hkey' Hws1 Hws2 Hv
            Htoken Hstop) as (m & Hm & Hgroup).
unfold _extract_property.
rewrite (search_first Pat.multiline _ content m (length pre)).
- now rewrite Hgroup, strip_token.
- unfold content. rewrite length_app. lia.
- intros j Hj. specialize (Hnone j Hj). unfold bare_line_at in Hnone.
  destruct (match_at Pat.multiline (property_unquoted key) false (cursor_at content j));
    [discriminate | reflexivity].
- exact Hm.
Qed.

End ScriptedProperty.

(* ===================================================================== *)
(** ** Whether a pattern matches: independence of continuation results *)
(* ===================================================================== *)

Section Success.
Variables R1 R2 : Type.
Variable fl : flags.

Lemma star_loop_mono
  (body1 : cursor -> captures -> (cursor -> captures -> option R1) -> option R1)
  (body2 : cursor -> captures -> (cursor -> captures -> option R2) -> option R2)
  (greedy : bool)
  (k1 : cursor -> captures -> option R1) (k2 : cursor -> captures -> option R2) :
  (forall c g1 g2 h1 h2,
     (forall c' g1' g2', h1 c' g1' <> None -> h2 c' g2' <> None) ->
     body1 c g1 h1 <> None -> body2 c g2 h2 <> None) ->
  (forall c' g1' g2', k1 c' g1' <> None -> k2 c' g2' <> None) ->
  forall n c g1 g2,
    star_loop R1 body1 greedy k1 n c g1 <> None ->
    star_loop R2 body2 greedy k2 n c g2 <> None.
Proof.
intros Hbody Hk. induction n as [|n IH]; intros c g1 g2 H; [now apply (Hk c g1)|].
cbn [star_loop] in *.
assert (Hagain :
  body1 c g1 (fun c' g' =>
     if c_pos c <? c_pos c' then star_loop R1 body1 greedy k1 n c' g' else None) <> None ->
  body2 c g2 (fun c' g' =>
     if c_pos c <? c_pos c' then star_loop R2 body2 greedy k2 n c' g' else None) <> None).
{ apply Hbody. intros c' g1' g2'.
  destruct (c_pos c <? c_pos c'); [apply IH | intros F; now contradiction F]. }
destruct greedy.
- destruct (body1 c g1 _) as [x|].
  + assert (Hsome : Some x <> None) by discriminate. apply Hagain in Hsome.
    destruct (body2 c g2 _); [discriminate | contradiction].
  + apply (Hk c g1 g2) in H. destruct (body2 c g2 _); [discriminate | exact H].
- destruct (k1 c g1) as [x|] eqn:Hk1.
  + assert (Hsome : k2 c g2 <> None) by (apply (Hk c g1); rewrite Hk1; discriminate).
    destruct (k2 c g2); [discriminate | contradiction].
  + apply Hagain in H. destruct (k2 c g2); [discriminate | exact H].
Qed.

(** A pattern without back-references that matches with one continuation
    matches with any continuation that succeeds wherever the first does. *)
Lemma exec_mono (r : regex) :
  no_backref r = true ->
  forall c g1 g2 (k1 : cursor -> captures -> option R1) (k2 : cursor -> captures -> option R2),
    (forall c' g1' g2', k1 c' g1' <> None -> k2 c' g2' <> None) ->
    exec R1 fl r c g1 k1 <> None -> exec R2 fl r c g2 k2 <> None.
Proof.
induction r as [|a|negated ms| | |r1 IH1 r2 IH2|r1 IH1 r2 IH2|greedy r1 IH1|n r1 IH1|n];
  intros Hr c g1 g2 k1 k2 Hk H; cbn [exec no_backref] in *.
- now apply (Hk c g1).
- destruct (c_rest c) as [|x rest]; [now contradiction H|].
  destruct (chr_matches fl a x); [now apply (Hk _ g1) | now contradiction H].
- destruct (c_rest c) as [|x rest]; [now contradiction H|].
  destruct (cls_matches fl negated ms x); [now apply (Hk _ g1) | now contradiction H].
- destruct (c_rest c) as [|x rest]; [now contradiction H|].
  destruct (dot_matches fl x); [now apply (Hk _ g1) | now contradiction H].
- destruct (at_bol fl c); [now apply (Hk _ g1) | now contradiction H].
- apply andb_true_iff in Hr as [Hr1 Hr2].
  apply (IH1 Hr1 c g1 g2 _ _ (fun c' g1' g2' => IH2 Hr2 c' g1' g2' k1 k2 Hk) H).
- apply andb_true_iff in Hr as [Hr1 Hr2].
  destruct (exec R1 fl r1 c g1 k1) as [x|] eqn:E1.
  + assert (Hsome : exec R2 fl r1 c g2 k2 <> None).
    { apply (IH1 Hr1 c g1 g2 k1 k2 Hk). rewrite E1. discriminate. }
    destruct (exec R2 fl r1 c g2 k2); [discriminate | contradiction].
  + apply (IH2 Hr2 c g1 g2 k1 k2 Hk) in H.
    destruct (exec R2 fl r1 c g2 k2); [discriminate | exact H].
- revert H. apply star_loop_mono; [|exact Hk].
  intros c0 h1 h2 g1' g2' Hh. now apply IH1.
- revert H. apply (IH1 Hr). intros c' g1' g2'. apply Hk.
- discriminate.
Qed.

(** The same head, followed by two tails of which the second matches
    wherever the first does. *)
Lemma exec_mono_head (r ra rb : regex) (c : cursor) (g1 g2 : captures)
  (k1 : cursor -> captures -> option R1) (k2 : cursor -> captures -> option R2) :
  no_backref r = true ->
  (forall c' g1' g2', exec R1 fl ra c' g1' k1 <> None -> exec R2 fl rb c' g2' k2 <> None) ->
  exec R1 fl (Seq r ra) c g1 k1 <> None -> exec R2 fl (Seq r rb) c g2 k2 <> None.
Proof. intros Hr Htail. cbn [exec]. now apply exec_mono. Qed.

End Success.

Lemma no_backref_Lit (s : text) : no_backref (Lit s) = true.
Proof.
induction s as [|a s IH]; [reflexivity|].
destruct s as [|b s]; [reflexivity|]. cbn [Lit no_backref] in *. exact IH.
Qed.

(** A greedy or lazy loop whose continuation always succeeds, succeeds. *)
Lemma star_loop_total (R : Type)
  (body : cursor -> captures -> (cursor -> captures -> option R) -> option R)
  (greedy : bool) (k : cursor -> captures -> option R) (n : nat) (c : cursor) (g : captures) :
  (forall c' g', k c' g' <> None) -> star_loop R body greedy k n c g <> None.
Proof.
intros Hk. destruct n as [|n]; cbn [star_loop]; [apply Hk|].
specialize (Hk c g). destruct greedy.
- destruct (body c g _); [discriminate | exact Hk].
- destruct (k c g); [discriminate | contradiction].
Qed.

Lemma search_rest_mono (fl : flags) (r1 r2 : regex) :
  (forall c, match_at fl r1 false c <> None -> match_at fl r2 false c <> None) ->
  forall rest pos prev,
    search_rest fl r1 false pos prev rest <> None ->
    search_rest fl r2 false pos prev rest <> None.
Proof.
intros Hat. induction rest as [|x rest IH]; intros pos prev H;
  rewrite search_rest_unfold in *.
- specialize (Hat (mkCursor pos prev [])).
  destruct (match_at fl r1 false _) as [m1|]; [|now contradiction H].
  assert (Hsome : Some m1 <> None) by discriminate. apply Hat in Hsome.
  destruct (match_at fl r2 false _); [discriminate | contradiction].
- specialize (Hat (mkCursor pos prev (x :: rest))).
  destruct (match_at fl r1 false _) as [m1|].
  + assert (Hsome : Some m1 <> None) by discriminate. apply Hat in Hsome.
    destruct (match_at fl r2 false _); [discriminate | contradiction].
  + destruct (match_at fl r2 false _); [discriminate | now apply IH].
Qed.

Lemma quote_token_char (q : ascii) : is_quote q = true -> token_char q = true.
Proof.
unfold is_quote. intros H. apply orb_true_iff in H as [H | H];
  apply Ascii.eqb_eq in H; subst q; reflexivity.
Qed.

Section ScriptedFallback.
Import ScriptedGUIParser.

(** Where the quoted form of the scripted parser matches, its bare form
    matches too: the opening quote starts a bare token. *)
Lemma quoted_then_bare (key : text) (c : cursor) :
  match_at Pat.multiline (property_quoted key) false c <> None ->
  match_at Pat.multiline (property_unquoted key) false c <> None.
Proof.
unfold match_at, property_quoted, property_unquoted.
change (Cat [?a; ?b; ?l; ?e; ?q1; ?g; ?q2])
  with (Seq a (Seq b (Seq l (Seq e (Seq q1 (Seq g q2)))))).
change (Cat [?a; ?b; ?l; ?e; ?g])
  with (Seq a (Seq b (Seq l (Seq e g)))).
apply exec_mono_head; [reflexivity|]. intros c1 g1 g1'.
apply exec_mono_head; [reflexivity|]. intros c2 g2 g2'.
apply exec_mono_head; [apply no_backref_Lit|]. intros c3 g3 g3'.
apply exec_mono_head; [reflexivity|]. intros c4 g4 g4'.
unfold Pat.any_quote at 1. cbn [exec].
destruct (c_rest c4) as [|x rest] eqn:Hrest; [auto|].
destruct (cls_matches Pat.multiline false [CChar dquote; CChar squote] x) eqn:Hx; [|auto].
intros _.
assert (Hq : is_quote x = true).
{ unfold cls_matches, members_have in Hx. simpl in Hx. unfold is_quote.
  now rewrite !orb_false_r in Hx. }
unfold Plus. cbn [exec].
rewrite Hrest, (cls_token Pat.multiline x eq_refl), (quote_token_char x Hq).
apply star_loop_total. intros c' g'. discriminate.
Qed.

(** The quoted form of the scripted parser never decides a result: when the
    bare form matches nowhere, neither does the quoted form. *)
Lemma scripted_quoted_unreachable (content key : text) :
  search Pat.multiline (property_unquoted key) content = None ->
  search Pat.multiline (property_quoted key) content = None.
Proof.
intros Hbare.
destruct (search Pat.multiline (property_quoted key) content) as [m|] eqn:E; [|reflexivity].
exfalso. revert Hbare. unfold search, search_from in *.
apply (search_rest_mono Pat.multiline (property_quoted key) (property_unquoted key)
         (quoted_then_bare key)).
rewrite E. discriminate.
Qed.

Lemma extract_property_bare_only (content key : text) :
  _extract_property content key
  = match search Pat.multiline (property_unquoted key) content with
    | Some m => Some (unquote (strip (group_or_empty m 1)))
    | None => None
    end.
Proof.
unfold _extract_property.
destruct (search Pat.multiline (property_unquoted key) content) eqn:E; [reflexivity|].
now rewrite (scripted_quoted_unreachable content key E).
Qed.

End ScriptedFallback.

Lemma unquote_matching (q : ascii) (w : text) :
  is_quote q = true -> ScriptedGUIParser.unquote (q :: w ++ [q]) = w.
Proof.
intros Hq. unfold ScriptedGUIParser.unquote, ScriptedGUIParser.drop_ends, endswith.
cbn [tl]. rewrite removelast_last.
cbn [rev]. rewrite rev_app_distr. cbn [rev app startswith].
assert (Hnil : forall s : text, startswith s [] = true) by (now intros [|? ?]).
rewrite !Hnil, !andb_true_r. unfold is_quote in Hq.
destruct (Ascii.eqb dquote q); [reflexivity|].
rewrite orb_false_l in Hq. now rewrite Hq.
Qed.

(** C6 (the code against the specification).  The element parser does
    prefer the quoted form: for a text holding [key = 'value'] with a
    non-empty value free of quotes and closing braces, at an offset before
    which the quoted form matches nowhere, it returns the stripped value,
    whatever bare forms the text holds.

    The scripted parser does not.  It tries the bare form first, and the
    branch it keeps for quoted values never decides a result: wherever the
    quoted pattern matches, the bare pattern tried before it matches too,
    so the result is what the bare pattern alone gives.  For
    [window_name = 'my window'], written with double quotes, it returns the
    opening quote followed by [my], where the element parser returns
    [my window].

    The element parser, when it falls back to the bare token, returns it
    with its quotes: for a name written as two double quotes with nothing
    between them it returns the two quote characters, where the scripted
    parser, which removes a pair of matching quotes, returns the empty
    string. *)
Theorem C6_scalar_extractors :
  (forall (key pre ws1 ws2 v post : text) (q1 q2 : ascii),
     forallb is_space ws1 = true ->
     forallb is_space ws2 = true ->
     is_quote q1 = true -> is_quote q2 = true ->
     v <> [] -> forallb inner_char v = true ->
     let content := pre ++ key ++ ws1 ++ "="%char :: ws2 ++ q1 :: v ++ q2 :: post in
     (forall j, j < length pre -> quoted_at key content j = false) ->
     HOI4GUIParser._extract_property content key = Some (strip v)) /\
  (forall (content key : text),
     ScriptedGUIParser._extract_property content key
     = match search Pat.multiline (ScriptedGUIParser.property_unquoted key) content with
       | Some m => Some (ScriptedGUIParser.unquote (strip (group_or_empty m 1)))
       | None => None
       end) /\
  (ScriptedGUIParser._extract_property Samples.quoted_with_space (str "window_name")
   = Some (qstr "`my") /\
   HOI4GUIParser._extract_property Samples.quoted_with_space (str "window_name")
   = Some (str "my window")) /\
  (HOI4GUIParser._extract_property Samples.empty_quoted (str "name") = Some (qstr "``") /\
   ScriptedGUIParser._extract_property Samples.empty_quoted (str "name") = Some []).
Proof.
split; [|split; [|split]].
- intros. now apply extract_property_quoted.
- apply extract_property_bare_only.
- split; vm_compute; reflexivity.
- split; vm_compute; reflexivity.
Qed.

(* ===================================================================== *)
(** ** What a parser carries from one load to the next *)
(* ===================================================================== *)

Section Reload.
Import HOI4GUIParser.

Lemma same_take_new (e : option GUIElement) (a b : t) :
  same_but_canvas a b ->
  same_but_canvas (fst (take_new e a)) (fst (take_new e b)) /\
  snd (take_new e a) = snd (take_new e b).
Proof.
intros (He & Hd & Hp & Hk). unfold take_new, _is_duplicate. rewrite Hk.
destruct e as [e|]; [|now repeat split].
destruct (mem _ _); [now repeat split|].
unfold same_but_canvas, _mark_as_parsed, append. cbn. rewrite He, Hk. now repeat split.
Qed.

Lemma same_first_sets (e : GUIElement) (a b : t) :
  same_but_canvas a b ->
  same_but_canvas (first_sets_window_size e a) (first_sets_window_size e b).
Proof.
intros (He & Hd & Hp & Hk). unfold first_sets_window_size. rewrite He.
destruct (length (elements b)) as [|[|n]], (size e); now repeat split.
Qed.

Lemma same_take_each (parse : text -> outcome (option GUIElement)) (a b : t) (x : text) :
  same_but_canvas a b ->
  alike same_but_canvas (take_each parse a x) (take_each parse b x).
Proof.
intros H. unfold take_each. destruct (parse x) as [o|e]; [|now split].
split; [now apply same_take_new | reflexivity].
Qed.

Lemma same_nested (frames : nat) : forall (content : text) (a b : t),
  same_but_canvas a b ->
  alike same_but_canvas (_parse_nested_elements frames content a)
                        (_parse_nested_elements frames content b).
Proof.
induction frames as [|frames IH]; intros content a b Hab; [now split|].
cbn [_parse_nested_elements].
repeat (apply and_then_alike; [|intros ? ? ?]);
  try (apply for_each_alike; [intros; now apply same_take_each | assumption]).
apply for_each_alike; [|exact Hab].
intros a' b' x Hab'.
destruct (_parse_container_window_element x) as [o|e]; [|now split].
destruct (same_take_new o a' b' Hab') as [Hsame Htaken].
destruct (take_new o a') as [a'' ta], (take_new o b') as [b'' tb].
cbn [fst snd] in Hsame, Htaken. subst tb.
destruct ta; [now apply IH | now split].
Qed.

Lemma same_parse_container (a b : t) (x : text) :
  same_but_canvas a b ->
  alike same_but_canvas (parse_container a x) (parse_container b x).
Proof.
intros Hab. unfold parse_container.
destruct (_parse_container_window_element x) as [o|e0]; [|now split].
apply same_nested. destruct o as [e|]; [|exact Hab].
unfold _is_duplicate. destruct Hab as (He & Hd & Hp & Hk). rewrite Hk.
destruct (mem _ _); [now repeat split|].
apply same_first_sets. unfold same_but_canvas, _mark_as_parsed, append. cbn.
rewrite He, Hk. now repeat split.
Qed.

Lemma same_append_matches (tag : text) (parse : text -> outcome (option GUIElement))
  (after : GUIElement -> t -> t) (content : text) (a b : t) :
  (forall e a b, same_but_canvas a b -> same_but_canvas (after e a) (after e b)) ->
  same_but_canvas a b ->
  alike same_but_canvas (append_matches tag parse after content a)
                        (append_matches tag parse after content b).
Proof.
intros Hafter Hab. unfold append_matches. apply for_each_alike; [|exact Hab].
intros a' b' x Hab'. destruct (parse x) as [[e|]|e0]; [|now split..].
split; [|reflexivity]. cbn [ok fst].
apply Hafter. destruct Hab' as (He & Hd & Hp & Hk).
unfold same_but_canvas, append. cbn. rewrite He. now repeat split.
Qed.

Lemma same_parse_elements (content : text) (a b : t) :
  elements a = elements b ->
  scripted_gui_data a = scripted_gui_data b ->
  parse_errors a = parse_errors b ->
  alike same_but_canvas (_parse_elements content a) (_parse_elements content b).
Proof.
intros He Hd Hp. unfold _parse_elements, _parse_top_level_elements, _parse_editbox_types,
  _parse_listbox_types, _parse_gridbox_types, _parse_scrollbar_types, _parse_checkbox_types,
  _parse_window_types.
repeat (apply and_then_alike; [|intros ? ? ?]);
  try (apply same_append_matches; [first [intros; now apply same_first_sets | now intros]
                                  | assumption]).
unfold _parse_container_window_types.
apply for_each_alike; [intros; now apply same_parse_container|].
now repeat split.
Qed.

Lemma same_apply (a b : t) :
  same_but_canvas a b ->
  same_but_canvas (_apply_scripted_gui_data a) (_apply_scripted_gui_data b).
Proof.
intros (He & Hd & Hp & Hk). unfold _apply_scripted_gui_data. rewrite Hd.
destruct (scripted_gui_data b) eqn:Hb; unfold same_but_canvas; cbn; rewrite ?He, ?Hb;
  now repeat split.
Qed.

(** The returned list and the error list of a load depend on the parser's
    state through the binding data alone. *)
Lemma parse_file_same (fs : filesystem) (file_path : text) (a b : t) :
  scripted_gui_data a = scripted_gui_data b ->
  fst (parse_file fs file_path a) = fst (parse_file fs file_path b) /\
  parse_errors (snd (parse_file fs file_path a))
  = parse_errors (snd (parse_file fs file_path b)).
Proof.
intros Hd. unfold parse_file, parse_file_body.
destruct (fs file_path) as [f|]; [|now split].
destruct (read_source f) as [[content | msg] | e]; [| now split | now split].
destruct (strip content); [now split|].
destruct (search _ _ _) as [m|]; [|now split].
pose proof (same_parse_elements (group_or_empty m 1)
              (with_elements [] (with_parse_errors [] a))
              (with_elements [] (with_parse_errors [] b)) eq_refl Hd eq_refl) as [Hsame Hraised].
destruct (_parse_elements _ (with_elements [] (with_parse_errors [] a))) as [pa ea],
         (_parse_elements _ (with_elements [] (with_parse_errors [] b))) as [pb eb].
cbn [fst snd] in Hsame, Hraised. subst eb. destruct ea as [e|]; cbn [fst snd].
- destruct Hsame as (_ & _ & Hp & _). split; [reflexivity|].
  cbn [parse_errors add_error with_parse_errors]. now rewrite Hp.
- destruct (same_apply pa pb Hsame) as (He & _ & Hp & _). now split.
Qed.

Lemma data_take_new (e : option GUIElement) (self : t) :
  scripted_gui_data (fst (take_new e self)) = scripted_gui_data self.
Proof.
unfold take_new. destruct e as [e|]; [|reflexivity].
now destruct (_is_duplicate e self).
Qed.

Lemma data_first_sets (e : GUIElement) (self : t) :
  scripted_gui_data (first_sets_window_size e self) = scripted_gui_data self.
Proof.
unfold first_sets_window_size.
now destruct (length (elements self)) as [|[|n]], (size e).
Qed.

(** A field that every statement of a call leaves alone is left alone by
    the call. *)
Lemma kept_and_then {F : Type} (field : t -> F) (r : run) (rest : t -> run) (self : t) :
  field (fst r) = field self -> (forall s, field (fst (rest s)) = field s) ->
  field (fst (and_then r rest)) = field self.
Proof.
intros Hr Hrest. apply (and_then_preserves (fun s => field s = field self)); [exact Hr|].
intros s Hs. now rewrite Hrest.
Qed.

Lemma kept_for_each {A F : Type} (field : t -> F) (body : t -> A -> run) :
  (forall s x, field (fst (body s x)) = field s) ->
  forall l self, field (fst (for_each body l self)) = field self.
Proof.
intros Hbody l self. apply (for_each_preserves (fun s => field s = field self)); [|reflexivity].
intros s x Hs. now rewrite Hbody.
Qed.

Lemma kept_take_each {F : Type} (field : t -> F) parse :
  (forall o s, field (fst (take_new o s)) = field s) ->
  forall s x, field (fst (take_each parse s x)) = field s.
Proof. intros H s x. unfold take_each. destruct (parse x); [apply H | reflexivity]. Qed.

Lemma kept_nested {F : Type} (field : t -> F) :
  (forall o s, field (fst (take_new o s)) = field s) ->
  forall frames content self,
    field (fst (_parse_nested_elements frames content self)) = field self.
Proof.
intros Htake. induction frames as [|frames IH]; intros content self; [reflexivity|].
cbn [_parse_nested_elements].
repeat (apply kept_and_then; [|intros ?]);
  try (apply kept_for_each; now apply kept_take_each).
apply kept_for_each. intros s x.
destruct (_parse_container_window_element x) as [o|e]; [|reflexivity].
pose proof (Htake o s) as H. destruct (take_new o s) as [s' taken]. cbn [fst] in H.
destruct taken; [now rewrite IH | exact H].
Qed.

Lemma kept_parse_container {F : Type} (field : t -> F) :
  (forall o s, field (fst (take_new o s)) = field s) ->
  (forall e s, field (first_sets_window_size e s) = field s) ->
  forall self x, field (fst (parse_container self x)) = field self.
Proof.
intros Htake Hfirst self x. unfold parse_container.
destruct (_parse_container_window_element x) as [o|e0]; [|reflexivity].
rewrite kept_nested by exact Htake. destruct o as [e|]; [|reflexivity].
pose proof (Htake (Some e) self) as H. unfold take_new in H.
destruct (_is_duplicate e self); [reflexivity|]. now rewrite Hfirst.
Qed.

Lemma kept_append_matches {F : Type} (field : t -> F) tag parse after content self :
  (forall e s, field (append e s) = field s) ->
  (forall e s, field (after e s) = field s) ->
  field (fst (append_matches tag parse after content self)) = field self.
Proof.
intros Happend Hafter. unfold append_matches. apply kept_for_each.
intros s x. destruct (parse x) as [[e|]|e0]; [|reflexivity..].
cbn [ok fst]. now rewrite Hafter, Happend.
Qed.

Lemma kept_parse_elements {F : Type} (field : t -> F) :
  (forall keys s, field (with_parsed_elements keys s) = field s) ->
  (forall e s, field (append e s) = field s) ->
  (forall o s, field (fst (take_new o s)) = field s) ->
  (forall e s, field (first_sets_window_size e s) = field s) ->
  forall content self, field (fst (_parse_elements content self)) = field self.
Proof.
intros Hkeys Happend Htake Hfirst content self.
unfold _parse_elements, _parse_top_level_elements, _parse_editbox_types,
  _parse_listbox_types, _parse_gridbox_types, _parse_scrollbar_types, _parse_checkbox_types,
  _parse_window_types.
rewrite <- (Hkeys [] self).
repeat (apply kept_and_then; [|intros ?]);
  try (apply kept_append_matches; [exact Happend | first [exact Hfirst | reflexivity]]).
unfold _parse_container_window_types. apply kept_for_each.
now apply kept_parse_container.
Qed.

Lemma data_parse_elements (content : text) (self : t) :
  scripted_gui_data (fst (_parse_elements content self)) = scripted_gui_data self.
Proof.
apply (kept_parse_elements scripted_gui_data);
  [reflexivity | reflexivity | apply data_take_new | apply data_first_sets].
Qed.

Lemma data_apply (self : t) :
  scripted_gui_data (_apply_scripted_gui_data self) = scripted_gui_data self.
Proof.
unfold _apply_scripted_gui_data. destruct (scripted_gui_data self) eqn:H; exact H.
Qed.

(** A load leaves the binding data as it was. *)
Lemma parse_file_data (fs : filesystem) (file_path : text) (self : t) :
  scripted_gui_data (snd (parse_file fs file_path self)) = scripted_gui_data self.
Proof.
unfold parse_file, parse_file_body.
destruct (fs file_path) as [f|]; [|reflexivity].
destruct (read_source f) as [[content | msg] | e]; [| reflexivity | reflexivity].
destruct (strip content); [reflexivity|].
destruct (search _ _ _) as [m|]; [|reflexivity].
pose proof (data_parse_elements (group_or_empty m 1)
              (with_elements [] (with_parse_errors [] self))) as H.
destruct (_parse_elements _ _) as [parsed [e|]]; cbn [fst snd] in *.
- exact H.
- now rewrite data_apply.
Qed.

End Reload.

(** The scripted parser's returned list and error list do not depend on the
    state it is called in. *)
Lemma scripted_parse_file_same (fs : filesystem) (file_path : text)
  (a b : ScriptedGUIParser.t) :
  fst (ScriptedGUIParser.parse_file fs file_path a)
  = fst (ScriptedGUIParser.parse_file fs file_path b) /\
  ScriptedGUIParser.parse_errors (snd (ScriptedGUIParser.parse_file fs file_path a))
  = ScriptedGUIParser.parse_errors (snd (ScriptedGUIParser.parse_file fs file_path b)).
Proof.
unfold ScriptedGUIParser.parse_file, ScriptedGUIParser.parse_file_body.
destruct (fs file_path) as [f|]; [|now split].
destruct (read_source f) as [[content | msg] | e]; [| now split | now split].
destruct (strip content); [now split|].
destruct (search _ _ _) as [m|]; [|now split].
cbn [fst snd ScriptedGUIParser.parse_errors]. now split.
Qed.

(** C3 (the code against the specification).  For every pair of loads on one
    parser, the second load returns the list and leaves the error list that a
    fresh parser gives, for the element parser and for the scripted parser.
    The canvas size is another matter: [window_size] is assigned in
    [__init__] and never reset by [parse_file].  After a first file whose
    container is 1024 by 768, loading a second file whose container has no
    size leaves the canvas at 1024 by 768, where a fresh parser has 800 by
    600. *)
Theorem C3_window_size_survives_reload :
  (forall (fs : filesystem) (f1 f2 : text),
     let reused := snd (HOI4GUIParser.parse_file fs f1 HOI4GUIParser.init) in
     fst (HOI4GUIParser.parse_file fs f2 reused)
     = fst (HOI4GUIParser.parse_file fs f2 HOI4GUIParser.init) /\
     HOI4GUIParser.parse_errors (snd (HOI4GUIParser.parse_file fs f2 reused))
     = HOI4GUIParser.parse_errors (snd (HOI4GUIParser.parse_file fs f2 HOI4GUIParser.init))) /\
  (forall (fs : filesystem) (f1 f2 : text),
     let reused := snd (ScriptedGUIParser.parse_file fs f1 ScriptedGUIParser.init) in
     fst (ScriptedGUIParser.parse_file fs f2 reused)
     = fst (ScriptedGUIParser.parse_file fs f2 ScriptedGUIParser.init) /\
     ScriptedGUIParser.parse_errors (snd (ScriptedGUIParser.parse_file fs f2 reused))
     = ScriptedGUIParser.parse_errors
         (snd (ScriptedGUIParser.parse_file fs f2 ScriptedGUIParser.init))) /\
  (let reused := snd (HOI4GUIParser.parse_file Samples.two_files (str "first.gui")
                        HOI4GUIParser.init) in
   let again := HOI4GUIParser.parse_file Samples.two_files (str "second.gui") reused in
   let fresh := HOI4GUIParser.parse_file Samples.two_files (str "second.gui")
                  HOI4GUIParser.init in
   HOI4GUIParser.window_size (snd again) = mkSize 1024 768 /\
   HOI4GUIParser.window_size (snd fresh) = mkSize 800 600).
Proof.
split; [|split].
- intros fs f1 f2 reused. apply parse_file_same. unfold reused. apply parse_file_data.
- intros fs f1 f2 reused. apply scripted_parse_file_same.
- vm_compute. now split.
Qed.

(* ===================================================================== *)
(** ** The length of an extracted block *)
(* ===================================================================== *)

Lemma slice_length (s : text) (a b : nat) : length (slice s a b) <= length s - a.
Proof. unfold slice. rewrite length_firstn, length_skipn. lia. Qed.

Section BlockLength.
Variable fl : flags.
Variable pattern : regex.
Hypothesis pattern_reads : 1 <= min_len pattern.

(** Every block the loop collects is shorter than the text it is cut from. *)
Lemma block_loop_shorter (fuel : nat) : forall (content : text) (p : nat) (acc : list text),
  Forall (fun b => length b < length content) acc ->
  Forall (fun b => length b < length content)
    (block_loop fuel fl pattern collect content p acc).
Proof.
induction fuel as [|fuel IH]; intros content p acc Hacc; [exact Hacc|].
simpl. destruct (search fl pattern (skipn p content)) as [m|] eqn:E; [|exact Hacc].
pose proof (search_bounds _ _ _ _ E) as [Hmin Hmax]. rewrite length_skipn in Hmax.
destruct (match_braces _ _ 1) as [pos bc].
apply IH. destruct (bc =? 0)%Z; [|exact Hacc].
unfold collect. apply Forall_app. split; [exact Hacc|].
constructor; [|constructor].
pose proof (slice_length content (p + m_end m - 1 + 1) (pos - 1)). lia.
Qed.

End BlockLength.

Section NestedDepth.
Import HOI4GUIParser.

Lemma extract_block_content_shorter (content tag : text) :
  Forall (fun b => length b < length content) (_extract_block_content content tag).
Proof.
unfold _extract_block_content.
destruct (startswith tag (str "(?i)"));
  apply block_loop_shorter; try apply block_open_reads; constructor.
Qed.

End NestedDepth.

(* ===================================================================== *)
(** ** Lines: [split], [join] and the comment strippers *)
(* ===================================================================== *)

Lemma split_on_cons (c x : ascii) (s : text) :
  Ascii.eqb x c = false ->
  exists l ls, split_on c s = l :: ls /\ split_on c (x :: s) = (x :: l) :: ls.
Proof.
intros Hx. simpl. rewrite Hx.
destruct (split_on c s) as [|l ls] eqn:E.
- destruct s as [|y s]; simpl in E; [discriminate|].
  destruct (Ascii.eqb y c); [discriminate|]. destruct (split_on c s); discriminate.
- now exists l, ls.
Qed.

Lemma split_on_nonempty (c : ascii) (s : text) : split_on c s <> [].
Proof.
destruct s as [|x s]; simpl; [discriminate|].
destruct (Ascii.eqb x c); [discriminate|]. destruct (split_on c s); discriminate.
Qed.

(** [sep.join(s.split(sep)) == s] *)
Lemma join_split_on (c : ascii) (s : text) : join [c] (split_on c s) = s.
Proof.
induction s as [|x s IH]; [reflexivity|].
destruct (Ascii.eqb x c) eqn:Hx.
- simpl. rewrite Hx. apply Ascii.eqb_eq in Hx. subst x.
  pose proof (split_on_nonempty c s) as Hne.
  destruct (split_on c s) as [|l ls]; [contradiction|].
  change (join [c] ([] :: l :: ls)) with ([] ++ [c] ++ join [c] (l :: ls)).
  now rewrite IH.
- destruct (split_on_cons c x s Hx) as (l & ls & E & ->). rewrite E in IH.
  destruct ls as [|l' ls]; simpl in *; now rewrite IH.
Qed.

Lemma split_on_lines_free (c : ascii) (s : text) :
  Forall (fun l => has_char c l = false) (split_on c s).
Proof.
induction s as [|x s IH]; [repeat constructor|].
destruct (Ascii.eqb x c) eqn:Hx.
- simpl. rewrite Hx. constructor; [reflexivity | exact IH].
- destruct (split_on_cons c x s Hx) as (l & ls & E & ->). rewrite E in IH.
  inversion IH as [|? ? Hl Hls]; subst. constructor; [|exact Hls].
  unfold has_char in *. simpl. rewrite Ascii.eqb_sym, Hx. exact Hl.
Qed.

Lemma split_on_app_free (c : ascii) (l rest : text) :
  has_char c l = false ->
  split_on c (l ++ rest) = match split_on c rest with
                           | [] => []
                           | m :: ms => (l ++ m) :: ms
                           end.
Proof.
pose proof (split_on_nonempty c rest) as Hne.
induction l as [|x l IHl]; intros Hl.
- simpl. destruct (split_on c rest); [contradiction | reflexivity].
- unfold has_char in Hl. simpl in Hl. apply orb_false_iff in Hl as [Hx Hl].
  simpl. rewrite Ascii.eqb_sym, Hx. rewrite (IHl Hl).
  destruct (split_on c rest); [contradiction | reflexivity].
Qed.

(** [sep.join(lines).split(sep) == lines] for lines without the separator. *)
Lemma split_on_join (c : ascii) (ls : list text) :
  ls <> [] ->
  Forall (fun l => has_char c l = false) ls ->
  split_on c (join [c] ls) = ls.
Proof.
induction ls as [|l ls IH]; intros Hne Hfree; [contradiction|].
inversion Hfree as [|? ? Hl Hls]; subst.
destruct ls as [|l' ls].
- simpl. rewrite <- (app_nil_r l) at 1.
  rewrite (split_on_app_free c l [] Hl). simpl. now rewrite app_nil_r.
- change (join [c] (l :: l' :: ls)) with (l ++ c :: join [c] (l' :: ls)).
  rewrite (split_on_app_free c l _ Hl). simpl. rewrite Ascii.eqb_refl, app_nil_r.
  f_equal. apply IH; [discriminate | exact Hls].
Qed.

Lemma has_char_app (c : ascii) (a b : text) :
  has_char c (a ++ b) = has_char c a || has_char c b.
Proof. unfold has_char. apply existsb_app. Qed.

Lemma has_char_join (c sep : ascii) (ls : list text) :
  Ascii.eqb c sep = false ->
  has_char c (join [sep] ls) = existsb (has_char c) ls.
Proof.
intros Hsep. induction ls as [|l ls IH]; [reflexivity|].
destruct ls as [|l' ls]; [simpl; now rewrite orb_false_r|].
change (join [sep] (l :: l' :: ls)) with (l ++ [sep] ++ join [sep] (l' :: ls)).
rewrite !has_char_app, IH. unfold has_char at 2. simpl. now rewrite Hsep.
Qed.

Lemma before_char_free (c : ascii) (l : text) : has_char c (before_char c l) = false.
Proof.
unfold has_char, before_char. induction l as [|x l IH]; [reflexivity|].
simpl. destruct (Ascii.eqb x c) eqn:Hx; [reflexivity|].
simpl. now rewrite Ascii.eqb_sym, Hx.
Qed.

Lemma before_char_absent (c : ascii) (l : text) :
  has_char c l = false -> before_char c l = l.
Proof.
unfold has_char, before_char. induction l as [|x l IH]; [reflexivity|].
simpl. intros H. apply orb_false_iff in H as [Hx Hl].
rewrite Ascii.eqb_sym, Hx. simpl. now rewrite IH.
Qed.

Lemma before_char_newline_free (c : ascii) (l : text) :
  has_char newline l = false -> has_char newline (before_char c l) = false.
Proof.
unfold has_char, before_char. induction l as [|x l IH]; [reflexivity|].
simpl. intros H. apply orb_false_iff in H as [Hx Hl].
destruct (Ascii.eqb x c); [reflexivity|]. simpl. now rewrite Hx, IH.
Qed.

(** The cut of one line, as [_remove_comments] writes it. *)
Lemma cut_line_before (l : text) :
  (if has_char "#" l then before_char "#" l else l) = before_char "#"%char l.
Proof.
destruct (has_char "#" l) eqn:H; [reflexivity|]. now rewrite before_char_absent.
Qed.

Lemma remove_comments_lines (content : text) :
  _remove_comments content
  = join [newline] (map (before_char "#"%char) (split_on newline content)).
Proof.
unfold _remove_comments. f_equal. apply map_ext. intros l. apply cut_line_before.
Qed.

Lemma before_char_idempotent (c : ascii) (l : text) :
  before_char c (before_char c l) = before_char c l.
Proof. apply before_char_absent, before_char_free. Qed.

Lemma cut_lines_newline_free (content : text) :
  Forall (fun l => has_char newline l = false)
    (map (before_char "#"%char) (split_on newline content)).
Proof.
apply Forall_map. eapply Forall_impl; [|apply split_on_lines_free].
intros l Hl. now apply before_char_newline_free.
Qed.

Lemma split_remove_comments (content : text) :
  split_on newline (_remove_comments content)
  = map (before_char "#"%char) (split_on newline content).
Proof.
rewrite remove_comments_lines. apply split_on_join; [|apply cut_lines_newline_free].
pose proof (split_on_nonempty newline content). now destruct (split_on newline content).
Qed.

(** X1.  [_remove_comments] keeps the line structure: the lines of the
    result are the lines of the text, each cut at its first [#].  The result
    holds no [#], a second pass changes nothing, and a text without [#] is
    returned as it is. *)
Theorem X1_remove_comments_lines :
  forall content : text,
    split_on newline (_remove_comments content)
    = map (before_char "#"%char) (split_on newline content) /\
    has_char "#" (_remove_comments content) = false /\
    _remove_comments (_remove_comments content) = _remove_comments content /\
    (has_char "#" content = false -> _remove_comments content = content).
Proof.
intros content. split; [apply split_remove_comments|]. split; [|split].
- rewrite remove_comments_lines, has_char_join by reflexivity.
  induction (split_on newline content) as [|l ls IH]; [reflexivity|].
  simpl. now rewrite before_char_free.
- rewrite (remove_comments_lines (_remove_comments content)), split_remove_comments.
  rewrite map_map, remove_comments_lines. f_equal. apply map_ext.
  intros l. apply before_char_idempotent.
- intros Hfree. rewrite remove_comments_lines.
  rewrite <- (join_split_on newline content) in Hfree at 1.
  rewrite has_char_join in Hfree by reflexivity.
  rewrite <- (join_split_on newline content) at 2. f_equal.
  induction (split_on newline content) as [|l ls IH]; [reflexivity|].
  simpl in Hfree. apply orb_false_iff in Hfree as [Hl Hls].
  simpl. now rewrite before_char_absent, IH.
Qed.

(* --------------------------------------------------------------------- *)
(** *** The comment stripper of the usage scan *)

Section CleanLine.
Import AnalysisWorker.

(** What is kept of a line is a prefix of the line. *)
Lemma clean_line_prefix (line : text) : forall prev in_string quote_char,
  exists rest, line = clean_line line prev in_string quote_char ++ rest.
Proof.
induction line as [|char line IH]; intros prev in_string quote_char; [now exists []|].
cbn [clean_line].
destruct (negb in_string && Ascii.eqb char "#"); [now exists (char :: line)|].
destruct (if (Ascii.eqb char dquote || Ascii.eqb char squote) && _ then _ else _)
  as [in_string' quote_char'].
destruct (IH (Some char) in_string' quote_char') as (rest & Hrest).
exists rest. simpl. now f_equal.
Qed.

Lemma has_char_cons (c x : ascii) (l : text) :
  has_char c (x :: l) = Ascii.eqb c x || has_char c l.
Proof. reflexivity. Qed.

Lemma has_char_cons_false (c x : ascii) (l : text) :
  has_char c (x :: l) = false -> Ascii.eqb x c = false /\ has_char c l = false.
Proof.
rewrite has_char_cons. intros H. apply orb_false_iff in H as [Hx Hl].
now rewrite Ascii.eqb_sym.
Qed.

(** One step of the scan on a character that is no quote: the state stays. *)
Lemma clean_line_other (char : ascii) (line : text) (prev : option ascii)
  (in_string : bool) (quote_char : option ascii) :
  negb in_string && Ascii.eqb char "#" = false ->
  Ascii.eqb char dquote = false -> Ascii.eqb char squote = false ->
  clean_line (char :: line) prev in_string quote_char
  = char :: clean_line line (Some char) in_string quote_char.
Proof. intros Hc Hd Hs. cbn [clean_line]. now rewrite Hc, Hd, Hs. Qed.

(** Outside a string and on a line without quotes, the scan is the plain cut. *)
Lemma clean_line_plain (line : text) : forall prev,
  has_char dquote line = false -> has_char squote line = false ->
  clean_line line prev false None = before_char "#"%char line.
Proof.
induction line as [|char line IH]; intros prev Hd Hs; [reflexivity|].
apply has_char_cons_false in Hd as [Hd Hdl]. apply has_char_cons_false in Hs as [Hs Hsl].
unfold before_char. cbn [takewhile].
destruct (Ascii.eqb char "#") eqn:Hc.
- cbn [clean_line negb andb]. now rewrite Hc.
- rewrite clean_line_other; [|now rewrite Hc | exact Hd | exact Hs].
  cbn [negb]. f_equal. now apply IH.
Qed.

(** Outside a string, a stretch without quotes and without [#] is kept. *)
Lemma clean_line_outside (a : text) : forall prev rest,
  has_char dquote a = false -> has_char squote a = false -> has_char "#" a = false ->
  clean_line (a ++ rest) prev false None
  = a ++ clean_line rest (fold_left (fun _ c => Some c) a prev) false None.
Proof.
induction a as [|char a IH]; intros prev rest Hd Hs Hc; [reflexivity|].
apply has_char_cons_false in Hd as [Hd Hdl]. apply has_char_cons_false in Hs as [Hs Hsl].
apply has_char_cons_false in Hc as [Hc Hcl].
cbn [app fold_left]. rewrite clean_line_other; [|now rewrite Hc | exact Hd | exact Hs].
f_equal. now apply IH.
Qed.

(** Inside a string opened by [q], everything before the next [q] is kept,
    a [#] included. *)
Lemma clean_line_inside (q : ascii) (body : text) : forall prev rest,
  has_char q body = false ->
  clean_line (body ++ rest) prev true (Some q)
  = body ++ clean_line rest (fold_left (fun _ c => Some c) body prev) true (Some q).
Proof.
induction body as [|char body IH]; intros prev rest Hq; [reflexivity|].
apply has_char_cons_false in Hq as [Hq Hql].
cbn [app fold_left clean_line negb andb]. rewrite Hq.
assert (Hstate :
  (if (Ascii.eqb char dquote || Ascii.eqb char squote)
      && match prev with
         | Some p => negb (Ascii.eqb p backslash)
         | None => true
         end
   then (true, Some q) else (true, Some q)) = (true, Some q))
  by (now destruct (_ && _)).
rewrite Hstate. f_equal. now apply IH.
Qed.

Lemma last_seen_plain (a : text) (prev : option ascii) :
  has_char backslash a = false ->
  match prev with Some p => Ascii.eqb p backslash = false | None => True end ->
  match fold_left (fun _ c => Some c) a prev with
  | Some p => Ascii.eqb p backslash = false
  | None => True
  end.
Proof.
revert prev. induction a as [|x a IH]; intros prev Ha Hprev; [exact Hprev|].
apply has_char_cons_false in Ha as [Hx Ha]. cbn [fold_left]. now apply IH.
Qed.

(** A quote met outside a string, not escaped, opens a string. *)
Lemma clean_line_open (q : ascii) (rest : text) (prev : option ascii) :
  is_quote q = true ->
  match prev with Some p => Ascii.eqb p backslash = false | None => True end ->
  clean_line (q :: rest) prev false None = q :: clean_line rest (Some q) true (Some q).
Proof.
intros Hq Hprev. cbn [clean_line negb andb].
assert (Hhash : Ascii.eqb q "#" = false).
{ unfold is_quote in Hq. apply orb_true_iff in Hq as [H | H];
    apply Ascii.eqb_eq in H; subst q; reflexivity. }
assert (Hquote : Ascii.eqb q dquote || Ascii.eqb q squote = true).
{ unfold is_quote in Hq. now rewrite (Ascii.eqb_sym q dquote), (Ascii.eqb_sym q squote). }
rewrite Hhash, Hquote.
destruct prev as [p|]; [rewrite Hprev|]; reflexivity.
Qed.

(** The same quote met inside the string, not escaped, closes it. *)
Lemma clean_line_close (q : ascii) (rest : text) (prev : option ascii) :
  is_quote q = true ->
  match prev with Some p => Ascii.eqb p backslash = false | None => True end ->
  clean_line (q :: rest) prev true (Some q) = q :: clean_line rest (Some q) false None.
Proof.
intros Hq Hprev. cbn [clean_line negb andb].
assert (Hquote : Ascii.eqb q dquote || Ascii.eqb q squote = true).
{ unfold is_quote in Hq. now rewrite (Ascii.eqb_sym q dquote), (Ascii.eqb_sym q squote). }
rewrite Hquote, Ascii.eqb_refl.
destruct prev as [p|]; [rewrite Hprev|]; reflexivity.
Qed.

Lemma clean_line_nil (prev : option ascii) (in_string : bool) (quote_char : option ascii) :
  clean_line [] prev in_string quote_char = [].
Proof. reflexivity. Qed.

Lemma quote_not_backslash (q : ascii) : is_quote q = true -> Ascii.eqb q backslash = false.
Proof.
unfold is_quote. intros H. apply orb_true_iff in H as [H | H];
  apply Ascii.eqb_eq in H; subst q; reflexivity.
Qed.

Lemma strip_comments_plain (content : text) :
  has_char dquote content = false -> has_char squote content = false ->
  strip_comments content = _remove_comments content.
Proof.
intros Hd Hs. rewrite remove_comments_lines. unfold strip_comments. f_equal.
rewrite <- (join_split_on newline content) in Hd, Hs.
rewrite has_char_join in Hd, Hs by reflexivity.
induction (split_on newline content) as [|l ls IH]; [reflexivity|].
cbn [existsb] in Hd, Hs.
apply orb_false_iff in Hd as [Hd Hdl]. apply orb_false_iff in Hs as [Hs Hsl].
cbn [map]. f_equal; [now apply clean_line_plain | now apply IH].
Qed.

End CleanLine.

(** X2.  The comment stripper of the usage scan, on one line and on a text.
    What it keeps of a line is a prefix of the line.  On a text without
    quotes it is [_remove_comments].  A stretch between two quotes of the
    same kind is kept whole, [#] included, when no backslash stands before
    either quote; and after a quote that is never closed the rest of the
    line is kept, [#] included. *)
Theorem X2_string_aware_comments :
  (forall line : text,
     exists rest, line = AnalysisWorker.clean_line line None false None ++ rest) /\
  (forall content : text,
     has_char dquote content = false -> has_char squote content = false ->
     AnalysisWorker.strip_comments content = _remove_comments content) /\
  (forall (a b c : text) (q : ascii),
     is_quote q = true ->
     has_char dquote a = false -> has_char squote a = false ->
     has_char "#" a = false -> has_char backslash a = false ->
     has_char q b = false -> has_char backslash b = false ->
     AnalysisWorker.clean_line (a ++ q :: b ++ q :: c) None false None
     = a ++ q :: b ++ q :: AnalysisWorker.clean_line c (Some q) false None /\
     AnalysisWorker.clean_line (a ++ q :: b) None false None = a ++ q :: b).
Proof.
split; [intros line; apply clean_line_prefix|].
split; [exact strip_comments_plain|].
intros a b c q Hq Had Has Hah Hab Hbq Hbb.
pose proof (last_seen_plain a None Hab I) as Hprev.
pose proof (last_seen_plain b (Some q) Hbb (quote_not_backslash q Hq)) as Hprev'.
split.
- rewrite clean_line_outside by assumption.
  rewrite clean_line_open by assumption.
  rewrite clean_line_inside by assumption.
  now rewrite clean_line_close by assumption.
- rewrite clean_line_outside by assumption.
  rewrite clean_line_open by assumption.
  rewrite <- (app_nil_r b) at 1. rewrite clean_line_inside by assumption.
  now rewrite clean_line_nil, app_nil_r.
Qed.

(* ===================================================================== *)
(** ** The usage analysis: duplicates, classification, locations *)
(* ===================================================================== *)

Section DuplicateScan.
Import AnalysisWorker.

Lemma has_key_set_other {V : Type} (d : dict V) (k k' : text) (v : V) :
  k' <> k -> has_key (set d k v) k' = has_key d k'.
Proof. intros H. unfold has_key. now rewrite get_set_other. Qed.

(** The files gathered per name: one file each, when the keys are distinct. *)
Lemma name_to_files_single (items : dict gfx_info) : forall d : dict (list text),
  (forall k fs, In (k, fs) d -> length fs <= 1) ->
  (forall k, In k (keys items) -> has_key d k = false) ->
  NoDup (keys items) ->
  forall k fs,
    In (k, fs)
       (fold_left (fun d item =>
            let d := if has_key d (fst item) then d else set d (fst item) [] in
            let files := match get d (fst item) with
                         | Some fs => fs
                         | None => []
                         end in
            set d (fst item) (files ++ [file_source (snd item)]))
          items d) ->
    length fs <= 1.
Proof.
induction items as [|[k0 info] items IH]; intros d Hlen Hfresh Hnodup k fs; [apply Hlen|].
cbn [fold_left fst snd]. inversion Hnodup as [|? ? Hnotin Hrest]; subst.
rewrite (Hfresh k0) by now left. rewrite get_set_same.
apply IH; [| |exact Hrest].
- intros k' fs' Hin. apply In_set in Hin as [[= -> ->] | Hin]; [simpl; lia|].
  apply In_set in Hin as [[= -> ->] | Hin]; [simpl; lia | now apply (Hlen k')].
- intros k' Hk'. assert (Hne : k' <> k0) by (intros ->; contradiction).
  rewrite !has_key_set_other by exact Hne. apply Hfresh. now right.
Qed.

Lemma find_duplicates_unique (gfx_data : dict gfx_info) :
  NoDup (keys gfx_data) -> find_duplicates gfx_data = [].
Proof.
intros Hnodup. unfold find_duplicates.
assert (Hsingle : forall k fs, In (k, fs) (name_to_files gfx_data) -> length fs <= 1).
{ apply name_to_files_single; [intros k fs [] | reflexivity | exact Hnodup]. }
revert Hsingle. generalize (name_to_files gfx_data). intros entries.
induction entries as [|[k fs] entries IH]; intros Hsingle; [reflexivity|].
cbn [fold_left fst snd].
assert (Hfs : length fs <= 1) by (apply (Hsingle k); now left).
replace (1 <? length fs) with false by (symmetry; apply Nat.ltb_ge; exact Hfs).
apply IH. intros k' fs' Hin. apply (Hsingle k'). now right.
Qed.

Variable path_filename : text -> text.
Variable gfx_data : dict gfx_info.

Lemma duplicates_scan_file r f :
  duplicate_definitions (scan_file path_filename gfx_data r f) = duplicate_definitions r.
Proof.
unfold scan_file. destruct (read_result f) as [content|]; [|reflexivity].
generalize (raw_matches (strip_comments content)). intros raws. revert r.
induction raws as [|raw raws IH]; intros r; simpl; [reflexivity|].
rewrite IH. unfold scan_match.
destruct (normalize path_filename raw) as [c|]; [|reflexivity].
unfold record_usage. destruct c; [reflexivity|].
destruct (get gfx_data (a :: c)); [|reflexivity].
destruct (text_eqb _ _); reflexivity.
Qed.

Lemma duplicates_check_orphan r n :
  duplicate_definitions (check_orphan gfx_data r n) = duplicate_definitions r.
Proof.
unfold check_orphan. destruct (mem n (used_gfx r)); [reflexivity|].
destruct (find (reconciles n) (used_gfx r)); reflexivity.
Qed.

Lemma duplicates_run files :
  duplicate_definitions (run path_filename gfx_data files) = find_duplicates gfx_data.
Proof.
rewrite run_after_scan.
set (r0 := mkResults [] [] (find_duplicates gfx_data) [] []).
assert (Hscan : forall fs r,
          duplicate_definitions (fold_left (scan_file path_filename gfx_data) fs r)
          = duplicate_definitions r).
{ induction fs as [|f fs IH]; intros r; simpl; [reflexivity|].
  now rewrite IH, duplicates_scan_file. }
assert (Horphan : forall ns r,
          duplicate_definitions (fold_left (check_orphan gfx_data) ns r)
          = duplicate_definitions r).
{ induction ns as [|n ns IH]; intros r; simpl; [reflexivity|].
  now rewrite IH, duplicates_check_orphan. }
now rewrite Horphan, Hscan.
Qed.

End DuplicateScan.

(** X3.  The analysis run reports no duplicate definition.  Its duplicate
    scan groups the table's entries by name, and the table, a [dict], holds
    each name once: every group has one file, and the report is empty. *)
Theorem X3_run_reports_no_duplicates :
  forall (path_filename : text -> text) (gfx_data : dict AnalysisWorker.gfx_info)
         (code_files : list AnalysisWorker.code_file),
    NoDup (keys gfx_data) ->
    AnalysisWorker.duplicate_definitions
      (AnalysisWorker.run path_filename gfx_data code_files) = [].
Proof.
intros path_filename gfx_data code_files Hnodup.
rewrite duplicates_run. now apply find_duplicates_unique.
Qed.

Lemma X3_run_reports_no_duplicates_witness :
  NoDup (keys Samples.banner_table) /\
  AnalysisWorker.duplicate_definitions
    (AnalysisWorker.run AnalysisWorker.posix_filename Samples.banner_table
       [Samples.x_user_file]) = [].
Proof.
assert (H : NoDup (keys Samples.banner_table)).
{ constructor; [intros [H | []]; discriminate H|]. constructor; [intros []|constructor]. }
split; [exact H|].
exact (X3_run_reports_no_duplicates AnalysisWorker.posix_filename Samples.banner_table
         [Samples.x_user_file] H).
Defined.

(* --------------------------------------------------------------------- *)
(** *** Substrings and stripping *)

Lemma startswith_prefix (p b : text) : startswith (p ++ b) p = true.
Proof. induction p as [|c p IH]; simpl; [now destruct b|]. now rewrite Ascii.eqb_refl. Qed.

Lemma contains_middle (a p b : text) : contains (a ++ p ++ b) p = true.
Proof.
induction a as [|c a IH].
- cbn [app]. pose proof (startswith_prefix p b) as H.
  destruct (p ++ b); cbn [contains]; now rewrite H.
- cbn [app contains]. rewrite IH. apply orb_true_r.
Qed.

Lemma contains_split (s p : text) :
  contains s p = true -> exists a b, s = a ++ p ++ b.
Proof.
induction s as [|c s IH]; intros H.
- cbn [contains] in H. rewrite orb_false_r in H. apply startswith_app in H.
  exists [], (skipn (length p) []). exact H.
- cbn [contains] in H. apply orb_true_iff in H as [H | H].
  + apply startswith_app in H. now exists [], (skipn (length p) (c :: s)).
  + destruct (IH H) as (a & b & ->). now exists (c :: a), b.
Qed.

(** What [dropwhile] leaves still holds a part that starts with a character
    the test refuses. *)
Lemma dropwhile_keeps (f : ascii -> bool) (x : ascii) (p b : text) (a : text) :
  f x = false -> exists a', dropwhile f (a ++ (x :: p) ++ b) = a' ++ (x :: p) ++ b.
Proof.
intros Hx. induction a as [|c a IH].
- exists []. simpl. now rewrite Hx.
- simpl. destruct (f c); [exact IH | now exists (c :: a)].
Qed.

Lemma strip_by_keeps (f : ascii -> bool) (s p : text) (x y : ascii) (p' p'' : text) :
  p = x :: p' -> rev p = y :: p'' -> f x = false -> f y = false ->
  contains s p = true -> contains (strip_by f s) p = true.
Proof.
intros Hp Hrev Hx Hy Hs. destruct (contains_split s p Hs) as (a & b & ->).
unfold strip_by. rewrite Hp.
destruct (dropwhile_keeps f x p' b a Hx) as (a' & ->).
rewrite <- Hp. rewrite !rev_app_distr, <- app_assoc, Hrev.
destruct (dropwhile_keeps f y p'' (rev a') (rev b) Hy) as (b' & ->).
rewrite <- Hrev, !rev_app_distr, !rev_involutive, <- app_assoc.
apply contains_middle.
Qed.

Lemma startswith_contains (s p : text) : startswith s p = true -> contains s p = true.
Proof. intros H. destruct s; cbn [contains]; now rewrite H. Qed.

Lemma startswith_shorter (s p q : text) :
  startswith s (p ++ q) = true -> startswith s p = true.
Proof.
revert s. induction p as [|c p IH]; intros s H; [now destruct s|].
destruct s as [|d s]; simpl in *; [discriminate|].
apply andb_true_iff in H as [-> H]. now apply IH.
Qed.

Section Marker.
Import AnalysisWorker.

Lemma marker_contains (s : text) : has_gfx_marker s = true -> contains s (str "GFX") = true.
Proof.
unfold has_gfx_marker. intros H. apply orb_true_iff in H as [H | H]; [|exact H].
apply startswith_contains.
change (str "GFX_") with (str "GFX" ++ str "_") in H. now apply startswith_shorter in H.
Qed.

Variable path_filename : text -> text.
Variable gfx_data : dict gfx_info.

(** Every normalized candidate holds the marker. *)
Lemma normalize_marker (raw n : text) :
  normalize path_filename raw = Some n -> contains n (str "GFX") = true.
Proof.
unfold normalize.
destruct (negb (text_eqb raw []) && has_gfx_marker raw) eqn:Hraw; [|discriminate].
apply andb_true_iff in Hraw as [_ Hraw].
assert (Hstrip : forall m, has_gfx_marker m = true ->
                 contains (strip_chars [dquote; squote] m) (str "GFX") = true).
{ intros m Hm. unfold strip_chars.
  apply (strip_by_keeps _ m (str "GFX") "G"%char "X"%char (str "FX") (str "FG"));
    try reflexivity. now apply marker_contains. }
destruct (has_char "/" raw || has_char backslash raw).
- destruct (has_gfx_marker (path_filename raw)) eqn:Hfile; [|discriminate].
  intros [= <-]. now apply Hstrip.
- intros [= <-]. now apply Hstrip.
Qed.

Lemma orphaned_scan_file r f :
  orphaned_gfx (scan_file path_filename gfx_data r f) = orphaned_gfx r.
Proof.
unfold scan_file. destruct (read_result f) as [content|]; [|reflexivity].
generalize (raw_matches (strip_comments content)). intros raws. revert r.
induction raws as [|raw raws IH]; intros r; simpl; [reflexivity|].
rewrite IH. unfold scan_match.
destruct (normalize path_filename raw) as [c|]; [|reflexivity].
unfold record_usage. destruct c; [reflexivity|].
destruct (get gfx_data (a :: c)); [|reflexivity].
destruct (text_eqb _ _); reflexivity.
Qed.

Lemma orphaned_scan_files fs : forall r,
  orphaned_gfx (fold_left (scan_file path_filename gfx_data) fs r) = orphaned_gfx r.
Proof.
induction fs as [|f fs IH]; intros r; simpl; [reflexivity|].
now rewrite IH, orphaned_scan_file.
Qed.

(** The used names of a run: those some file of the corpus is evidence for. *)
Lemma used_run files n :
  In n (used_gfx (run path_filename gfx_data files)) <->
  exists f, In f files /\ references path_filename gfx_data f n.
Proof.
rewrite run_used, used_scan_files. cbn [used_gfx].
split; [intros [[] | H]; exact H | auto].
Qed.

(** The orphaned names of a run. *)
Lemma orphaned_run files n :
  In n (orphaned_gfx (run path_filename gfx_data files)) <->
  In n (keys gfx_data) /\
  ~ In n (used_gfx (run path_filename gfx_data files)) /\
  forall u, In u (used_gfx (run path_filename gfx_data files)) -> reconciles n u = false.
Proof.
rewrite run_used. rewrite run_after_scan, orphaned_orphan_loop, orphaned_scan_files.
cbn [orphaned_gfx]. split; [intros [[] | H]; exact H | auto].
Qed.

End Marker.

(** X4.  The classification of a run.  A used name is a key of the table
    and is not orphaned; an orphaned name is a key of the table that no
    used name reconciles with; and every key of the table is used, or
    orphaned, or reconciled with some used name. *)
Theorem X4_run_classification :
  forall (path_filename : text -> text) (gfx_data : dict AnalysisWorker.gfx_info)
         (code_files : list AnalysisWorker.code_file) (n : text),
    let result := AnalysisWorker.run path_filename gfx_data code_files in
    (In n (AnalysisWorker.used_gfx result) ->
       In n (keys gfx_data) /\ ~ In n (AnalysisWorker.orphaned_gfx result)) /\
    (In n (AnalysisWorker.orphaned_gfx result) ->
       In n (keys gfx_data) /\
       forall u, In u (AnalysisWorker.used_gfx result) ->
                 AnalysisWorker.reconciles n u = false) /\
    (In n (keys gfx_data) ->
       In n (AnalysisWorker.used_gfx result) \/
       In n (AnalysisWorker.orphaned_gfx result) \/
       exists u, In u (AnalysisWorker.used_gfx result) /\
                 AnalysisWorker.reconciles n u = true).
Proof.
intros path_filename gfx_data code_files n result. unfold result. split; [|split].
- intros Hused. split.
  + apply used_run in Hused as (f & _ & content & raw & _ & _ & _ & _ & info & Hget & _).
    apply get_In in Hget. apply (in_map fst) in Hget. exact Hget.
  + rewrite orphaned_run. intros (_ & Hnot & _). contradiction.
- rewrite orphaned_run. intros (Hkey & _ & Hrec). now split.
- intros Hkey. rewrite orphaned_run.
  set (used := AnalysisWorker.used_gfx
                 (AnalysisWorker.run path_filename gfx_data code_files)).
  destruct (mem n used) eqn:Hmem; [left; now apply mem_In|].
  apply mem_false in Hmem. right.
  destruct (find (AnalysisWorker.reconciles n) used) as [u|] eqn:Hfind.
  + right. apply find_some in Hfind. now exists u.
  + left. rewrite find_none_iff in Hfind. auto.
Qed.

(** X6.  Every name a run reports as used is non-empty and holds the
    upper-case marker [GFX]; a key of the table without it is never used. *)
Theorem X6_used_names_hold_marker :
  forall (path_filename : text -> text) (gfx_data : dict AnalysisWorker.gfx_info)
         (code_files : list AnalysisWorker.code_file) (n : text),
    In n (AnalysisWorker.used_gfx (AnalysisWorker.run path_filename gfx_data code_files)) ->
    n <> [] /\ contains n (str "GFX") = true.
Proof.
intros path_filename gfx_data code_files n Hused.
apply used_run in Hused as (f & _ & content & raw & _ & _ & Hnorm & Hne & _).
split; [exact Hne | exact (normalize_marker path_filename raw n Hnorm)].
Qed.

Lemma X6_used_names_hold_marker_witness :
  In (str "GFX_x")
     (AnalysisWorker.used_gfx
        (AnalysisWorker.run AnalysisWorker.posix_filename Samples.x_table
           [Samples.x_user_file])) /\
  str "GFX_x" <> [] /\ contains (str "GFX_x") (str "GFX") = true.
Proof.
assert (H : In (str "GFX_x")
              (AnalysisWorker.used_gfx
                 (AnalysisWorker.run AnalysisWorker.posix_filename Samples.x_table
                    [Samples.x_user_file]))) by (vm_compute; now left).
split; [exact H|].
exact (X6_used_names_hold_marker AnalysisWorker.posix_filename Samples.x_table
         [Samples.x_user_file] (str "GFX_x") H).
Defined.

(* --------------------------------------------------------------------- *)
(** *** The locations recorded for a name *)

Section Locations.
Import AnalysisWorker.

Variable path_filename : text -> text.
Variable gfx_data : dict gfx_info.

(** The files listed under [n] in a locations map. *)
Lemma files_of_locations (r : results) (n : text) :
  files_of r n = match get (usage_locations r) n with Some fs => fs | None => [] end.
Proof. reflexivity. Qed.

Lemma listed_set_same (locs : dict (list text)) (g : text) (fs : list text) (n q : text) :
  In q (match get (set locs g fs) n with Some l => l | None => [] end) ->
  (n = g /\ In q fs) \/ In q (match get locs n with Some l => l | None => [] end).
Proof.
destruct (text_eqb n g) eqn:E.
- apply text_eqb_eq in E. subst n. rewrite get_set_same. auto.
- apply text_eqb_neq in E. rewrite get_set_other by exact E. auto.
Qed.

(** What borrowing adds under a name: files listed under the used name,
    other than the file that defines the borrower. *)
Lemma listed_borrow (g u : text) (locs : dict (list text)) (n q : text) :
  In q (match get (borrow_locations gfx_data g u locs) n with Some l => l | None => [] end) ->
  In q (match get locs n with Some l => l | None => [] end) \/
  (n = g /\
   In q (match get locs u with Some l => l | None => [] end) /\
   forall info, get gfx_data g = Some info -> q <> file_source info).
Proof.
unfold borrow_locations. destruct (get locs u) as [used_files|] eqn:Hu; [|auto].
set (definition_file := match get gfx_data g with
                        | Some info => file_source info
                        | None => []
                        end).
set (start := if has_key locs g then locs else set locs g []).
assert (Hstart : In q (match get start n with Some l => l | None => [] end) ->
                 In q (match get locs n with Some l => l | None => [] end)).
{ unfold start. destruct (has_key locs g); [auto|].
  intros H. apply listed_set_same in H as [[_ []] | H]. exact H. }
assert (Hfold : forall files acc,
  In q (match get
          (fold_left (fun locations usage_file =>
               if text_eqb usage_file definition_file then locations
               else set locations g
                      (match get locations g with Some fs => fs | None => [] end
                       ++ [usage_file]))
             files acc) n with Some l => l | None => [] end) ->
  In q (match get acc n with Some l => l | None => [] end) \/
  (n = g /\ In q files /\ q <> definition_file)).
{ induction files as [|x files IH]; intros acc H; [now left|].
  cbn [fold_left] in H. apply IH in H as [H | (Hn & Hq & Hne)].
  - destruct (text_eqb x definition_file) eqn:Hx; [now left|].
    apply listed_set_same in H as [[Hn Hq] | H]; [|now left].
    apply in_app_or in Hq as [Hq | [<- | []]].
    + left. now subst n.
    + right. split; [exact Hn|]. split; [now left|]. now apply text_eqb_neq.
  - right. split; [exact Hn|]. split; [now right | exact Hne]. }
intros H. apply Hfold in H as [H | (Hn & Hq & Hne)]; [left; now apply Hstart|].
right. split; [exact Hn|]. split; [exact Hq|].
intros info Hget. unfold definition_file in Hne. now rewrite Hget in Hne.
Qed.

Lemma listed_check_orphan (r : results) (g n q : text) :
  In q (files_of (check_orphan gfx_data r g) n) ->
  In q (files_of r n) \/
  (n = g /\ (exists u, In q (files_of r u)) /\
   forall info, get gfx_data g = Some info -> q <> file_source info).
Proof.
unfold check_orphan. destruct (mem g (used_gfx r)); [auto|].
destruct (find (reconciles g) (used_gfx r)) as [u|]; [|auto].
unfold files_of. cbn [usage_locations]. intros H.
apply listed_borrow in H as [H | (Hn & Hq & Hne)]; [now left|].
right. split; [exact Hn|]. split; [now exists u | exact Hne].
Qed.

(** Through the orphan loop, a listed file is one that was listed before,
    under the name or under another, and is never the file that defines
    the name. *)
Lemma listed_orphan_loop (names : list text) : forall (r : results) (n q : text),
  (forall m p, In p (files_of r m) ->
     forall info, get gfx_data m = Some info -> p <> file_source info) ->
  In q (files_of (fold_left (check_orphan gfx_data) names r) n) ->
  (exists u, In q (files_of r u)) /\
  forall info, get gfx_data n = Some info -> q <> file_source info.
Proof.
induction names as [|g names IH]; intros r n q Hinv H.
- split; [now exists n | now apply Hinv].
- cbn [fold_left] in H. apply IH in H.
  + destruct H as [(u & Hu) Hne]. split; [|exact Hne].
    apply listed_check_orphan in Hu as [Hu | (_ & Hu & _)]; [now exists u | exact Hu].
  + intros m p Hp. apply listed_check_orphan in Hp as [Hp | (-> & _ & Hne)];
      [now apply Hinv | exact Hne].
Qed.

End Locations.

(** X5.  The locations a run records.  A file listed under a name, whether
    by the scan or borrowed in the orphan loop from a reconciled used name,
    is a file of the corpus that is evidence for some used name, and it is
    never the file that defines the name it is listed under. *)
Theorem X5_usage_locations :
  forall (path_filename : text -> text) (gfx_data : dict AnalysisWorker.gfx_info)
         (code_files : list AnalysisWorker.code_file) (n q : text),
    In q (AnalysisWorker.files_of
            (AnalysisWorker.run path_filename gfx_data code_files) n) ->
    (exists f u, In f code_files /\ q = AnalysisWorker.path_str f /\
                 AnalysisWorker.references path_filename gfx_data f u) /\
    (forall info, get gfx_data n = Some info -> q <> AnalysisWorker.file_source info).
Proof.
intros path_filename gfx_data code_files n q H.
rewrite run_after_scan in H.
set (scanned := fold_left (AnalysisWorker.scan_file path_filename gfx_data) code_files
                  (AnalysisWorker.mkResults [] []
                     (AnalysisWorker.find_duplicates gfx_data) [] [])) in *.
assert (Hscan : forall m p, In p (AnalysisWorker.files_of scanned m) ->
          exists f, In f code_files /\ p = AnalysisWorker.path_str f /\
                    AnalysisWorker.references path_filename gfx_data f m).
{ intros m p Hp. unfold scanned in Hp. rewrite files_scan_files in Hp.
  destruct Hp as [[] | Hp]. exact Hp. }
apply listed_orphan_loop in H.
- destruct H as [(u & Hu) Hne]. split; [|exact Hne].
  destruct (Hscan u q Hu) as (f & Hf & Hq & Href). now exists f, u.
- intros m p Hp info Hget. destruct (Hscan m p Hp) as (f & _ & -> & Href).
  destruct Href as (content & raw & _ & _ & _ & _ & info' & Hget' & Hne).
  rewrite Hget in Hget'. now injection Hget' as <-.
Qed.

Lemma X5_usage_locations_witness :
  In (str "interface/main.gui")
     (AnalysisWorker.files_of
        (AnalysisWorker.run AnalysisWorker.posix_filename Samples.x_table
           [Samples.x_definition_file; Samples.x_user_file]) (str "GFX_x")) /\
  str "interface/main.gui" <> str "interface/x.gfx".
Proof.
assert (H : In (str "interface/main.gui")
              (AnalysisWorker.files_of
                 (AnalysisWorker.run AnalysisWorker.posix_filename Samples.x_table
                    [Samples.x_definition_file; Samples.x_user_file]) (str "GFX_x")))
  by (vm_compute; now left).
split; [exact H|].
exact (proj2 (X5_usage_locations AnalysisWorker.posix_filename Samples.x_table
                [Samples.x_definition_file; Samples.x_user_file]
                (str "GFX_x") (str "interface/main.gui") H)
         (Samples.defined_in (str "interface/x.gfx")) eq_refl).
Defined.

(* ===================================================================== *)
(** ** The acceptance rule and the reconciliation, over a run *)
(* ===================================================================== *)

Section Acceptance.
Import AnalysisWorker.

Lemma marker_is_contains (s : text) : has_gfx_marker s = contains s (str "GFX").
Proof.
destruct (contains s (str "GFX")) eqn:E.
- unfold has_gfx_marker. rewrite E. apply orb_true_r.
- destruct (has_gfx_marker s) eqn:H; [|reflexivity].
  apply marker_contains in H. congruence.
Qed.

Variable path_filename : text -> text.
Variable gfx_data : dict gfx_info.

(** What [normalize] asks of a raw match, spelled out. *)
Lemma normalize_spec (raw n : text) :
  normalize path_filename raw = Some n <->
  contains raw (str "GFX") = true /\
  contains (SpecWords.candidate_of path_filename raw) (str "GFX") = true /\
  n = strip_chars [dquote; squote] (SpecWords.candidate_of path_filename raw).
Proof.
unfold normalize, SpecWords.candidate_of. rewrite !marker_is_contains.
destruct raw as [|c raw]; [cbn; split; [discriminate | intros [[=] _]]|].
cbn [text_eqb negb andb].
destruct (contains (c :: raw) (str "GFX")) eqn:Hraw;
  [|split; [discriminate | intros [[=] _]]].
destruct (has_char "/" (c :: raw) || has_char backslash (c :: raw)).
- destruct (contains (path_filename (c :: raw)) (str "GFX")) eqn:Hfile.
  + split; [intros [= <-]; auto | intros (_ & _ & ->); reflexivity].
  + split; [discriminate | intros (_ & [=] & _)].
- split; [intros [= <-]; auto | intros (_ & _ & ->); reflexivity].
Qed.

(** The evidence for a name, with the conditions of the scan loop spelled
    out. *)
Lemma references_spec (f : code_file) (n : text) :
  references path_filename gfx_data f n <->
  exists content raw info,
    read_result f = Some content /\
    In raw (raw_matches (strip_comments content)) /\
    contains raw (str "GFX") = true /\
    contains (SpecWords.candidate_of path_filename raw) (str "GFX") = true /\
    n = strip_chars [dquote; squote] (SpecWords.candidate_of path_filename raw) /\
    n <> [] /\
    get gfx_data n = Some info /\
    path_str f <> file_source info.
Proof.
unfold references, accepted. split.
- intros (content & raw & Hread & Hin & Hnorm & Hne & info & Hget & Hpath).
  apply normalize_spec in Hnorm as (H1 & H2 & H3).
  exists content, raw, info. repeat split; assumption.
- intros (content & raw & info & Hread & Hin & H1 & H2 & H3 & Hne & Hget & Hpath).
  exists content, raw. repeat split; try assumption.
  + apply normalize_spec. repeat split; assumption.
  + now exists info.
Qed.

End Acceptance.

(** C7 (amended).  For every table, corpus and host [os.path]: after the
    scan loop a name is in the used set exactly when some readable file has
    a raw match that carries the marker [GFX], in that case; that stands
    for a candidate carrying it too (the stem of the file name when the
    match is a path, the match itself otherwise); whose candidate, quotes
    stripped from its ends, is the name; and the name is not empty, is a
    key of the table, and the file is not the one recorded as defining it.
    The paths recorded for the name in [usage_locations] are exactly those
    files' paths, and the used set of the whole run is the scan loop's, so
    every used name carries the marker.  The file that defines a name is
    never evidence for it, and a name of the table that no file is
    evidence for is classified orphaned when no used name reconciles with
    it. *)
Theorem C7_usage_acceptance :
  forall (path_filename : text -> text) (gfx_data : dict AnalysisWorker.gfx_info)
         (code_files : list AnalysisWorker.code_file) (n path : text),
    let scanned :=
      fold_left (AnalysisWorker.scan_file path_filename gfx_data) code_files
        (AnalysisWorker.mkResults [] [] (AnalysisWorker.find_duplicates gfx_data) [] []) in
    let result := AnalysisWorker.run path_filename gfx_data code_files in
    let evidence (f : AnalysisWorker.code_file) :=
      exists content raw info,
        AnalysisWorker.read_result f = Some content /\
        In raw (AnalysisWorker.raw_matches (AnalysisWorker.strip_comments content)) /\
        contains raw (str "GFX") = true /\
        contains (SpecWords.candidate_of path_filename raw) (str "GFX") = true /\
        n = strip_chars [dquote; squote] (SpecWords.candidate_of path_filename raw) /\
        n <> [] /\
        get gfx_data n = Some info /\
        AnalysisWorker.path_str f <> AnalysisWorker.file_source info in
    (In n (AnalysisWorker.used_gfx scanned) <-> exists f, In f code_files /\ evidence f) /\
    (In path (AnalysisWorker.files_of scanned n) <->
       exists f, In f code_files /\ path = AnalysisWorker.path_str f /\ evidence f) /\
    AnalysisWorker.used_gfx result = AnalysisWorker.used_gfx scanned /\
    (In n (AnalysisWorker.used_gfx result) -> contains n (str "GFX") = true) /\
    (forall f info,
       get gfx_data n = Some info ->
       AnalysisWorker.path_str f = AnalysisWorker.file_source info ->
       ~ evidence f) /\
    (In n (keys gfx_data) ->
     (forall f, In f code_files -> ~ evidence f) ->
     (forall u, In u (AnalysisWorker.used_gfx result) -> AnalysisWorker.reconciles n u = false) ->
     In n (AnalysisWorker.orphaned_gfx result)).
Proof.
intros path_filename gfx_data code_files n path scanned result evidence.
assert (Hev : forall f, AnalysisWorker.references path_filename gfx_data f n <-> evidence f)
  by (intros f; apply references_spec).
assert (Hused : In n (AnalysisWorker.used_gfx scanned) <->
                exists f, In f code_files /\ evidence f).
{ unfold scanned. rewrite used_scan_files. cbn [AnalysisWorker.used_gfx]. split.
  - intros [[] | (f & Hf & Href)]. exists f. split; [exact Hf | now apply Hev].
  - intros (f & Hf & He). right. exists f. split; [exact Hf | now apply Hev]. }
assert (Hrun : AnalysisWorker.used_gfx result = AnalysisWorker.used_gfx scanned)
  by apply run_used.
split; [exact Hused|]. split; [|split; [exact Hrun|split; [|split]]].
- unfold scanned. rewrite files_scan_files. unfold AnalysisWorker.files_of at 1.
  cbn [AnalysisWorker.usage_locations get]. split.
  + intros [[] | (f & Hf & Hp & Href)]. exists f. repeat split; try assumption. now apply Hev.
  + intros (f & Hf & Hp & He). right. exists f. repeat split; try assumption. now apply Hev.
- rewrite Hrun, Hused. intros (f & _ & content & raw & info & _ & _ & _ & Hc & -> & _).
  unfold strip_chars.
  apply (strip_by_keeps _ _ (str "GFX") "G"%char "X"%char (str "FX") (str "FG"));
    try reflexivity. exact Hc.
- intros f info Hget Hpath (content & raw & info' & _ & _ & _ & _ & _ & _ & Hget' & Hne).
  rewrite Hget in Hget'. injection Hget' as <-. contradiction.
- intros Hkey Hnoref Hrec. unfold result. rewrite run_after_scan.
  apply orphaned_orphan_loop. right. fold scanned.
  split; [exact Hkey|]. split.
  + rewrite Hused. intros (f & Hf & He). exact (Hnoref f Hf He).
  + intros u Hu. apply Hrec. now rewrite Hrun.
Qed.

(** C8.  In a run, and in the orphan loop on any incoming used set, a
    defined name is declared orphaned only when it is not in the used set
    and reconciliation fails against every used name, whether by equality
    once a leading [GFX_] is stripped from both names or by one name
    occurring in the other; a name with a reconciled match among the used
    names is never placed in the orphaned set. *)
Theorem C8_fuzzy_reconciliation :
  (forall (path_filename : text -> text) (gfx_data : dict AnalysisWorker.gfx_info)
          (code_files : list AnalysisWorker.code_file) (n : text),
     let result := AnalysisWorker.run path_filename gfx_data code_files in
     (In n (AnalysisWorker.orphaned_gfx result) ->
        In n (keys gfx_data) /\ ~ In n (AnalysisWorker.used_gfx result) /\
        forall u, In u (AnalysisWorker.used_gfx result) ->
                  SpecWords.spec_reconciles n u = false) /\
     (forall u, In u (AnalysisWorker.used_gfx result) ->
        SpecWords.spec_reconciles n u = true ->
        ~ In n (AnalysisWorker.orphaned_gfx result))) /\
  (forall (gfx_data : dict AnalysisWorker.gfx_info) (r : AnalysisWorker.results) (n : text),
     AnalysisWorker.orphaned_gfx r = [] ->
     let checked := fold_left (AnalysisWorker.check_orphan gfx_data) (keys gfx_data) r in
     (In n (AnalysisWorker.orphaned_gfx checked) ->
        In n (keys gfx_data) /\ ~ In n (AnalysisWorker.used_gfx r) /\
        forall u, In u (AnalysisWorker.used_gfx r) -> SpecWords.spec_reconciles n u = false) /\
     (forall u, In u (AnalysisWorker.used_gfx r) ->
        SpecWords.spec_reconciles n u = true ->
        ~ In n (AnalysisWorker.orphaned_gfx checked))).
Proof.
assert (Hspec : forall n u, AnalysisWorker.reconciles n u = false ->
                            SpecWords.spec_reconciles n u = false).
{ intros n u Hcode. destruct (SpecWords.spec_reconciles n u) eqn:E; [|reflexivity].
  apply spec_reconciles_reconciles in E. congruence. }
split.
- intros path_filename gfx_data code_files n result. unfold result. split.
  + rewrite orphaned_run. intros (Hkey & Hunused & Hrec). auto.
  + intros u Hu Hrec. rewrite orphaned_run. intros (_ & _ & Hnone).
    rewrite (Hspec n u (Hnone u Hu)) in Hrec. discriminate.
- intros gfx_data r n Hempty checked.
  assert (Hchar : In n (AnalysisWorker.orphaned_gfx checked) ->
                  In n (keys gfx_data) /\ ~ In n (AnalysisWorker.used_gfx r) /\
                  forall u, In u (AnalysisWorker.used_gfx r) ->
                            AnalysisWorker.reconciles n u = false).
  { unfold checked. rewrite orphaned_orphan_loop, Hempty.
    intros [[] | H]. exact H. }
  split.
  + intros Hin. destruct (Hchar Hin) as (Hkey & Hunused & Hrec). auto.
  + intros u Hu Hrec Hin. destruct (Hchar Hin) as (_ & _ & Hnone).
    rewrite (Hspec n u (Hnone u Hu)) in Hrec. discriminate.
Qed.

(** A run in which an event file refers to [GFX_banner_small]: that name is
    the one used name; [GFX_banner], which occurs in it, is reconciled and
    not orphaned; [GFX_unrelated] is orphaned. *)
Lemma C8_fuzzy_reconciliation_witness :
  AnalysisWorker.used_gfx
    (AnalysisWorker.run AnalysisWorker.posix_filename Samples.banner_family
       [Samples.banner_reference]) = [str "GFX_banner_small"] /\
  SpecWords.spec_reconciles (str "GFX_banner") (str "GFX_banner_small") = true /\
  ~ In (str "GFX_banner")
      (AnalysisWorker.orphaned_gfx
         (AnalysisWorker.run AnalysisWorker.posix_filename Samples.banner_family
            [Samples.banner_reference])) /\
  AnalysisWorker.orphaned_gfx
    (AnalysisWorker.run AnalysisWorker.posix_filename Samples.banner_family
       [Samples.banner_reference]) = [str "GFX_unrelated"].
Proof.
split; [vm_compute; reflexivity|]. split; [vm_compute; reflexivity|]. split.
- apply (proj2 (proj1 C8_fuzzy_reconciliation AnalysisWorker.posix_filename
                  Samples.banner_family [Samples.banner_reference] (str "GFX_banner"))
           (str "GFX_banner_small")).
  + vm_compute. left. reflexivity.
  + vm_compute. reflexivity.
- vm_compute. reflexivity.
Defined.

(* ===================================================================== *)
(** ** Anchoring on the canvas *)
(* ===================================================================== *)

Lemma lower_char_idempotent (c : ascii) : lower_char (lower_char c) = lower_char c.
Proof.
destruct c as [b0 b1 b2 b3 b4 b5 b6 b7].
destruct b0, b1, b2, b3, b4, b5, b6, b7; vm_compute; reflexivity.
Qed.

Lemma lower_idempotent (s : text) : lower (lower s) = lower s.
Proof.
unfold lower. rewrite map_map. apply map_ext. intros c. apply lower_char_idempotent.
Qed.

Section Anchors.
Import GUIPreviewCanvas.

Ltac anchor_cases o :=
  destruct (text_eqb o (str "center"));
  [|destruct (text_eqb o (str "center_up"));
    [|destruct (text_eqb o (str "center_down"));
      [|destruct (text_eqb o (str "left_up"));
        [|destruct (text_eqb o (str "right_up"));
          [|destruct (text_eqb o (str "left_down"));
            [|destruct (text_eqb o (str "right_down"))]]]]]].

Lemma anchor_translation (ws : Size) (x y w h dx dy : Z) (o : text) :
  _apply_orientation ws (x + dx) (y + dy) w h o
  = ((fst (_apply_orientation ws x y w h o) + dx)%Z,
     (snd (_apply_orientation ws x y w h o) + dy)%Z).
Proof.
unfold _apply_orientation. destruct ws as [cw ch].
anchor_cases (lower o); cbn [fst snd]; f_equal; lia.
Qed.

Lemma anchor_within (ws : Size) (w h : Z) (o : text) :
  (0 <= w <= width ws)%Z -> (0 <= h <= height ws)%Z ->
  (0 <= fst (_apply_orientation ws 0 0 w h o)
   /\ fst (_apply_orientation ws 0 0 w h o) + w <= width ws
   /\ 0 <= snd (_apply_orientation ws 0 0 w h o)
   /\ snd (_apply_orientation ws 0 0 w h o) + h <= height ws)%Z.
Proof.
unfold _apply_orientation. destruct ws as [cw ch]. cbn [width height]. intros Hw Hh.
anchor_cases (lower o); cbn [fst snd]; Z.div_mod_to_equations; lia.
Qed.

Lemma anchor_center (ws : Size) (x y w h : Z) :
  let placed := _apply_orientation ws x y w h (str "center") in
  (0 <= (width ws - w) - 2 * (fst placed - x) <= 1)%Z /\
  (0 <= (height ws - h) - 2 * (snd placed - y) <= 1)%Z.
Proof.
destruct ws as [cw ch].
change (_apply_orientation (mkSize cw ch) x y w h (str "center"))
  with (((cw - w) / 2 + x)%Z, ((ch - h) / 2 + y)%Z).
cbn [fst snd width height]. Z.div_mod_to_equations. lia.
Qed.

Lemma anchor_unknown (ws : Size) (x y w h : Z) (o : text) :
  In (lower o) [str "center"; str "center_up"; str "center_down"; str "right_up";
                str "left_down"; str "right_down"] \/
  _apply_orientation ws x y w h o = (x, y).
Proof.
unfold _apply_orientation. destruct ws as [cw ch].
destruct (text_eqb (lower o) (str "center")) eqn:E1;
  [apply text_eqb_eq in E1; rewrite E1; left; simpl; tauto|].
destruct (text_eqb (lower o) (str "center_up")) eqn:E2;
  [apply text_eqb_eq in E2; rewrite E2; left; simpl; tauto|].
destruct (text_eqb (lower o) (str "center_down")) eqn:E3;
  [apply text_eqb_eq in E3; rewrite E3; left; simpl; tauto|].
destruct (text_eqb (lower o) (str "left_up")) eqn:E4; [now right|].
destruct (text_eqb (lower o) (str "right_up")) eqn:E5;
  [apply text_eqb_eq in E5; rewrite E5; left; simpl; tauto|].
destruct (text_eqb (lower o) (str "left_down")) eqn:E6;
  [apply text_eqb_eq in E6; rewrite E6; left; simpl; tauto|].
destruct (text_eqb (lower o) (str "right_down")) eqn:E7;
  [apply text_eqb_eq in E7; rewrite E7; left; simpl; tauto|].
now right.
Qed.

Lemma anchor_case_blind (ws : Size) (x y w h : Z) (o : text) :
  _apply_orientation ws x y w h (lower o) = _apply_orientation ws x y w h o.
Proof. unfold _apply_orientation. now rewrite lower_idempotent. Qed.

End Anchors.

(** X7.  An element that fits the canvas and has no offset of its own is
    drawn inside the canvas under every orientation, known or not; and
    under [center] the free space on the two sides of an element differs by
    at most one pixel, on either axis and for any offset. *)
Theorem X7_anchored_element_within_canvas :
  forall (window_size : Size) (w h : Z) (orientation : text),
    (0 <= w <= width window_size)%Z ->
    (0 <= h <= height window_size)%Z ->
    let placed := GUIPreviewCanvas._apply_orientation window_size 0 0 w h orientation in
    (0 <= fst placed /\ fst placed + w <= width window_size /\
     0 <= snd placed /\ snd placed + h <= height window_size)%Z /\
    forall x y : Z,
      let centred := GUIPreviewCanvas._apply_orientation window_size x y w h (str "center") in
      (0 <= (width window_size - w) - 2 * (fst centred - x) <= 1)%Z /\
      (0 <= (height window_size - h) - 2 * (snd centred - y) <= 1)%Z.
Proof.
intros window_size w h orientation Hw Hh placed. split.
- now apply anchor_within.
- intros x y. apply anchor_center.
Qed.

Lemma X7_anchored_element_within_canvas_witness :
  (0 <= 100 <= width (mkSize 800 600))%Z /\
  (0 <= 31 <= height (mkSize 800 600))%Z /\
  GUIPreviewCanvas._apply_orientation (mkSize 800 600) 0 0 100 31 (str "Center_Down")
  = (350, 569)%Z /\
  (0 <= 350 /\ 350 + 100 <= 800 /\ 0 <= 569 /\ 569 + 31 <= 600)%Z.
Proof.
assert (Hw : (0 <= 100 <= width (mkSize 800 600))%Z) by (cbn; lia).
assert (Hh : (0 <= 31 <= height (mkSize 800 600))%Z) by (cbn; lia).
split; [exact Hw|]. split; [exact Hh|]. split; [reflexivity|].
exact (proj1 (X7_anchored_element_within_canvas (mkSize 800 600) 100 31
                (str "Center_Down") Hw Hh)).
Defined.

(** X8.  Anchoring commutes with moving the element: an offset added to the
    position is added to the result, under every orientation.  The
    orientation is read without regard to case, and one that is none of the
    six that move an element leaves the position as it is. *)
Theorem X8_anchoring_and_offsets :
  forall (window_size : Size) (x y w h dx dy : Z) (orientation : text),
    GUIPreviewCanvas._apply_orientation window_size (x + dx) (y + dy) w h orientation
    = ((fst (GUIPreviewCanvas._apply_orientation window_size x y w h orientation) + dx)%Z,
       (snd (GUIPreviewCanvas._apply_orientation window_size x y w h orientation) + dy)%Z) /\
    GUIPreviewCanvas._apply_orientation window_size x y w h (lower orientation)
    = GUIPreviewCanvas._apply_orientation window_size x y w h orientation /\
    (In (lower orientation)
        [str "center"; str "center_up"; str "center_down"; str "right_up";
         str "left_down"; str "right_down"] \/
     GUIPreviewCanvas._apply_orientation window_size x y w h orientation = (x, y)).
Proof.
intros window_size x y w h dx dy orientation.
split; [apply anchor_translation|]. split; [apply anchor_case_blind | apply anchor_unknown].
Qed.

(* ===================================================================== *)
(** ** What the Block Extractor returns *)
(* ===================================================================== *)

(** The brace-matching loop ends at depth zero only just after the closing
    brace of a balanced stretch. *)
Lemma match_braces_closed (rest : text) : forall (pos : nat) (d : Z) (pos' : nat),
  (0 < d)%Z ->
  match_braces rest pos d = (pos', 0%Z) ->
  exists body post,
    rest = body ++ Pat.close_brace :: post /\
    pos' = pos + length body + 1 /\
    open_throughout d body = true /\
    brace_depth d body = 1%Z.
Proof.
induction rest as [|c rest IH]; intros pos d pos' Hd H.
- simpl in H. injection H as _ H. lia.
- cbn [match_braces] in H.
  replace (0 <? d)%Z with true in H by (symmetry; now apply Z.ltb_lt).
  fold (brace_step d c) in H.
  destruct (Z.eq_dec (brace_step d c) 0) as [Hzero | Hpos].
  + rewrite Hzero, match_braces_done in H. injection H as <-.
    unfold brace_step in Hzero.
    destruct (Ascii.eqb c Pat.open_brace); [lia|].
    destruct (Ascii.eqb c Pat.close_brace) eqn:Hc; [|lia].
    apply Ascii.eqb_eq in Hc. subst c.
    exists [], rest. repeat split; cbn; lia.
  + assert (Hstep : (0 < brace_step d c)%Z).
    { unfold brace_step in *. destruct (Ascii.eqb c Pat.open_brace); [lia|].
      destruct (Ascii.eqb c Pat.close_brace); lia. }
    destruct (IH (S pos) (brace_step d c) pos' Hstep H) as (body & post & -> & -> & Ho & Hb).
    exists (c :: body), post. repeat split.
    * cbn [length]. lia.
    * cbn [open_throughout]. rewrite Ho.
      replace (0 <? brace_step d c)%Z with true by (symmetry; now apply Z.ltb_lt).
      reflexivity.
    * exact Hb.
Qed.


Section BlockSound.
Variable fl : flags.
Variable pattern : regex.
Variable A : Type.
Variable emit : A -> Match -> text -> A.
Variable content : text.
Variable Q : A -> Prop.
Hypothesis emit_keeps : forall acc m b, Q acc -> closed_block content b -> Q (emit acc m b).

(** Whatever the loop hands to [emit] is a closed block of the text. *)
Lemma block_loop_sound (fuel : nat) : forall (p : nat) (acc : A),
  Q acc -> Q (block_loop fuel fl pattern emit content p acc).
Proof.
induction fuel as [|fuel IH]; intros p acc Hacc; [exact Hacc|].
cbn [block_loop]. destruct (search fl pattern (skipn p content)) as [m|]; [|exact Hacc].
destruct (match_braces _ _ 1) as [pos bc] eqn:Hmb.
apply IH. destruct (bc =? 0)%Z eqn:Hbc; [|exact Hacc].
apply Z.eqb_eq in Hbc. subst bc.
apply match_braces_closed in Hmb as (body & post & Hskip & -> & Hopen & Hdepth); [|lia].
apply emit_keeps; [exact Hacc|].
set (start := p + m_end m - 1 + 1) in *.
assert (Hbody : slice content start (start + length body + 1 - 1) = body).
{ unfold slice. rewrite Hskip.
  replace (start + length body + 1 - 1 - start) with (length body) by lia.
  apply firstn_app_length. }
rewrite Hbody. split.
- unfold balanced. rewrite Hopen, Hdepth. reflexivity.
- exists (firstn start content), post.
  rewrite <- (firstn_skipn start content) at 1. now rewrite Hskip.
Qed.

End BlockSound.

Lemma closed_blocks_collected (content : text) (acc : list text) (m : Match) (b : text) :
  Forall (closed_block content) acc -> closed_block content b ->
  Forall (closed_block content) (collect acc m b).
Proof.
intros Hacc Hb. unfold collect. apply Forall_app. split; [exact Hacc | now constructor].
Qed.

Lemma closed_blocks_set (content : text) (d : dict text) (k b : text) :
  Forall (closed_block content) (values d) -> closed_block content b ->
  Forall (closed_block content) (values (set d k b)).
Proof.
intros Hd Hb. unfold values in *. rewrite Forall_map in *. rewrite Forall_forall in *.
intros [k' v] Hin. apply In_set in Hin as [[= -> ->] | Hin]; [exact Hb | now apply (Hd (k', v))].
Qed.

(** X9.  Every block the extractors return has balanced braces, stands in
    the text just before the closing brace that ends it, and is shorter than
    the text; so do the bodies [_extract_gui_definitions] stores. *)
Theorem X9_extracted_blocks_are_closed :
  forall (content tag : text),
    Forall (fun b => closed_block content b /\ length b < length content)
      (HOI4GUIParser._extract_block_content content tag) /\
    Forall (fun b => closed_block content b /\ length b < length content)
      (ScriptedGUIParser._extract_block_content_simple content tag) /\
    Forall (closed_block content)
      (values (ScriptedGUIParser._extract_gui_definitions content)).
Proof.
intros content tag.
assert (Hshort : forall fl pattern,
          1 <= min_len pattern ->
          Forall (fun b => closed_block content b /\ length b < length content)
            (block_loop (S (length content)) fl pattern collect content 0 [])).
{ intros fl pattern Hreads. apply Forall_and.
  - apply (block_loop_sound fl pattern _ collect content (Forall (closed_block content)));
      [apply closed_blocks_collected | constructor].
  - apply block_loop_shorter; [exact Hreads | constructor]. }
split; [|split].
- unfold HOI4GUIParser._extract_block_content.
  destruct (startswith tag (str "(?i)")); apply Hshort; apply block_open_reads.
- unfold ScriptedGUIParser._extract_block_content_simple. apply Hshort, block_open_reads.
- unfold ScriptedGUIParser._extract_gui_definitions.
  apply (block_loop_sound no_flags _ _ _ content
           (fun d => Forall (closed_block content) (values d)));
    [intros; now apply closed_blocks_set | constructor].
Qed.

(* ===================================================================== *)
(** ** The order and the shape of the parsed elements *)
(* ===================================================================== *)

Section PassFacts.
Import HOI4GUIParser.

Variable P : GUIElement -> Prop.

Lemma all_take_new o self :
  (forall e, o = Some e -> P e) ->
  Forall P (elements self) -> Forall P (elements (fst (take_new o self))).
Proof.
intros Ho Hall. unfold take_new. destruct o as [e|]; [|exact Hall].
destruct (_is_duplicate e self); [exact Hall|].
cbn. apply Forall_app. split; [exact Hall | constructor; auto].
Qed.

Lemma all_take_each parse self c :
  (forall c e, parse c = Returned (Some e) -> P e) ->
  Forall P (elements self) -> Forall P (elements (fst (take_each parse self c))).
Proof.
intros Hparse Hall. unfold take_each. destruct (parse c) as [o|e0] eqn:E; [|exact Hall].
apply all_take_new; [|exact Hall]. intros e ->. eauto.
Qed.

Lemma elements_first_sets e self :
  elements (first_sets_window_size e self) = elements self.
Proof.
unfold first_sets_window_size.
now destruct (length (elements self)) as [|[|n]], (size e).
Qed.

Hypothesis container_P : forall c e, _parse_container_window_element c = Returned (Some e) -> P e.
Hypothesis icon_P : forall c e, _parse_icon_element c = Returned (Some e) -> P e.
Hypothesis button_P : forall c e, _parse_button_element c = Returned (Some e) -> P e.
Hypothesis text_box_P : forall c e, _parse_text_box_element c = Returned (Some e) -> P e.

Lemma all_nested frames : forall content self,
  Forall P (elements self) ->
  Forall P (elements (fst (_parse_nested_elements frames content self))).
Proof.
induction frames as [|frames IH]; intros content self Hall; [exact Hall|].
cbn [_parse_nested_elements].
repeat (apply (and_then_preserves (fun s => Forall P (elements s))); [|intros ? ?]);
  try (apply (for_each_preserves (fun s => Forall P (elements s))); [|assumption];
       intros; apply all_take_each; assumption).
apply (for_each_preserves (fun s => Forall P (elements s))); [|exact Hall].
intros b c Hb. destruct (_parse_container_window_element c) as [o|e0] eqn:E; [|exact Hb].
assert (Hnew : Forall P (elements (fst (take_new o b)))).
{ apply all_take_new; [|exact Hb]. intros e ->. eauto. }
destruct (take_new o b) as [self' [|]]; cbn [fst] in Hnew; auto.
Qed.

Lemma all_parse_container self c :
  Forall P (elements self) -> Forall P (elements (fst (parse_container self c))).
Proof.
intros Hall. unfold parse_container.
destruct (_parse_container_window_element c) as [o|e0] eqn:He; [|exact Hall].
apply all_nested. destruct o as [e|]; [|exact Hall].
destruct (_is_duplicate e self); [exact Hall|].
rewrite elements_first_sets. cbn. apply Forall_app. split; [exact Hall|].
constructor; [now apply (container_P c) | constructor].
Qed.

Lemma all_containers content self :
  Forall P (elements self) ->
  Forall P (elements (fst (_parse_container_window_types content self))).
Proof.
intros Hall. unfold _parse_container_window_types.
apply (for_each_preserves (fun s => Forall P (elements s))); [|exact Hall].
intros b c Hb. now apply all_parse_container.
Qed.

End PassFacts.

Section TopLevelFacts.
Import HOI4GUIParser.

(** A top-level loop appends, in order, elements its parser made. *)
Lemma appended_matches tag parse after content :
  (forall e s, elements (after e s) = elements s) ->
  forall self, exists more,
    elements (fst (append_matches tag parse after content self)) = elements self ++ more /\
    Forall (parsed_by parse) more.
Proof.
intros Hafter. unfold append_matches.
generalize (findall_group Pat.dotall (top_level_pattern tag) content). intros ms.
induction ms as [|m ms IH]; intros self.
- exists []. split; [now rewrite app_nil_r | constructor].
- rewrite for_each_cons. destruct (parse m) as [[e|]|e0] eqn:He; cbn [and_then ok raise].
  + destruct (IH (after e (append e self))) as (more & Hels & Hall).
    exists (e :: more). split.
    * rewrite Hels, Hafter. cbn. now rewrite <- app_assoc.
    * constructor; [now exists m | exact Hall].
  + apply IH.
  + exists []. split; [now rewrite app_nil_r | constructor].
Qed.

(** One pass after the other: what the first appends, then what the rest
    appends, which is nothing when the first raises. *)
Lemma passes_and_then (p rest : t -> run) (Q : GUIElement -> Prop)
  (R : list GUIElement -> Prop) :
  (forall s, exists more, elements (fst (p s)) = elements s ++ more /\ Forall Q more) ->
  (forall s, exists tail, elements (fst (rest s)) = elements s ++ tail /\ R tail) ->
  R [] ->
  forall s, exists tail,
    elements (fst (and_then (p s) rest)) = elements s ++ tail /\
    exists more tail', tail = more ++ tail' /\ Forall Q more /\ R tail'.
Proof.
intros Hp Hrest Hnil s. destruct (Hp s) as (more & Hm & HQ).
destruct (p s) as [s1 [e|]]; cbn [and_then fst] in *.
- exists more. split; [exact Hm|]. exists more, []. now rewrite app_nil_r.
- destruct (Hrest s1) as (tail & Ht & HR). exists (more ++ tail).
  split; [now rewrite Ht, Hm, app_assoc|]. now exists more, tail.
Qed.

(** The passes of [_parse_elements], in the order they append. *)
Lemma parse_elements_passes content self :
  elements self = [] ->
  exists nested windows checkboxes scrollbars gridboxes listboxes editboxes,
    elements (fst (_parse_elements content self))
    = nested ++ windows ++ checkboxes ++ scrollbars ++ gridboxes ++ listboxes ++ editboxes /\
    Forall from_container_pass nested /\
    Forall (parsed_by _parse_window_element) windows /\
    Forall (parsed_by _parse_checkbox_element) checkboxes /\
    Forall (parsed_by _parse_scrollbar_element) scrollbars /\
    Forall (parsed_by _parse_gridbox_element) gridboxes /\
    Forall (parsed_by _parse_listbox_element) listboxes /\
    Forall (parsed_by _parse_editbox_element) editboxes.
Proof.
intros Hempty.
assert (Htop : forall s, exists tail,
          elements (fst (_parse_top_level_elements content s)) = elements s ++ tail /\
          exists ws t1, tail = ws ++ t1 /\ Forall (parsed_by _parse_window_element) ws /\
          exists cs t2, t1 = cs ++ t2 /\ Forall (parsed_by _parse_checkbox_element) cs /\
          exists ss t3, t2 = ss ++ t3 /\ Forall (parsed_by _parse_scrollbar_element) ss /\
          exists gs t4, t3 = gs ++ t4 /\ Forall (parsed_by _parse_gridbox_element) gs /\
          exists ls es, t4 = ls ++ es /\ Forall (parsed_by _parse_listbox_element) ls /\
          Forall (parsed_by _parse_editbox_element) es).
{ unfold _parse_top_level_elements, _parse_editbox_types, _parse_listbox_types,
    _parse_gridbox_types, _parse_scrollbar_types, _parse_checkbox_types, _parse_window_types.
  repeat (apply passes_and_then;
          [apply appended_matches; first [exact elements_first_sets | reflexivity] | |
           repeat (exists [], []; split; [reflexivity | split; [constructor|]]);
           constructor]).
  apply appended_matches. reflexivity. }
unfold _parse_elements.
set (s0 := with_parsed_elements [] self).
assert (H0 : Forall from_container_pass
               (elements (fst (_parse_container_window_types content s0)))).
{ apply all_containers.
  - intros c e H. left. now exists c.
  - intros c e H. right. left. now exists c.
  - intros c e H. right. right. left. now exists c.
  - intros c e H. right. right. right. now exists c.
  - cbn. rewrite Hempty. constructor. }
destruct (_parse_container_window_types content s0) as [s1 [e|]]; cbn [and_then fst] in *.
- exists (elements s1), [], [], [], [], [], []. rewrite !app_nil_r.
  repeat split; auto.
- destruct (Htop s1) as (tail & Hels & ws & t1 & -> & Hw & cs & t2 & -> & Hc & ss & t3 & ->
                         & Hs & gs & t4 & -> & Hg & ls & es & -> & Hl & He).
  exists (elements s1), ws, cs, ss, gs, ls, es. split; [exact Hels|]. repeat split; assumption.
Qed.

End TopLevelFacts.

Section ParsedShape.
Import HOI4GUIParser.

Ltac by_named H :=
  returned_element H; repeat split; try reflexivity; assumption.

Lemma container_shape e :
  parsed_by _parse_container_window_element e ->
  element_type e = str "containerWindowType" /\ name e <> [] /\ as_parsed e.
Proof. intros [c H]. unfold _parse_container_window_element in H. by_named H. Qed.

Lemma icon_shape e :
  parsed_by _parse_icon_element e ->
  element_type e = str "iconType" /\ name e <> [] /\ as_parsed e.
Proof. intros [c H]. unfold _parse_icon_element in H. by_named H. Qed.

Lemma button_shape e :
  parsed_by _parse_button_element e ->
  element_type e = str "buttonType" /\ name e <> [] /\ as_parsed e.
Proof. intros [c H]. unfold _parse_button_element in H. by_named H. Qed.

Lemma text_box_shape e :
  parsed_by _parse_text_box_element e ->
  element_type e = str "instantTextBoxType" /\ name e <> [] /\ as_parsed e.
Proof. intros [c H]. unfold _parse_text_box_element in H. by_named H. Qed.

Lemma window_shape e :
  parsed_by _parse_window_element e ->
  element_type e = str "windowType" /\ name e <> [] /\ as_parsed e.
Proof. intros [c H]. unfold _parse_window_element in H. by_named H. Qed.

Lemma checkbox_shape e :
  parsed_by _parse_checkbox_element e ->
  element_type e = str "checkboxType" /\ name e <> [] /\ as_parsed e.
Proof. intros [c H]. unfold _parse_checkbox_element in H. by_named H. Qed.

Lemma scrollbar_shape e :
  parsed_by _parse_scrollbar_element e ->
  element_type e = str "scrollbarType" /\ name e <> [] /\ as_parsed e.
Proof. intros [c H]. unfold _parse_scrollbar_element in H. by_named H. Qed.

Lemma gridbox_shape e :
  parsed_by _parse_gridbox_element e ->
  element_type e = str "gridBoxType" /\ name e <> [] /\ as_parsed e.
Proof. intros [c H]. unfold _parse_gridbox_element in H. by_named H. Qed.

Lemma listbox_shape e :
  parsed_by _parse_listbox_element e ->
  element_type e = str "listboxType" /\ name e <> [] /\ as_parsed e.
Proof. intros [c H]. unfold _parse_listbox_element in H. by_named H. Qed.

Lemma editbox_shape e :
  parsed_by _parse_editbox_element e ->
  element_type e = str "editboxType" /\ name e <> [] /\ as_parsed e.
Proof. intros [c H]. unfold _parse_editbox_element in H. by_named H. Qed.

Lemma container_pass_shape e :
  from_container_pass e -> guarded_type e = true /\ name e <> [] /\ as_parsed e.
Proof.
intros [H | [H | [H | H]]];
  [apply container_shape in H | apply icon_shape in H
  | apply button_shape in H | apply text_box_shape in H];
  destruct H as (Ht & Hn & Hp); (split; [unfold guarded_type; now rewrite Ht | now split]).
Qed.

(** What [parse_file] returns: nothing, or the elements of the passes, each
    seen through a map that keeps identities (the binding, or nothing). *)
Lemma parse_file_passes fs file_path self :
  exists (f : GUIElement -> GUIElement)
         nested windows checkboxes scrollbars gridboxes listboxes editboxes,
    fst (parse_file fs file_path self)
    = map f (nested ++ windows ++ checkboxes ++ scrollbars ++ gridboxes ++ listboxes
             ++ editboxes) /\
    (f = (fun e => e) \/
     exists d data, scripted_gui_data self = d :: data /\
                    f = apply_to_element (d :: data)) /\
    Forall from_container_pass nested /\
    Forall (parsed_by _parse_window_element) windows /\
    Forall (parsed_by _parse_checkbox_element) checkboxes /\
    Forall (parsed_by _parse_scrollbar_element) scrollbars /\
    Forall (parsed_by _parse_gridbox_element) gridboxes /\
    Forall (parsed_by _parse_listbox_element) listboxes /\
    Forall (parsed_by _parse_editbox_element) editboxes.
Proof.
unfold parse_file, parse_file_body.
assert (Hnone : exists (f : GUIElement -> GUIElement)
         nested windows checkboxes scrollbars gridboxes listboxes editboxes,
    @nil GUIElement
    = map f (nested ++ windows ++ checkboxes ++ scrollbars ++ gridboxes ++ listboxes
             ++ editboxes) /\
    (f = (fun e => e) \/
     exists d data, scripted_gui_data self = d :: data /\
                    f = apply_to_element (d :: data)) /\
    Forall from_container_pass nested /\
    Forall (parsed_by _parse_window_element) windows /\
    Forall (parsed_by _parse_checkbox_element) checkboxes /\
    Forall (parsed_by _parse_scrollbar_element) scrollbars /\
    Forall (parsed_by _parse_gridbox_element) gridboxes /\
    Forall (parsed_by _parse_listbox_element) listboxes /\
    Forall (parsed_by _parse_editbox_element) editboxes).
{ exists (fun e => e), [], [], [], [], [], [], []. repeat split; auto. }
destruct (fs file_path) as [file|]; [|exact Hnone].
destruct (read_source file) as [[content | msg] | e]; [| exact Hnone | exact Hnone].
destruct (strip content); [exact Hnone|].
destruct (search _ _ _) as [m|]; [|exact Hnone].
set (self0 := with_elements [] (with_parse_errors [] self)).
destruct (parse_elements_passes (group_or_empty m 1) self0 eq_refl)
  as (nested & ws & cs & ss & gs & ls & es & Hels & Hall).
pose proof (data_parse_elements (group_or_empty m 1) self0) as Hdata.
destruct (_parse_elements (group_or_empty m 1) self0) as [parsed [e|]];
  cbn [fst snd] in *; [exact Hnone|]. clear Hnone.
change (scripted_gui_data self0) with (scripted_gui_data self) in Hdata.
unfold _apply_scripted_gui_data. rewrite Hdata.
destruct (scripted_gui_data self) as [|d data] eqn:Hself.
- exists (fun e => e), nested, ws, cs, ss, gs, ls, es.
  split; [now rewrite map_id | split; [now left | exact Hall]].
- exists (apply_to_element (d :: data)), nested, ws, cs, ss, gs, ls, es.
  split; [cbn [elements with_elements]; now rewrite Hels|].
  split; [right; now exists d, data | exact Hall].
Qed.

Lemma kept_type (f : GUIElement -> GUIElement) (self : t) (e : GUIElement) :
  (f = (fun e => e) \/
   exists d data, scripted_gui_data self = d :: data /\ f = apply_to_element (d :: data)) ->
  element_type (f e) = element_type e /\ name (f e) = name e.
Proof.
intros [-> | (d & data & _ & ->)]; [now split|].
pose proof (identity_apply_to_element (d :: data) e) as H. unfold identity in H.
split; congruence.
Qed.

End ParsedShape.

(** X10.  The list [parse_file] returns is grouped by pass: first what the
    container pass found (containers and the icons, buttons and text boxes
    inside them), then the windows, the checkboxes, the scrollbars, the grid
    boxes, the list boxes and the edit boxes found directly under the root;
    and every element has a name that is not empty. *)
Theorem X10_elements_grouped_by_pass :
  forall (fs : filesystem) (file_path : text) (self : HOI4GUIParser.t),
    exists nested windows checkboxes scrollbars gridboxes listboxes editboxes,
      fst (HOI4GUIParser.parse_file fs file_path self)
      = nested ++ windows ++ checkboxes ++ scrollbars ++ gridboxes ++ listboxes ++ editboxes /\
      Forall (fun e => guarded_type e = true) nested /\
      Forall (fun e => element_type e = str "windowType") windows /\
      Forall (fun e => element_type e = str "checkboxType") checkboxes /\
      Forall (fun e => element_type e = str "scrollbarType") scrollbars /\
      Forall (fun e => element_type e = str "gridBoxType") gridboxes /\
      Forall (fun e => element_type e = str "listboxType") listboxes /\
      Forall (fun e => element_type e = str "editboxType") editboxes /\
      Forall (fun e => name e <> []) (fst (HOI4GUIParser.parse_file fs file_path self)).
Proof.
intros fs file_path self.
destruct (parse_file_passes fs file_path self)
  as (f & nested & ws & cs & ss & gs & ls & es & Hres & Hf & Hn & Hw & Hc & Hs & Hg & Hl & He).
assert (Hgroup : forall (origin : GUIElement -> Prop) (ty : text) (group : list GUIElement),
          (forall e, origin e -> element_type e = ty /\ name e <> [] /\ as_parsed e) ->
          Forall origin group ->
          Forall (fun e => element_type e = ty) (map f group) /\
          Forall (fun e => name e <> []) (map f group)).
{ intros origin ty group Hshape Hall. rewrite !Forall_map.
  split; eapply Forall_impl; try exact Hall; intros e Ho;
    destruct (Hshape e Ho) as (Ht & Hname & _);
    destruct (kept_type f self e Hf) as [Ht' Hn']; congruence. }
assert (Hnested : Forall (fun e => guarded_type e = true) (map f nested) /\
                  Forall (fun e => name e <> []) (map f nested)).
{ rewrite !Forall_map. split; eapply Forall_impl; try exact Hn; intros e Ho;
    destruct (container_pass_shape e Ho) as (Ht & Hname & _);
    destruct (kept_type f self e Hf) as [Ht' Hn']; [|congruence].
  unfold guarded_type in *. now rewrite Ht'. }
destruct (Hgroup _ _ ws window_shape Hw) as [Tw Nw].
destruct (Hgroup _ _ cs checkbox_shape Hc) as [Tc Nc].
destruct (Hgroup _ _ ss scrollbar_shape Hs) as [Ts Ns].
destruct (Hgroup _ _ gs gridbox_shape Hg) as [Tg Ng].
destruct (Hgroup _ _ ls listbox_shape Hl) as [Tl Nl].
destruct (Hgroup _ _ es editbox_shape He) as [Te Ne].
destruct Hnested as [Tn Nn].
exists (map f nested), (map f ws), (map f cs), (map f ss), (map f gs), (map f ls), (map f es).
split; [now rewrite Hres, !map_app|].
repeat (split; [assumption|]).
rewrite Hres, !map_app. repeat (apply Forall_app; split); assumption.
Qed.

Section BindingFacts.
Import HOI4GUIParser.

(** What the binding keeps of an element: all that the renderer lays it out
    with. *)
Lemma layout_apply_to_widget defs : forall e,
  size (apply_to_widget defs e) = size e /\
  sprite_type (apply_to_widget defs e) = sprite_type e /\
  orientation (apply_to_widget defs e) = orientation e /\
  text_attr (apply_to_widget defs e) = text_attr e.
Proof.
induction defs as [|d defs IH]; intros e; simpl; [now repeat split|].
destruct (match sg_triggers d with Some (kv :: d0) => _ | _ => None end); [now repeat split|].
destruct (match sg_effects d with Some (kv :: d0) => _ | _ => None end); [now repeat split|].
apply IH.
Qed.

Lemma layout_apply_to_container data e :
  size (apply_to_container data e) = size e /\
  sprite_type (apply_to_container data e) = sprite_type e /\
  orientation (apply_to_container data e) = orientation e /\
  text_attr (apply_to_container data e) = text_attr e.
Proof.
unfold apply_to_container.
destruct (find _ (values data)); destruct (get data (name e)) as [d|];
  try (now repeat split); unfold merge_properties;
  destruct (sg_properties d) as [[|? ?]|]; now repeat split.
Qed.

Lemma layout_apply_to_element data e :
  size (apply_to_element data e) = size e /\
  sprite_type (apply_to_element data e) = sprite_type e /\
  orientation (apply_to_element data e) = orientation e /\
  text_attr (apply_to_element data e) = text_attr e.
Proof.
unfold apply_to_element. destruct (text_eqb _ _); [apply layout_apply_to_container|].
destruct (mem _ _); [apply layout_apply_to_widget | now repeat split].
Qed.

(** The binding marks an element dynamic or leaves it as it is. *)
Lemma apply_to_widget_marks defs : forall e,
  apply_to_widget defs e = e \/ is_dynamic (apply_to_widget defs e) = true.
Proof.
induction defs as [|d defs IH]; intros e; simpl; [now left|].
destruct (match sg_triggers d with Some (kv :: d0) => _ | _ => None end); [now right|].
destruct (match sg_effects d with Some (kv :: d0) => _ | _ => None end); [now right|].
apply IH.
Qed.

Lemma apply_to_container_marks data e :
  apply_to_container data e = e \/ is_dynamic (apply_to_container data e) = true.
Proof.
unfold apply_to_container.
destruct (get data (name e)) as [d|].
- right. destruct (find _ (values data)); [reflexivity|].
  unfold merge_properties. destruct (sg_properties d) as [[|? ?]|]; reflexivity.
- destruct (find _ (values data)); [now right | now left].
Qed.

Lemma apply_to_element_marks data e :
  apply_to_element data e = e \/
  (is_dynamic (apply_to_element data e) = true /\ guarded_type e = true).
Proof.
unfold apply_to_element, guarded_type.
destruct (text_eqb (element_type e) (str "containerWindowType")) eqn:Ec.
- destruct (apply_to_container_marks data e) as [H | H]; [now left | right].
  split; [exact H|]. cbn [mem existsb]. now rewrite Ec.
- destruct (mem (element_type e) [str "buttonType"; str "iconType"; str "instantTextBoxType"])
    eqn:Ew; [|now left].
  destruct (apply_to_widget_marks (values data) e) as [H | H]; [now left | right].
  split; [exact H|]. cbn [mem existsb] in *. rewrite Ec. cbn [orb].
  apply orb_true_iff in Ew as [Ew | Ew]; [rewrite Ew; now rewrite orb_true_r|].
  apply orb_true_iff in Ew as [Ew | Ew]; [now rewrite Ew|].
  rewrite Ew. now rewrite !orb_true_r.
Qed.

End BindingFacts.

(** X11.  The binding state of the elements [parse_file] returns.  An
    element marked dynamic is a container, an icon, a button or a text box;
    an element not marked dynamic is as the element parsers built it, with
    no visibility condition, no click effect and no scripted data; and a
    parser that holds no binding data returns every element so. *)
Theorem X11_dynamic_marks :
  forall (fs : filesystem) (file_path : text) (self : HOI4GUIParser.t),
    Forall (fun e => (is_dynamic e = true -> guarded_type e = true) /\
                     (is_dynamic e = false -> as_parsed e))
      (fst (HOI4GUIParser.parse_file fs file_path self)) /\
    (HOI4GUIParser.scripted_gui_data self = [] ->
     Forall as_parsed (fst (HOI4GUIParser.parse_file fs file_path self))).
Proof.
intros fs file_path self.
destruct (parse_file_passes fs file_path self)
  as (f & nested & ws & cs & ss & gs & ls & es & Hres & Hf & Hn & Hw & Hc & Hs & Hg & Hl & He).
assert (Hparsed : Forall as_parsed
                    (nested ++ ws ++ cs ++ ss ++ gs ++ ls ++ es)).
{ repeat (apply Forall_app; split);
    (eapply Forall_impl; [|eassumption]); intros e Ho;
    first [apply container_pass_shape in Ho | apply window_shape in Ho
          | apply checkbox_shape in Ho | apply scrollbar_shape in Ho
          | apply gridbox_shape in Ho | apply listbox_shape in Ho
          | apply editbox_shape in Ho]; tauto. }
rewrite Hres. split.
- rewrite Forall_map. eapply Forall_impl; [|exact Hparsed].
  intros e Hp. destruct Hf as [-> | (d & data & _ & ->)].
  + split; [|auto]. destruct Hp as [Hp _]. congruence.
  + destruct (apply_to_element_marks (d :: data) e) as [-> | [Hdyn Hg']].
    * split; [|auto]. destruct Hp as [Hp _]. congruence.
    * split; [|congruence]. intros _.
      now rewrite guarded_apply_to_element.
- intros Hnone. destruct Hf as [-> | (d & data & Hdata & _)]; [|congruence].
  now rewrite map_id.
Qed.

(** X12.  The binding step keeps the list as it is in length and order and
    keeps, for every element, its type, name and position, its size, sprite,
    orientation and text; it leaves the canvas size and the error list
    alone. *)
Theorem X12_binding_keeps_layout :
  forall self : HOI4GUIParser.t,
    let bound := HOI4GUIParser._apply_scripted_gui_data self in
    map (fun e => (identity e, size e, sprite_type e, orientation e, text_attr e))
      (HOI4GUIParser.elements bound)
    = map (fun e => (identity e, size e, sprite_type e, orientation e, text_attr e))
        (HOI4GUIParser.elements self) /\
    HOI4GUIParser.window_size bound = HOI4GUIParser.window_size self /\
    HOI4GUIParser.parse_errors bound = HOI4GUIParser.parse_errors self.
Proof.
intros self bound. unfold bound, HOI4GUIParser._apply_scripted_gui_data.
destruct (HOI4GUIParser.scripted_gui_data self) as [|d data]; [now repeat split|].
split; [|now split]. cbn [HOI4GUIParser.elements HOI4GUIParser.with_elements].
rewrite map_map. apply map_ext. intros e.
rewrite identity_apply_to_element.
destruct (layout_apply_to_element (d :: data) e) as (-> & -> & -> & ->). reflexivity.
Qed.

(* ===================================================================== *)
(** ** The error list of a load *)
(* ===================================================================== *)

Section ErrorList.
Import HOI4GUIParser.

Lemma errors_take_new (e : option GUIElement) (self : t) :
  parse_errors (fst (take_new e self)) = parse_errors self.
Proof.
unfold take_new. destruct e as [e|]; [|reflexivity].
now destruct (_is_duplicate e self).
Qed.

Lemma errors_first_sets (e : GUIElement) (self : t) :
  parse_errors (first_sets_window_size e self) = parse_errors self.
Proof.
unfold first_sets_window_size.
now destruct (length (elements self)) as [|[|n]], (size e).
Qed.

Lemma errors_parse_elements (content : text) (self : t) :
  parse_errors (fst (_parse_elements content self)) = parse_errors self.
Proof.
apply (kept_parse_elements parse_errors);
  [reflexivity | reflexivity | apply errors_take_new | apply errors_first_sets].
Qed.

Lemma errors_apply (self : t) :
  parse_errors (_apply_scripted_gui_data self) = parse_errors self.
Proof.
unfold _apply_scripted_gui_data. now destruct (scripted_gui_data self).
Qed.

(** The body of the [try] block leaves the error list empty when it
    raises: the handler's message is the only one. *)
Lemma raised_body_errors (fs : filesystem) (file_path : text) (self : t) (e : text) :
  parse_errors self = [] ->
  fst (parse_file_body fs file_path self) = Raised e ->
  parse_errors (snd (parse_file_body fs file_path self)) = [].
Proof.
intros Hself. unfold parse_file_body.
destruct (fs file_path) as [f|]; [|discriminate].
destruct (read_source f) as [[content | msg] | e0]; [| discriminate | intros _; exact Hself].
destruct (strip content); [discriminate|].
destruct (search _ _ _) as [m|]; [|discriminate].
pose proof (errors_parse_elements (group_or_empty m 1) (with_elements [] self)) as H.
destruct (_parse_elements _ _) as [parsed [e1|]]; cbn [fst snd] in *; [|discriminate].
intros _. rewrite H. exact Hself.
Qed.

(** After a load the error list is empty or holds one message, and it holds
    one only when nothing is returned. *)
Lemma parse_file_errors (fs : filesystem) (file_path : text) (self : t) :
  parse_errors (snd (parse_file fs file_path self)) = [] \/
  (exists msg, parse_errors (snd (parse_file fs file_path self)) = [msg]) /\
  fst (parse_file fs file_path self) = [].
Proof.
unfold parse_file, parse_file_body.
destruct (fs file_path) as [f|]; [|right; split; [eexists|]; reflexivity].
destruct (read_source f) as [[content | msg] | e];
  [| right; split; [eexists|]; reflexivity | right; split; [eexists|]; reflexivity].
destruct (strip content); [right; split; [eexists|]; reflexivity|].
destruct (search _ _ _) as [m|]; [|right; split; [eexists|]; reflexivity].
pose proof (errors_parse_elements (group_or_empty m 1)
              (with_elements [] (with_parse_errors [] self))) as H.
destruct (_parse_elements _ _) as [parsed [e|]]; cbn [fst snd] in *.
- right. split; [|reflexivity]. eexists.
  cbn [parse_errors add_error with_parse_errors]. rewrite H. reflexivity.
- left. now rewrite errors_apply.
Qed.

End ErrorList.

Lemma scripted_parse_file_errors (fs : filesystem) (file_path : text)
  (self : ScriptedGUIParser.t) :
  ScriptedGUIParser.parse_errors (snd (ScriptedGUIParser.parse_file fs file_path self)) = [] \/
  (exists msg,
     ScriptedGUIParser.parse_errors (snd (ScriptedGUIParser.parse_file fs file_path self))
     = [msg]) /\
  fst (ScriptedGUIParser.parse_file fs file_path self) = [].
Proof.
unfold ScriptedGUIParser.parse_file, ScriptedGUIParser.parse_file_body.
destruct (fs file_path) as [f|]; [|right; split; [eexists|]; reflexivity].
destruct (read_source f) as [[content | msg] | e];
  [| right; split; [eexists|]; reflexivity | right; split; [eexists|]; reflexivity].
destruct (strip content); [right; split; [eexists|]; reflexivity|].
destruct (search _ _ _) as [m|]; [|right; split; [eexists|]; reflexivity].
left. cbn [snd].
unfold ScriptedGUIParser._parse_scripted_gui_definitions.
generalize (ScriptedGUIParser._extract_gui_definitions (group_or_empty m 1)).
intros items.
assert (H : forall s, ScriptedGUIParser.parse_errors s = [] ->
          ScriptedGUIParser.parse_errors
            (fold_left (fun self item =>
                 match ScriptedGUIParser._parse_single_gui_definition (fst item) (snd item) with
                 | Some definition =>
                   ScriptedGUIParser.mkParser
                     (ScriptedGUIParser.scripted_guis self ++ [definition])
                     (ScriptedGUIParser.parse_errors self)
                 | None => self
                 end) items s) = []).
{ induction items as [|item items IH]; intros s Hs; [exact Hs|].
  cbn [fold_left]. apply IH.
  now destruct (ScriptedGUIParser._parse_single_gui_definition (fst item) (snd item)). }
now apply H.
Qed.

(** X13.  The error list after a load, for both parsers: it is empty, or it
    holds exactly one message and the load returned nothing.  A load that
    returns an element or a definition leaves no error behind, whatever the
    list held before. *)
Theorem X13_errors_only_with_empty_result :
  forall (fs : filesystem) (file_path : text),
    (forall self : HOI4GUIParser.t,
       HOI4GUIParser.parse_errors (snd (HOI4GUIParser.parse_file fs file_path self)) = [] \/
       (exists msg,
          HOI4GUIParser.parse_errors (snd (HOI4GUIParser.parse_file fs file_path self))
          = [msg]) /\
       fst (HOI4GUIParser.parse_file fs file_path self) = []) /\
    (forall self : ScriptedGUIParser.t,
       ScriptedGUIParser.parse_errors (snd (ScriptedGUIParser.parse_file fs file_path self))
       = [] \/
       (exists msg,
          ScriptedGUIParser.parse_errors
            (snd (ScriptedGUIParser.parse_file fs file_path self)) = [msg]) /\
       fst (ScriptedGUIParser.parse_file fs file_path self) = []).
Proof.
intros fs file_path. split; intros self;
  [apply parse_file_errors | apply scripted_parse_file_errors].
Qed.

(* ===================================================================== *)
(** ** Loading a file: failures and state *)
(* ===================================================================== *)

(** C9.  For every file system, path and parser state, each of the four
    failures -- missing file, text that decodes under neither encoding,
    empty or blank text, no root block -- makes [parse_file] of either
    parser return the empty list and leave exactly one message, not empty,
    in the error list, whatever the list held before.  And an exception
    does not escape: when the [try] block raises, while reading the file or
    in the middle of the parse, [parse_file] returns the empty list and
    leaves one message, which ends with the text of the exception. *)
Theorem C9_failure_semantics :
  forall (fs : filesystem) (file_path : text)
         (gui : HOI4GUIParser.t) (scripted : ScriptedGUIParser.t),
    (forall msg,
       load_failure (str "guiTypes") gui_not_found fs file_path msg ->
       msg <> [] /\
       fst (HOI4GUIParser.parse_file fs file_path gui) = [] /\
       HOI4GUIParser.parse_errors (snd (HOI4GUIParser.parse_file fs file_path gui))
       = [msg]) /\
    (forall msg,
       load_failure (str "scripted_gui") scripted_not_found fs file_path msg ->
       msg <> [] /\
       fst (ScriptedGUIParser.parse_file fs file_path scripted) = [] /\
       ScriptedGUIParser.parse_errors (snd (ScriptedGUIParser.parse_file fs file_path scripted))
       = [msg]) /\
    (forall e,
       fst (HOI4GUIParser.parse_file_body fs file_path (HOI4GUIParser.with_parse_errors [] gui))
       = Raised e ->
       fst (HOI4GUIParser.parse_file fs file_path gui) = [] /\
       HOI4GUIParser.parse_errors (snd (HOI4GUIParser.parse_file fs file_path gui))
       = [str "Unexpected error during GUI file parsing: " ++ e]) /\
    (forall e,
       ScriptedGUIParser.parse_file_body fs file_path
         (ScriptedGUIParser.mkParser (ScriptedGUIParser.scripted_guis scripted) [])
       = Raised e ->
       fst (ScriptedGUIParser.parse_file fs file_path scripted) = [] /\
       ScriptedGUIParser.parse_errors (snd (ScriptedGUIParser.parse_file fs file_path scripted))
       = [str "Unexpected error during scripted_gui file parsing: " ++ e]).
Proof.
intros fs file_path gui scripted.
split; [|split; [|split]].
- intros msg Hfail. split; [destruct Hfail; discriminate|].
  unfold HOI4GUIParser.parse_file, HOI4GUIParser.parse_file_body.
  destruct Hfail as [Hfs | f e1 e2 Hfs H1 H2 | f content Hfs Hread Hstrip
                    | f content Hfs Hread Hstrip Hroot]; rewrite Hfs.
  + now split.
  + unfold read_source. rewrite H1. destruct H2 as [-> | ->]; now split.
  + rewrite Hread, Hstrip. now split.
  + rewrite Hread. destruct (strip content) eqn:E; [contradiction|].
    unfold gui_not_found in *. rewrite Hroot. now split.
- intros msg Hfail. split; [destruct Hfail; discriminate|].
  unfold ScriptedGUIParser.parse_file, ScriptedGUIParser.parse_file_body.
  destruct Hfail as [Hfs | f e1 e2 Hfs H1 H2 | f content Hfs Hread Hstrip
                    | f content Hfs Hread Hstrip Hroot]; rewrite Hfs.
  + now split.
  + unfold read_source. rewrite H1. destruct H2 as [-> | ->]; now split.
  + rewrite Hread, Hstrip. now split.
  + rewrite Hread. destruct (strip content) eqn:E; [contradiction|].
    unfold scripted_not_found in *. rewrite Hroot. now split.
- intros e Hraise. unfold HOI4GUIParser.parse_file.
  assert (Herrors : HOI4GUIParser.parse_errors
                      (snd (HOI4GUIParser.parse_file_body fs file_path
                              (HOI4GUIParser.with_parse_errors [] gui))) = []).
  { apply (raised_body_errors _ _ _ e); [reflexivity | exact Hraise]. }
  destruct (HOI4GUIParser.parse_file_body fs file_path
              (HOI4GUIParser.with_parse_errors [] gui)) as [[returned | e'] self'].
  + discriminate Hraise.
  + cbn [fst snd] in *. injection Hraise as ->. split; [reflexivity|].
    cbn. now rewrite Herrors.
- intros e Hraise. unfold ScriptedGUIParser.parse_file. rewrite Hraise. now split.
Qed.

(** The scenario of the specification, a file holding only
    [foo = { bar = 1 }]; a missing file; and a file in which a window's [x]
    has 4301 digits, after a container was read. *)
Lemma C9_failure_semantics_witness :
  (fst (HOI4GUIParser.parse_file Samples.rootless (str "foo.gui") HOI4GUIParser.init) = [] /\
   HOI4GUIParser.parse_errors
     (snd (HOI4GUIParser.parse_file Samples.rootless (str "foo.gui") HOI4GUIParser.init))
   = [gui_not_found]) /\
  (fst (HOI4GUIParser.parse_file Samples.rootless (str "absent.gui") HOI4GUIParser.init) = [] /\
   HOI4GUIParser.parse_errors
     (snd (HOI4GUIParser.parse_file Samples.rootless (str "absent.gui") HOI4GUIParser.init))
   = [str "File not found: absent.gui"]) /\
  (fst (HOI4GUIParser.parse_file Samples.overlong_position (str "o.gui") HOI4GUIParser.init)
   = [] /\
   HOI4GUIParser.parse_errors
     (snd (HOI4GUIParser.parse_file Samples.overlong_position (str "o.gui")
             HOI4GUIParser.init))
   = [str "Unexpected error during GUI file parsing: " ++ int_limit_message 4301]).
Proof.
split; [|split].
- apply (proj1 (C9_failure_semantics Samples.rootless (str "foo.gui")
                 HOI4GUIParser.init ScriptedGUIParser.init)).
  apply (no_root_block _ _ _ _ (mkFile (ReadOk (str "foo = { bar = 1 }"))
                                       (ReadOk (str "foo = { bar = 1 }")))
           (str "foo = { bar = 1 }")); [reflexivity | reflexivity | discriminate | reflexivity].
- apply (proj1 (C9_failure_semantics Samples.rootless (str "absent.gui")
                 HOI4GUIParser.init ScriptedGUIParser.init) (str "File not found: absent.gui")).
  apply missing_file. reflexivity.
- apply (proj1 (proj2 (proj2 (C9_failure_semantics Samples.overlong_position (str "o.gui")
                                HOI4GUIParser.init ScriptedGUIParser.init)))).
  vm_compute. reflexivity.
Defined.

(* ===================================================================== *)
(** ** The definitions the scripted parser returns *)
(* ===================================================================== *)

Lemma keys_set_new {V : Type} (d : dict V) (k : text) (v : V) :
  keys (set d k v) = if has_key d k then keys d else keys d ++ [k].
Proof.
unfold has_key, keys. induction d as [|[k' v'] d IH]; [reflexivity|].
cbn [set get]. destruct (text_eqb k k') eqn:E; [reflexivity|].
cbn [map fst]. rewrite IH. now destruct (get d k).
Qed.

Lemma has_key_In {V : Type} (d : dict V) (k : text) :
  has_key d k = false -> ~ In k (keys d).
Proof.
unfold has_key, keys. induction d as [|[k' v'] d IH]; intros H; [intros []|].
cbn [get] in H. destruct (text_eqb k k') eqn:E; [discriminate|].
apply text_eqb_neq in E. intros [Hk | Hk]; [now apply E | now apply IH].
Qed.

Lemma NoDup_keys_set {V : Type} (d : dict V) (k : text) (v : V) :
  NoDup (keys d) -> NoDup (keys (set d k v)).
Proof.
intros Hd. rewrite keys_set_new. destruct (has_key d k) eqn:E; [exact Hd|].
apply NoDup_app; [exact Hd | repeat constructor; intros [] |].
intros k0 Hk0 [<- | []]. now apply (has_key_In d k E).
Qed.

Section ScriptedDefinitions.
Import ScriptedGUIParser.





End ScriptedDefinitions.


(* ===================================================================== *)
(** ** The asset table of the manager *)
(* ===================================================================== *)

Section TableFacts.
Import GFXManager.

Variable mod_folder_path : text.
Variable path_join : text -> text -> text.
Variable path_exists : text -> bool.

Local Abbreviation register := (register mod_folder_path path_join path_exists).
Local Abbreviation parse_gfx_file := (parse_gfx_file mod_folder_path path_join path_exists).
Local Abbreviation scan_gfx_files := (scan_gfx_files mod_folder_path path_join path_exists).

(** What one turn of the loop does, when both fields are found. *)
Lemma register_cases (path : text) (self : t) (sprite : text) :
  register path self sprite = self \/
  exists name full texture_path,
    (get (gfx_data self) name = None /\
     exists status,
       In status [str "valid"; str "missing_file"] /\
       register path self sprite
       = mkManager
           (set (gfx_data self) name (AnalysisWorker.mkInfo full path status texture_path))
           (orphaned_gfx self) (missing_definitions self) (duplicate_definitions self)
           (used_gfx self) (usage_locations self)) \/
    (exists earlier files,
       get (gfx_data self) name = Some earlier /\
       (get (duplicate_definitions self) name = None /\
        files = [AnalysisWorker.file_source earlier; path] \/
        exists before, get (duplicate_definitions self) name = Some before /\
                       files = before ++ [path]) /\
       register path self sprite
       = mkManager
           (set (gfx_data self) name
              (AnalysisWorker.mkInfo full path (str "duplicate") texture_path))
           (orphaned_gfx self) (missing_definitions self)
           (set (duplicate_definitions self) name files)
           (used_gfx self) (usage_locations self)).
Proof.
unfold GFXManager.register.
destruct (search Pat.ignorecase (field_pattern (str "name")) sprite) as [nm|]; [|now left].
destruct (search Pat.ignorecase (field_pattern (str "texturefile")) sprite) as [tm|];
  [|now left].
right.
set (name := strip_chars [dquote; squote] (group_or_empty nm 1)).
set (texture_path := strip_chars [dquote; squote] (group_or_empty tm 1)).
exists name, (path_join mod_folder_path texture_path), texture_path.
destruct (get (gfx_data self) name) as [earlier|] eqn:Hget.
- right. destruct (get (duplicate_definitions self) name) as [before|] eqn:Hdup.
  + exists earlier, (before ++ [path]). split; [reflexivity|]. split; [|reflexivity].
    right. now exists before.
  + exists earlier, [AnalysisWorker.file_source earlier; path].
    split; [reflexivity|]. split; [now left | reflexivity].
- left. split; [reflexivity|].
  destruct (path_exists (path_join mod_folder_path texture_path)).
  + exists (str "valid"). split; [now left | reflexivity].
  + exists (str "missing_file"). split; [right; now left | reflexivity].
Qed.

Lemma get_set_cases {V : Type} (d : dict V) (k k' : text) (v : V) :
  (k' = k /\ get (set d k v) k' = Some v) \/ (k' <> k /\ get (set d k v) k' = get d k').
Proof.
destruct (text_eqb k' k) eqn:E.
- apply text_eqb_eq in E. subst. left. split; [reflexivity | apply get_set_same].
- apply text_eqb_neq in E. right. split; [exact E | now apply get_set_other].
Qed.

Lemma last_app_one {A : Type} (l : list A) (a d : A) : last (l ++ [a]) d = a.
Proof. apply last_last. Qed.

Lemma register_recorded (path : text) (self : t) (sprite : text) :
  duplicates_recorded self -> duplicates_recorded (register path self sprite).
Proof.
intros Hinv.
destruct (register_cases path self sprite)
  as [-> | (name & full & tp & [(Hnone & status & Hstatus & ->)
                               | (earlier & files & Hsome & Hfiles & ->)])];
  [exact Hinv | |]; intros k fs Hk; cbn [gfx_data duplicate_definitions] in *.
- destruct (Hinv k fs Hk) as (info & Hget & Hrest).
  exists info. split; [|exact Hrest].
  destruct (get_set_cases (gfx_data self) name k
              (AnalysisWorker.mkInfo full path status tp)) as [[-> _] | [_ ->]];
    [congruence | exact Hget].
- destruct (get_set_cases (duplicate_definitions self) name k files) as [[-> E] | [Hne E]];
    rewrite E in Hk.
  + injection Hk as <-. rewrite get_set_same. eexists. split; [reflexivity|].
    cbn [AnalysisWorker.status AnalysisWorker.file_source]. split; [reflexivity|].
    destruct Hfiles as [[_ ->] | (before & Hbefore & ->)]; [split; [cbn; lia | reflexivity]|].
    destruct (Hinv name before Hbefore) as (_ & _ & _ & Hlen & _).
    split; [rewrite length_app; cbn; lia | apply last_app_one].
  + rewrite get_set_other by exact Hne. now apply Hinv.
Qed.

Lemma register_listed (path : text) (self : t) (sprite : text) :
  duplicates_listed self -> duplicates_listed (register path self sprite).
Proof.
intros Hinv.
destruct (register_cases path self sprite)
  as [-> | (name & full & tp & [(Hnone & status & Hstatus & ->)
                               | (earlier & files & Hsome & Hfiles & ->)])];
  [exact Hinv | |]; intros k info Hk Hdup; cbn [gfx_data duplicate_definitions] in *.
- destruct (get_set_cases (gfx_data self) name k
              (AnalysisWorker.mkInfo full path status tp)) as [[-> E] | [Hne E]];
    rewrite E in Hk.
  + injection Hk as <-. cbn in Hdup. subst status.
    destruct Hstatus as [H | [H | []]]; discriminate H.
  + now apply (Hinv k info).
- destruct (text_eqb k name) eqn:E.
  + apply text_eqb_eq in E. subst k. unfold has_key. now rewrite get_set_same.
  + apply text_eqb_neq in E. rewrite has_key_set_other by exact E.
    rewrite get_set_other in Hk by exact E. now apply (Hinv k info).
Qed.

Lemma register_statuses (path : text) (self : t) (sprite : text) :
  statuses_known self -> statuses_known (register path self sprite).
Proof.
intros Hinv. unfold statuses_known in *. rewrite Forall_forall in *.
destruct (register_cases path self sprite)
  as [-> | (name & full & tp & [(Hnone & status & Hstatus & ->)
                               | (earlier & files & Hsome & Hfiles & ->)])];
  [exact Hinv | |]; intros [k info] Hin; cbn [gfx_data] in Hin;
  apply In_set in Hin as [[= -> ->] | Hin]; try (now apply (Hinv (k, info))); cbn.
- destruct Hstatus as [<- | [<- | []]]; tauto.
- tauto.
Qed.

Lemma register_keys (path : text) (self : t) (sprite : text) :
  NoDup (keys (gfx_data self)) -> NoDup (keys (gfx_data (register path self sprite))).
Proof.
intros Hinv.
destruct (register_cases path self sprite)
  as [-> | (name & full & tp & [(Hnone & status & Hstatus & ->)
                               | (earlier & files & Hsome & Hfiles & ->)])];
  [exact Hinv | |]; cbn [gfx_data]; now apply NoDup_keys_set.
Qed.

(** An invariant of the turns is an invariant of the scan of the files. *)
Lemma scan_preserves (Inv : t -> Prop) :
  (forall path self sprite, Inv self -> Inv (register path self sprite)) ->
  forall (gfx_files : list AnalysisWorker.code_file) (self : t),
    Inv self ->
    Inv (fold_left (fun self f => parse_gfx_file f self) gfx_files self).
Proof.
intros Hstep gfx_files. induction gfx_files as [|f fs IH]; intros self Hself; [exact Hself|].
cbn [fold_left]. apply IH. unfold GFXManager.parse_gfx_file.
destruct (AnalysisWorker.read_result f) as [content|]; [|exact Hself].
apply fold_left_preserves; [|exact Hself]. intros b sprite Hb. now apply Hstep.
Qed.

Lemma scan_statuses gfx_files self : statuses_known (scan_gfx_files gfx_files self).
Proof.
unfold GFXManager.scan_gfx_files. apply scan_preserves; [apply register_statuses|].
constructor.
Qed.

Lemma scan_keys gfx_files self : NoDup (keys (gfx_data (scan_gfx_files gfx_files self))).
Proof.
unfold GFXManager.scan_gfx_files.
apply (scan_preserves (fun s => NoDup (keys (gfx_data s)))); [apply register_keys|].
constructor.
Qed.

Lemma scan_listed gfx_files self : duplicates_listed (scan_gfx_files gfx_files self).
Proof.
unfold GFXManager.scan_gfx_files. apply scan_preserves; [apply register_listed|].
intros k info Hk. discriminate Hk.
Qed.

Lemma scan_recorded gfx_files self :
  duplicate_definitions self = [] -> duplicates_recorded (scan_gfx_files gfx_files self).
Proof.
intros Hempty. unfold GFXManager.scan_gfx_files. apply scan_preserves; [apply register_recorded|].
intros k files Hk. cbn in Hk. rewrite Hempty in Hk. discriminate Hk.
Qed.

(** The statistics add up on a table whose statuses are known. *)
Lemma statistics_add_up (self : t) :
  statuses_known self -> total_gfx self = valid_gfx self + error_gfx self.
Proof.
unfold statuses_known, total_gfx, valid_gfx, error_gfx.
induction (gfx_data self) as [|[k info] items IH]; intros H; [reflexivity|].
inversion H as [|? ? Hstatus Hrest]; subst. specialize (IH Hrest).
cbn [filter snd]. cbn [snd] in Hstatus.
destruct Hstatus as [<- | [<- | [<- | []]]];
  match goal with
  | |- context [text_eqb ?a ?b] =>
    let v := eval vm_compute in (text_eqb a b) in change (text_eqb a b) with v
  end;
  match goal with
  | |- context [mem ?a ?l] =>
    let v := eval vm_compute in (mem a l) in change (mem a l) with v
  end;
  cbn [length]; lia.
Qed.

End TableFacts.

(** X15.  The statistics cards after a scan: every entry of the table has
    one of the statuses [valid], [missing_file] and [duplicate], so the
    number of valid entries and the number of entries in error add up to
    the total; and the table holds every name once. *)
Theorem X15_statistics_add_up :
  forall (mod_folder_path : text) (path_join : text -> text -> text)
         (path_exists : text -> bool) (gfx_files : list AnalysisWorker.code_file)
         (self : GFXManager.t),
    let scanned :=
      GFXManager.scan_gfx_files mod_folder_path path_join path_exists gfx_files self in
    GFXManager.total_gfx scanned
    = GFXManager.valid_gfx scanned + GFXManager.error_gfx scanned /\
    NoDup (keys (GFXManager.gfx_data scanned)).
Proof.
intros. split; [apply statistics_add_up, scan_statuses | apply scan_keys].
Qed.

(** X16.  The duplicate map after a scan.  Every entry of the table with
    status [duplicate] is listed in the map.  When the map was empty before
    the scan, every name listed in it is a key of the table with status
    [duplicate], its list holds at least two files, and the last of them is
    the file the table records for the name. *)
Theorem X16_duplicates_bookkeeping :
  forall (mod_folder_path : text) (path_join : text -> text -> text)
         (path_exists : text -> bool) (gfx_files : list AnalysisWorker.code_file)
         (self : GFXManager.t),
    let scanned :=
      GFXManager.scan_gfx_files mod_folder_path path_join path_exists gfx_files self in
    duplicates_listed scanned /\
    (GFXManager.duplicate_definitions self = [] -> duplicates_recorded scanned).
Proof.
intros. split; [apply scan_listed | apply scan_recorded].
Qed.

(** X17.  A full analysis after a scan.  On a table that is not empty, the
    manager takes the duplicate map of the run, and that map is empty, the
    table holding every name once: what the scan had recorded in the map is
    gone, while the table, statuses included, is as the scan left it.  On
    an empty table nothing is done. *)
Theorem X17_analysis_clears_duplicate_map :
  forall (mod_folder_path : text) (path_join : text -> text -> text)
         (path_exists : text -> bool) (gfx_files : list AnalysisWorker.code_file)
         (self : GFXManager.t) (path_filename : text -> text)
         (code_files : list AnalysisWorker.code_file),
    let scanned :=
      GFXManager.scan_gfx_files mod_folder_path path_join path_exists gfx_files self in
    let analysed := GFXManager.run_full_analysis path_filename code_files scanned in
    GFXManager.gfx_data analysed = GFXManager.gfx_data scanned /\
    (GFXManager.gfx_data scanned <> [] -> GFXManager.duplicate_definitions analysed = []) /\
    (GFXManager.gfx_data scanned = [] -> analysed = scanned).
Proof.
intros mod_folder_path path_join path_exists gfx_files self path_filename code_files
  scanned analysed.
pose proof (scan_keys mod_folder_path path_join path_exists gfx_files self) as Hkeys.
fold scanned in Hkeys. unfold analysed, GFXManager.run_full_analysis.
destruct (GFXManager.gfx_data scanned) as [|item items] eqn:Hdata.
- split; [exact Hdata|]. split; [intros H; now contradiction H | reflexivity].
- split; [cbn; now rewrite Hdata|]. split; [|discriminate]. intros _.
  cbn [GFXManager.on_analysis_complete GFXManager.duplicate_definitions].
  rewrite duplicates_run. now apply find_duplicates_unique.
Qed.

(* ===================================================================== *)
(** ** Integers as text *)
(* ===================================================================== *)

Lemma code_digit_char (d : nat) : d < 10 -> code (digit_char d) = 48 + d.
Proof. intros H. unfold code, digit_char. apply nat_ascii_embedding. lia. Qed.

Lemma digit_val_char (d : nat) : d < 10 -> digit_val (digit_char d) = Z.of_nat d.
Proof. intros H. unfold digit_val. rewrite code_digit_char by exact H. f_equal. lia. Qed.

Lemma is_digit_char (d : nat) : d < 10 -> is_digit (digit_char d) = true.
Proof.
intros H. unfold is_digit, in_range. rewrite code_digit_char by exact H.
apply andb_true_iff. split; apply Nat.leb_le; lia.
Qed.

Lemma digit_code (c : ascii) : is_digit c = true -> 48 <= code c <= 57.
Proof.
unfold is_digit, in_range. intros H. apply andb_true_iff in H as [H1 H2].
apply Nat.leb_le in H1, H2. lia.
Qed.

Lemma digit_not_char (c x : ascii) :
  is_digit c = true -> code x < 48 \/ 57 < code x -> Ascii.eqb c x = false.
Proof.
intros Hc Hx. apply digit_code in Hc. apply Ascii.eqb_neq. intros ->. lia.
Qed.

Lemma digits_of_pos_step (f : nat) (n : N) (acc : text) :
  digits_of_pos_fuel (S f) n acc
  = if (n / 10 =? 0)%N then digit_char (N.to_nat (n mod 10)) :: acc
    else digits_of_pos_fuel f (n / 10)%N (digit_char (N.to_nat (n mod 10)) :: acc).
Proof. reflexivity. Qed.

(** The digits of [n], most significant first, in front of [acc]. *)
Lemma digits_of_pos_spec (f : nat) : forall (n : N) (acc : text),
  (n < 2 ^ N.of_nat (S f))%N ->
  exists ds,
    digits_of_pos_fuel (S f) n acc = ds ++ acc /\
    ds <> [] /\
    forallb is_digit ds = true /\
    fold_left (fun v c => (v * 10 + digit_val c)%Z) ds 0%Z = Z.of_N n.
Proof.
induction f as [|f IH]; intros n acc Hn.
- assert (Hsmall : (n / 10 = 0)%N) by (apply N.div_small; cbn in Hn; lia).
  assert (Hd : N.to_nat (n mod 10) < 10)
    by (pose proof (N.mod_upper_bound n 10); lia).
  rewrite digits_of_pos_step, Hsmall. cbn [N.eqb].
  exists [digit_char (N.to_nat (n mod 10))]. repeat split; [discriminate | |].
  + cbn [forallb]. now rewrite is_digit_char.
  + cbn [fold_left]. rewrite digit_val_char by exact Hd.
    pose proof (N.div_mod n 10). lia.
- assert (Hd : N.to_nat (n mod 10) < 10)
    by (pose proof (N.mod_upper_bound n 10); lia).
  rewrite digits_of_pos_step. destruct (n / 10 =? 0)%N eqn:Hq.
  + apply N.eqb_eq in Hq.
    exists [digit_char (N.to_nat (n mod 10))]. repeat split; [discriminate | |].
    * cbn [forallb]. now rewrite is_digit_char.
    * cbn [fold_left]. rewrite digit_val_char by exact Hd.
      pose proof (N.div_mod n 10). lia.
  + assert (Hless : (n / 10 < 2 ^ N.of_nat (S f))%N).
    { apply N.Div0.div_lt_upper_bound.
      replace (N.of_nat (S (S f))) with (N.succ (N.of_nat (S f))) in Hn by lia.
      rewrite N.pow_succ_r' in Hn. lia. }
    destruct (IH (n / 10)%N (digit_char (N.to_nat (n mod 10)) :: acc) Hless)
      as (ds & Heq & Hne & Hdig & Hval).
    exists (ds ++ [digit_char (N.to_nat (n mod 10))]). repeat split.
    * rewrite Heq, <- app_assoc. reflexivity.
    * intros H. apply app_eq_nil in H as [_ H]. discriminate H.
    * rewrite forallb_app, Hdig. cbn [forallb]. now rewrite is_digit_char.
    * rewrite fold_left_app, Hval. cbn [fold_left]. rewrite digit_val_char by exact Hd.
      pose proof (N.div_mod n 10). lia.
Qed.

(** [str(z)]: an optional minus sign and the digits of the absolute value. *)
Lemma str_of_Z_digits (z : Z) :
  exists ds,
    str_of_Z z = (if (z <? 0)%Z then ["-"%char] else []) ++ ds /\
    ds <> [] /\
    forallb is_digit ds = true /\
    fold_left (fun v c => (v * 10 + digit_val c)%Z) ds 0%Z = Z.abs z.
Proof.
unfold str_of_Z.
assert (Hfuel : (Z.abs_N z < 2 ^ N.of_nat (S (N.to_nat (N.log2 (Z.abs_N z)))))%N).
{ replace (N.of_nat (S (N.to_nat (N.log2 (Z.abs_N z)))))
    with (N.succ (N.log2 (Z.abs_N z))) by lia.
  destruct (N.eq_dec (Z.abs_N z) 0) as [-> | Hpos]; [reflexivity|].
  apply N.log2_spec. lia. }
destruct (digits_of_pos_spec _ (Z.abs_N z) [] Hfuel) as (ds & Heq & Hne & Hdig & Hval).
rewrite app_nil_r in Heq. exists ds. rewrite Heq.
split; [now destruct (z <? 0)%Z|]. split; [exact Hne|]. split; [exact Hdig|].
rewrite Hval. apply N2Z.inj_abs_N.
Qed.

(** [int(str(z)) == z] *)
Lemma int_of_str (z : Z) : int_value (str_of_Z z) = z.
Proof.
destruct (str_of_Z_digits z) as (ds & -> & Hne & Hdig & Hval).
destruct (z <? 0)%Z eqn:Hz.
- cbn [app int_value]. change (Ascii.eqb "-" "-") with true. cbv iota.
  rewrite Hval. apply Z.ltb_lt in Hz. lia.
- cbn [app]. destruct ds as [|c ds]; [contradiction|].
  cbn [forallb] in Hdig. apply andb_true_iff in Hdig as [Hc _].
  unfold int_value.
  rewrite (digit_not_char c "-"%char Hc) by (left; cbn; lia).
  rewrite (digit_not_char c "+"%char Hc) by (left; cbn; lia).
  rewrite Hval. apply Z.ltb_ge in Hz. lia.
Qed.

Lemma str_of_Z_injective (a b : Z) : str_of_Z a = str_of_Z b -> a = b.
Proof. intros H. rewrite <- (int_of_str a), <- (int_of_str b). now rewrite H. Qed.

Lemma str_of_Z_colon_free (z : Z) : has_char ":" (str_of_Z z) = false.
Proof.
destruct (str_of_Z_digits z) as (ds & -> & _ & Hdig & _).
rewrite has_char_app.
assert (Hds : has_char ":" ds = false).
{ clear -Hdig. induction ds as [|c ds IH]; [reflexivity|].
  cbn [forallb] in Hdig. apply andb_true_iff in Hdig as [Hc Hds].
  rewrite has_char_cons, (IH Hds), orb_false_r.
  rewrite Ascii.eqb_sym. apply digit_not_char; [exact Hc | right; cbn; lia]. }
rewrite Hds. now destruct (z <? 0)%Z.
Qed.

(* --------------------------------------------------------------------- *)
(** *** The deduplication key *)

Lemma split_first (c : ascii) (a : text) : forall (a' b b' : text),
  has_char c a = false -> has_char c a' = false ->
  a ++ c :: b = a' ++ c :: b' -> a = a' /\ b = b'.
Proof.
induction a as [|x a IH]; intros a' b b' Ha Ha' H.
- destruct a' as [|y a']; cbn [app] in H.
  + injection H as ->. now split.
  + injection H as <- _. rewrite has_char_cons, Ascii.eqb_refl in Ha'. discriminate Ha'.
- destruct a' as [|y a']; cbn [app] in H.
  + injection H as -> _. rewrite has_char_cons, Ascii.eqb_refl in Ha. discriminate Ha.
  + injection H as -> H.
    apply has_char_cons_false in Ha as [_ Ha]. apply has_char_cons_false in Ha' as [_ Ha'].
    destruct (IH a' b b' Ha Ha' H) as [-> ->]. now split.
Qed.

Lemma has_char_rev (c : ascii) (s : text) : has_char c (rev s) = has_char c s.
Proof.
unfold has_char. induction s as [|x s IH]; [reflexivity|].
cbn [rev existsb]. rewrite existsb_app, IH. cbn [existsb].
rewrite orb_false_r. apply orb_comm.
Qed.

Lemma split_last (c : ascii) (a a' b b' : text) :
  has_char c b = false -> has_char c b' = false ->
  a ++ c :: b = a' ++ c :: b' -> a = a' /\ b = b'.
Proof.
intros Hb Hb' H. apply (f_equal (@rev ascii)) in H.
rewrite !rev_app_distr in H. cbn [rev] in H. rewrite <- !app_assoc in H. cbn [app] in H.
apply split_first in H as [Hb1 Ha1]; [|now rewrite has_char_rev..].
apply (f_equal (@rev ascii)) in Hb1, Ha1. rewrite !rev_involutive in Hb1, Ha1.
now split.
Qed.

Lemma guarded_type_colon_free (e : GUIElement) :
  guarded_type e = true -> has_char ":" (element_type e) = false.
Proof.
unfold guarded_type. cbn [mem existsb]. intros H.
repeat (apply orb_true_iff in H as [H | H];
        [apply text_eqb_eq in H; rewrite H; reflexivity|]).
discriminate H.
Qed.

Lemma element_key_injective (e1 e2 : GUIElement) :
  has_char ":" (element_type e1) = false ->
  has_char ":" (element_type e2) = false ->
  HOI4GUIParser._get_element_key e1 = HOI4GUIParser._get_element_key e2 ->
  identity e1 = identity e2.
Proof.
intros H1 H2 Hkey. unfold HOI4GUIParser._get_element_key in Hkey.
change (str ":") with [":"%char] in Hkey.
set (t1 := element_type e1) in *. set (t2 := element_type e2) in *.
set (n1 := name e1) in *. set (n2 := name e2) in *.
set (x1 := str_of_Z (x (position e1))) in *. set (x2 := str_of_Z (x (position e2))) in *.
set (y1 := str_of_Z (y (position e1))) in *. set (y2 := str_of_Z (y (position e2))) in *.
assert (Hshape : forall t n sx sy : text,
          t ++ [":"%char] ++ n ++ [":"%char] ++ sx ++ [":"%char] ++ sy
          = (t ++ ":"%char :: n ++ ":"%char :: sx) ++ ":"%char :: sy).
{ intros. cbn [app]. rewrite <- app_assoc. cbn [app]. now rewrite <- app_assoc. }
rewrite !Hshape in Hkey.
apply split_last in Hkey as [Hkey Hy]; [|apply str_of_Z_colon_free..].
assert (Hshape' : forall t n sx : text,
          t ++ ":"%char :: n ++ ":"%char :: sx = (t ++ ":"%char :: n) ++ ":"%char :: sx).
{ intros. now rewrite <- app_assoc. }
rewrite !Hshape' in Hkey.
apply split_last in Hkey as [Hkey Hx]; [|apply str_of_Z_colon_free..].
apply split_first in Hkey as [Hty Hname]; [|assumption..].
apply str_of_Z_injective in Hx, Hy. unfold identity.
fold t1 t2 n1 n2. congruence.
Qed.

(** X18.  The deduplication key tells identities apart: two elements of the
    types the duplicate guard is consulted for (containers, icons, buttons
    and text boxes) have the same key only if they have the same type, name
    and position.  So the guard drops an element of these types only for an
    identity it has seen. *)
Theorem X18_element_key_injective :
  forall e1 e2 : GUIElement,
    guarded_type e1 = true -> guarded_type e2 = true ->
    HOI4GUIParser._get_element_key e1 = HOI4GUIParser._get_element_key e2 ->
    identity e1 = identity e2.
Proof.
intros e1 e2 H1 H2. apply element_key_injective; now apply guarded_type_colon_free.
Qed.

Lemma X18_element_key_injective_witness :
  guarded_type Samples.main_container = true /\
  HOI4GUIParser._get_element_key Samples.main_container = str "containerWindowType:main:0:0" /\
  identity Samples.main_container
  = identity (HOI4GUIParser.element (str "main") (str "containerWindowType")
                default_Position None (Some (str "GFX_bg"))).
Proof.
split; [reflexivity|]. split; [reflexivity|].
exact (X18_element_key_injective Samples.main_container
         (HOI4GUIParser.element (str "main") (str "containerWindowType")
            default_Position None (Some (str "GFX_bg")))
         eq_refl eq_refl eq_refl).
Defined.

(* ===================================================================== *)
(** ** Reading a text with a pattern *)
(* ===================================================================== *)

Section Reads.
Variable fl : flags.

Lemma reads_weaken (r : regex) (t : text) (gs : captures) (a a' : text -> Prop) :
  (forall rest, a' rest -> a rest) -> reads fl r t gs a -> reads fl r t gs a'.
Proof. intros Ha Hr c g k m rest Hrest Hafter. apply (Hr c g k m rest Hrest). auto. Qed.

Lemma reads_Lit (s : text) : reads fl (Lit s) s [] (fun _ => True).
Proof. intros c g k m rest Hrest _ Hk. now rewrite (exec_Lit _ fl s c g k rest Hrest). Qed.

Lemma reads_Chr (a : ascii) : reads fl (Chr a) [a] [] (fun _ => True).
Proof. intros c g k m rest Hrest _ Hk. now rewrite (exec_Chr _ fl a c g k rest Hrest). Qed.

Lemma reads_Seq (r1 r2 : regex) (t1 t2 : text) (g1 g2 : captures) (a1 a2 : text -> Prop) :
  reads fl r1 t1 g1 a1 -> reads fl r2 t2 g2 a2 ->
  (forall rest, a2 rest -> a1 (t2 ++ rest)) ->
  reads fl (Seq r1 r2) (t1 ++ t2) (g2 ++ g1) a2.
Proof.
intros H1 H2 Hlink c g k m rest Hrest Hafter Hk. rewrite exec_Seq.
rewrite <- app_assoc in Hrest.
apply (H1 c g _ m (t2 ++ rest) Hrest (Hlink rest Hafter)).
destruct (feed_spec t1 c _ Hrest) as [Hr1 _].
apply (H2 (feed c t1) (g1 ++ g) k m rest Hr1 Hafter).
now rewrite <- feed_app, app_assoc.
Qed.

Lemma reads_Group (n : nat) (r : regex) (t : text) (gs : captures) (a : text -> Prop) :
  reads fl r t gs a -> reads fl (Group n r) t ((n, t) :: gs) a.
Proof.
intros Hr c g k m rest Hrest Hafter Hk. rewrite exec_Group.
apply (Hr c g _ m rest Hrest Hafter).
destruct (feed_spec t c _ Hrest) as [_ Hpos].
rewrite Hpos, Nat.add_comm, Nat.add_sub, Hrest, firstn_app_length.
exact Hk.
Qed.

End Reads.

Lemma space_not_digit (c : ascii) : is_space c = true -> is_digit c = false.
Proof.
destruct c as [b0 b1 b2 b3 b4 b5 b6 b7].
destruct b0, b1, b2, b3, b4, b5, b6, b7; vm_compute; congruence.
Qed.

Lemma cls_digit (c : ascii) : cls_matches no_flags false [CDigit] c = is_digit c.
Proof. unfold cls_matches, members_have. cbn. now rewrite !orb_false_r. Qed.

Lemma stops_head (p : ascii -> bool) (c : ascii) (s rest : text) :
  p c = false -> stops p ((c :: s) ++ rest).
Proof. intros H. exact H. Qed.

(** After a stretch of white space, or directly, a character that is
    neither white space nor a digit. *)
Lemma stops_digit_gap (w s rest : text) (c : ascii) :
  forallb is_space w = true -> is_digit c = false ->
  stops is_digit (w ++ (c :: s) ++ rest).
Proof.
intros Hw Hc. destruct w as [|y w]; [exact Hc|].
cbn [forallb] in Hw. apply andb_true_iff in Hw as [Hy _].
now apply space_not_digit.
Qed.

Lemma reads_ws (w : text) :
  forallb is_space w = true -> reads no_flags Pat.ws w [] (stops is_space).
Proof.
intros Hw c g k m rest Hrest Hafter Hk. unfold Pat.ws, Sp.
apply (exec_star_run _ no_flags false [CSpace] k g m w c rest Hrest);
  [now apply spaces_in_set | | exact Hk].
destruct rest as [|y rest]; [exact I|]. now apply space_set_plain.
Qed.

Lemma reads_eq_sign (w1 w2 : text) :
  forallb is_space w1 = true -> forallb is_space w2 = true ->
  reads no_flags Pat.eq_sign (w1 ++ ["="%char] ++ w2) [] (stops is_space).
Proof.
intros H1 H2. unfold Pat.eq_sign.
change (Cat [Pat.ws; Chr "="; Pat.ws]) with (Seq Pat.ws (Seq (Chr "=") Pat.ws)).
apply (reads_Seq no_flags Pat.ws _ w1 _ [] [] (stops is_space) (stops is_space));
  [now apply reads_ws | | intros rest _; reflexivity].
apply (reads_Seq no_flags (Chr "=") Pat.ws ["="%char] w2 [] [] (fun _ => True)
         (stops is_space)); [apply reads_Chr | now apply reads_ws | auto].
Qed.

Lemma reads_digits (ds : text) :
  ds <> [] -> forallb is_digit ds = true ->
  reads no_flags (Plus Dg) ds [] (stops is_digit).
Proof.
intros Hne Hds c g k m rest Hrest Hafter Hk.
destruct ds as [|a ds]; [contradiction|]. unfold Dg.
apply (exec_plus_run _ no_flags false [CDigit] k g m a ds c rest Hrest); [| | exact Hk].
- apply (forallb_ext_eq _ is_digit); [apply cls_digit | exact Hds].
- destruct rest as [|y rest]; [exact I|]. rewrite cls_digit. exact Hafter.
Qed.

(** The signed-integer pattern reads [str(z)]. *)
Lemma reads_signed_int (z : Z) :
  reads no_flags Pat.signed_int (str_of_Z z) [] (stops is_digit).
Proof.
destruct (str_of_Z_digits z) as (ds & -> & Hne & Hds & _).
intros c g k m rest Hrest Hafter Hk. unfold Pat.signed_int.
rewrite exec_Seq, exec_Opt.
destruct (z <? 0)%Z.
- cbn [app] in *.
  rewrite (exec_Cls _ no_flags false [CChar "+"; CChar "-"] "-"%char c g _ (ds ++ rest)
             Hrest eq_refl).
  destruct (feed_spec ["-"%char] c (ds ++ rest) Hrest) as [Hr1 _].
  assert (Hdigits : exec Match no_flags (Plus Dg) (feed c ["-"%char]) g k = Some m).
  { apply (reads_digits ds Hne Hds (feed c ["-"%char]) g k m rest Hr1 Hafter).
    cbn [app]. now rewrite <- feed_app. }
  now rewrite Hdigits.
- cbn [app] in *.
  assert (Hdigits : exec Match no_flags (Plus Dg) c g k = Some m)
    by (apply (reads_digits ds Hne Hds c g k m rest Hrest Hafter); exact Hk).
  destruct ds as [|a ds]; [contradiction|].
  cbn [forallb] in Hds. apply andb_true_iff in Hds as [Ha _].
  assert (Hsign : cls_matches no_flags false [CChar "+"; CChar "-"] a = false).
  { unfold cls_matches, members_have. cbn [existsb cset_has IGNORECASE no_flags andb].
    rewrite !orb_false_r.
    rewrite (Ascii.eqb_sym "+" a), (Ascii.eqb_sym "-" a).
    rewrite (digit_not_char a "+"%char Ha) by (left; cbn; lia).
    now rewrite (digit_not_char a "-"%char Ha) by (left; cbn; lia). }
  cbn [exec]. cbn [app] in Hrest. rewrite Hrest, Hsign. exact Hdigits.
Qed.

Lemma str_of_Z_head (z : Z) :
  exists c s, str_of_Z z = c :: s /\ is_space c = false.
Proof.
destruct (str_of_Z_digits z) as (ds & -> & Hne & Hds & _).
destruct (z <? 0)%Z; [now exists "-"%char, ds|].
destruct ds as [|a ds]; [contradiction|]. exists a, ds. split; [reflexivity|].
cbn [forallb] in Hds. apply andb_true_iff in Hds as [Ha _].
destruct (is_space a) eqn:E; [|reflexivity]. apply space_not_digit in E. congruence.
Qed.

Section NamedPair.
Import HOI4GUIParser.

Variables (key first' second' t1' t2' : text) (fc sc c1 c2 : ascii).
Variable number : regex.
Variable w : list text.

Let first := fc :: first'.
Let second := sc :: second'.
Let t1 := c1 :: t1'.
Let t2 := c2 :: t2'.

Hypothesis gaps : forall i, forallb is_space (gap w i) = true.
Hypothesis first_head : is_space fc = false.
Hypothesis second_head : is_space sc = false /\ is_digit sc = false.
Hypothesis t1_head : is_space c1 = false.
Hypothesis t2_head : is_space c2 = false.
Hypothesis number_t1 : reads no_flags number t1 [] (stops is_digit).
Hypothesis number_t2 : reads no_flags number t2 [] (stops is_digit).

Lemma reads_pair_named :
  reads no_flags (pair_named key first second number)
    (named_pair_text key first second t1 t2 w) [(2, t2); (1, t1)] (fun _ => True).
Proof.
pose (T13 := [Pat.close_brace]).
pose (T12 := gap w 8 ++ T13).
pose (T11 := t2 ++ T12).
pose (T10 := (gap w 6 ++ ["="%char] ++ gap w 7) ++ T11).
pose (T9 := second ++ T10).
pose (T8 := gap w 5 ++ T9).
pose (T7 := t1 ++ T8).
pose (T6 := (gap w 3 ++ ["="%char] ++ gap w 4) ++ T7).
pose (T5 := first ++ T6).
pose (T4 := gap w 2 ++ T5).
pose (T3 := [Pat.open_brace] ++ T4).
pose (T2 := (gap w 0 ++ ["="%char] ++ gap w 1) ++ T3).
assert (Htext : named_pair_text key first second t1 t2 w = key ++ T2).
{ unfold named_pair_text, T2, T3, T4, T5, T6, T7, T8, T9, T10, T11, T12, T13.
  rewrite <- !app_assoc. reflexivity. }
rewrite Htext. clear Htext.
assert (R13 : reads no_flags (Chr Pat.close_brace) T13 [] (fun _ => True))
  by apply reads_Chr.
assert (R12 : reads no_flags (Seq Pat.ws (Chr Pat.close_brace)) T12 [] (fun _ => True)).
{ apply (reads_Seq no_flags _ _ (gap w 8) T13 [] [] (stops is_space) (fun _ => True));
    [apply reads_ws, gaps | exact R13 | intros rest _; reflexivity]. }
assert (R11 : reads no_flags (Seq (Group 2 number) (Seq Pat.ws (Chr Pat.close_brace)))
                T11 [(2, t2)] (fun _ => True)).
{ apply (reads_Seq no_flags _ _ t2 T12 [(2, t2)] [] (stops is_digit) (fun _ => True));
    [apply reads_Group, number_t2 | exact R12 |].
  intros rest _. unfold T12, T13. rewrite <- app_assoc.
  apply (stops_digit_gap (gap w 8) [] rest Pat.close_brace); [apply gaps | reflexivity]. }
assert (R10 : reads no_flags
                (Seq Pat.eq_sign (Seq (Group 2 number) (Seq Pat.ws (Chr Pat.close_brace))))
                T10 [(2, t2)] (fun _ => True)).
{ apply (reads_Seq no_flags _ _ _ T11 [] [(2, t2)] (stops is_space) (fun _ => True));
    [apply reads_eq_sign; apply gaps | exact R11 |].
  intros rest _. exact t2_head. }
assert (R9 : reads no_flags
               (Seq (Lit second)
                  (Seq Pat.eq_sign (Seq (Group 2 number) (Seq Pat.ws (Chr Pat.close_brace)))))
               T9 [(2, t2)] (fun _ => True)).
{ apply (reads_Seq no_flags _ _ second T10 [] [(2, t2)] (fun _ => True) (fun _ => True));
    [apply reads_Lit | exact R10 | auto]. }
assert (R8 : reads no_flags
               (Seq Pat.ws
                  (Seq (Lit second)
                     (Seq Pat.eq_sign
                        (Seq (Group 2 number) (Seq Pat.ws (Chr Pat.close_brace))))))
               T8 [(2, t2)] (fun _ => True)).
{ apply (reads_Seq no_flags _ _ (gap w 5) T9 [] [(2, t2)] (stops is_space) (fun _ => True));
    [apply reads_ws, gaps | exact R9 |].
  intros rest _. exact (proj1 second_head). }
set (tail8 := Seq Pat.ws
                (Seq (Lit second)
                   (Seq Pat.eq_sign
                      (Seq (Group 2 number) (Seq Pat.ws (Chr Pat.close_brace)))))) in *.
assert (R7 : reads no_flags (Seq (Group 1 number) tail8) T7 [(2, t2); (1, t1)]
               (fun _ => True)).
{ apply (reads_Seq no_flags _ _ t1 T8 [(1, t1)] [(2, t2)] (stops is_digit) (fun _ => True));
    [apply reads_Group, number_t1 | exact R8 |].
  intros rest _. unfold T8, T9. rewrite <- !app_assoc.
  apply (stops_digit_gap (gap w 5) second' (T10 ++ rest) sc);
    [apply gaps | exact (proj2 second_head)]. }
assert (R6 : reads no_flags (Seq Pat.eq_sign (Seq (Group 1 number) tail8)) T6
               [(2, t2); (1, t1)] (fun _ => True)).
{ apply (reads_Seq no_flags _ _ _ T7 [] [(2, t2); (1, t1)] (stops is_space)
           (fun _ => True));
    [apply reads_eq_sign; apply gaps | exact R7 |].
  intros rest _. exact t1_head. }
assert (R5 : reads no_flags (Seq (Lit first) (Seq Pat.eq_sign (Seq (Group 1 number) tail8)))
               T5 [(2, t2); (1, t1)] (fun _ => True)).
{ apply (reads_Seq no_flags _ _ first T6 [] [(2, t2); (1, t1)] (fun _ => True)
           (fun _ => True)); [apply reads_Lit | exact R6 | auto]. }
set (tail5 := Seq (Lit first) (Seq Pat.eq_sign (Seq (Group 1 number) tail8))) in *.
assert (R4 : reads no_flags (Seq Pat.ws tail5) T4 [(2, t2); (1, t1)] (fun _ => True)).
{ apply (reads_Seq no_flags _ _ (gap w 2) T5 [] [(2, t2); (1, t1)] (stops is_space)
           (fun _ => True)); [apply reads_ws, gaps | exact R5 |].
  intros rest _. exact first_head. }
assert (R3 : reads no_flags (Seq (Chr Pat.open_brace) (Seq Pat.ws tail5)) T3
               [(2, t2); (1, t1)] (fun _ => True)).
{ apply (reads_Seq no_flags _ _ [Pat.open_brace] T4 [] [(2, t2); (1, t1)] (fun _ => True)
           (fun _ => True)); [apply reads_Chr | exact R4 | auto]. }
assert (R2 : reads no_flags (Seq Pat.eq_sign (Seq (Chr Pat.open_brace) (Seq Pat.ws tail5)))
               T2 [(2, t2); (1, t1)] (fun _ => True)).
{ apply (reads_Seq no_flags _ _ _ T3 [] [(2, t2); (1, t1)] (stops is_space)
           (fun _ => True)); [apply reads_eq_sign; apply gaps | exact R3 |].
  intros rest _. reflexivity. }
apply (reads_Seq no_flags (Lit key) _ key T2 [] [(2, t2); (1, t1)] (fun _ => True)
         (fun _ => True)); [apply reads_Lit | exact R2 | auto].
Qed.

End NamedPair.

Section Geometry.
Import HOI4GUIParser.

(** The named form of a pair matches where its text stands, with the two
    numbers as its groups. *)
Lemma match_pair_named (key first' second' : text) (fc sc : ascii) (number : regex)
  (n1 n2 : text) (w : list text) (post : text) (c : cursor) :
  (forall i, forallb is_space (gap w i) = true) ->
  is_space fc = false -> is_space sc = false /\ is_digit sc = false ->
  (exists c1 s1, n1 = c1 :: s1 /\ is_space c1 = false) ->
  (exists c2 s2, n2 = c2 :: s2 /\ is_space c2 = false) ->
  reads no_flags number n1 [] (stops is_digit) ->
  reads no_flags number n2 [] (stops is_digit) ->
  c_rest c = named_pair_text key (fc :: first') (sc :: second') n1 n2 w ++ post ->
  exists m,
    match_at no_flags (pair_named key (fc :: first') (sc :: second') number) false c = Some m /\
    group_or_empty m 1 = n1 /\ group_or_empty m 2 = n2.
Proof.
intros Hgaps Hfc Hsc (c1 & s1 & -> & Hc1) (c2 & s2 & -> & Hc2) Hn1 Hn2 Hrest.
eexists. split.
- unfold match_at.
  apply (reads_pair_named key first' second' s1 s2 fc sc c1 c2 number w
           Hgaps Hfc Hsc Hc1 Hc2 Hn1 Hn2 c [] _ _ post Hrest I).
  reflexivity.
- split; reflexivity.
Qed.

Lemma extract_pair_named (key first' second' : text) (fc sc : ascii) (number : regex)
  (n1 n2 : text) (w : list text) (pre post : text) :
  (forall i, forallb is_space (gap w i) = true) ->
  is_space fc = false -> is_space sc = false /\ is_digit sc = false ->
  (exists c1 s1, n1 = c1 :: s1 /\ is_space c1 = false) ->
  (exists c2 s2, n2 = c2 :: s2 /\ is_space c2 = false) ->
  reads no_flags number n1 [] (stops is_digit) ->
  reads no_flags number n2 [] (stops is_digit) ->
  let r := pair_named key (fc :: first') (sc :: second') number in
  let content := pre ++ named_pair_text key (fc :: first') (sc :: second') n1 n2 w ++ post in
  (forall j, j < length pre -> matches_at r content j = false) ->
  int_pair r content
  = (first <- int_of_text n1;; second <- int_of_text n2;; Returned (Some (first, second))).
Proof.
intros Hgaps Hfc Hsc H1 H2 Hn1 Hn2 r content Hnone.
assert (Hrest : c_rest (cursor_at content (length pre))
                = named_pair_text key (fc :: first') (sc :: second') n1 n2 w ++ post).
{ unfold content. cbn [c_rest cursor_at]. apply skipn_app_length. }
destruct (match_pair_named key first' second' fc sc number n1 n2 w post _
            Hgaps Hfc Hsc H1 H2 Hn1 Hn2 Hrest) as (m & Hm & Hg1 & Hg2).
unfold int_pair. fold r.
rewrite (search_first no_flags r content m (length pre)).
- now rewrite Hg1, Hg2.
- unfold content. rewrite length_app. lia.
- intros j Hj. specialize (Hnone j Hj). unfold matches_at in Hnone.
  destruct (match_at no_flags r false (cursor_at content j)); [discriminate | reflexivity].
- exact Hm.
Qed.

Lemma reads_natural (z : Z) :
  (0 <= z)%Z -> reads no_flags (Plus Dg) (str_of_Z z) [] (stops is_digit).
Proof.
intros Hz. destruct (str_of_Z_digits z) as (ds & -> & Hne & Hds & _).
replace (z <? 0)%Z with false by (symmetry; apply Z.ltb_ge; exact Hz).
now apply reads_digits.
Qed.

(** [int] on the writing of a number: the number, when the writing has no
    more digits than the limit allows; [ValueError] otherwise. *)
Lemma int_of_text_str (z : Z) :
  int_of_text (str_of_Z z)
  = if int_max_str_digits <? length (int_digits (str_of_Z z))
    then Raised (int_limit_message (length (int_digits (str_of_Z z))))
    else Returned z.
Proof. unfold int_of_text. now rewrite int_of_str. Qed.

Lemma int_of_text_within (z : Z) :
  length (int_digits (str_of_Z z)) <= int_max_str_digits ->
  int_of_text (str_of_Z z) = Returned z.
Proof.
intros H. rewrite int_of_text_str.
now replace (_ <? _) with false by (symmetry; apply Nat.ltb_ge; exact H).
Qed.

Lemma int_of_text_beyond (z : Z) :
  int_max_str_digits < length (int_digits (str_of_Z z)) ->
  int_of_text (str_of_Z z) = Raised (int_limit_message (length (int_digits (str_of_Z z)))).
Proof.
intros H. rewrite int_of_text_str.
now replace (_ <? _) with true by (symmetry; apply Nat.ltb_lt; exact H).
Qed.

End Geometry.

(** X19.  Writing and reading geometry.  Take a text in which the first
    [position = { x = .. y = .. }] block, with any white space between its
    tokens, holds the decimal writings of two integers.  When neither
    writing has more than 4300 digits, [_extract_position] returns that
    position; when the first has more, it raises the [ValueError] of
    [int], which names the number of digits.  Likewise [_extract_size] for
    the first [size = { width = .. height = .. }] block and two integers
    that are not negative. *)
Theorem X19_geometry_round_trip :
  forall (pre post : text) (w : list text) (a b : Z),
    (forall i, forallb is_space (gap w i) = true) ->
    (let content :=
       pre ++ named_pair_text (str "position") (str "x") (str "y")
                (str_of_Z a) (str_of_Z b) w ++ post in
     (forall j, j < length pre ->
        matches_at (HOI4GUIParser.pair_named (str "position") (str "x") (str "y")
                      Pat.signed_int) content j = false) ->
     (length (int_digits (str_of_Z a)) <= int_max_str_digits ->
      length (int_digits (str_of_Z b)) <= int_max_str_digits ->
      HOI4GUIParser._extract_position content = Returned (mkPosition a b)) /\
     (int_max_str_digits < length (int_digits (str_of_Z a)) ->
      HOI4GUIParser._extract_position content
      = Raised (int_limit_message (length (int_digits (str_of_Z a)))))) /\
    (let content :=
       pre ++ named_pair_text (str "size") (str "width") (str "height")
                (str_of_Z a) (str_of_Z b) w ++ post in
     (0 <= a)%Z -> (0 <= b)%Z ->
     (forall j, j < length pre ->
        matches_at (HOI4GUIParser.pair_named (str "size") (str "width") (str "height")
                      (Plus Dg)) content j = false) ->
     (length (int_digits (str_of_Z a)) <= int_max_str_digits ->
      length (int_digits (str_of_Z b)) <= int_max_str_digits ->
      HOI4GUIParser._extract_size content = Returned (Some (mkSize a b))) /\
     (int_max_str_digits < length (int_digits (str_of_Z a)) ->
      HOI4GUIParser._extract_size content
      = Raised (int_limit_message (length (int_digits (str_of_Z a)))))).
Proof.
intros pre post w a b Hgaps. split.
- intros content Hnone. unfold HOI4GUIParser._extract_position.
  unfold content in *.
  change (str "x") with ["x"%char] in *. change (str "y") with ["y"%char] in *.
  rewrite (extract_pair_named (str "position") [] [] "x"%char "y"%char Pat.signed_int
             (str_of_Z a) (str_of_Z b) w pre post Hgaps eq_refl (conj eq_refl eq_refl)
             (str_of_Z_head a) (str_of_Z_head b) (reads_signed_int a) (reads_signed_int b)
             Hnone).
  split.
  + intros Ha Hb. now rewrite (int_of_text_within a Ha), (int_of_text_within b Hb).
  + intros Ha. now rewrite (int_of_text_beyond a Ha).
- intros content Ha Hb Hnone. unfold HOI4GUIParser._extract_size.
  unfold content in *.
  change (str "width") with ("w"%char :: str "idth") in *.
  change (str "height") with ("h"%char :: str "eight") in *.
  rewrite (extract_pair_named (str "size") (str "idth") (str "eight") "w"%char "h"%char
             (Plus Dg) (str_of_Z a) (str_of_Z b) w pre post Hgaps eq_refl
             (conj eq_refl eq_refl) (str_of_Z_head a) (str_of_Z_head b)
             (reads_natural a Ha) (reads_natural b Hb) Hnone).
  split.
  + intros Hda Hdb. now rewrite (int_of_text_within a Hda), (int_of_text_within b Hdb).
  + intros Hda. now rewrite (int_of_text_beyond a Hda).
Qed.

(** A position of (-5, 12) among other properties. *)
Lemma X19_geometry_round_trip_witness :
  HOI4GUIParser._extract_position (qstr "name = `a` position = { x = -5 y = 12 } size = {}")
  = Returned (mkPosition (-5) 12).
Proof.
refine (proj1 (proj1 (X19_geometry_round_trip (qstr "name = `a` ") (str " size = {}")
                        (repeat (str " ") 9) (-5) 12 _) _) _ _).
- intros i. do 9 (destruct i as [|i]; [reflexivity|]). now destruct i.
- intros j Hj. do 11 (destruct j as [|j]; [vm_compute; reflexivity|]).
  exfalso. cbn in Hj. lia.
- vm_compute. lia.
- vm_compute. lia.
Defined.

(* ===================================================================== *)
(** ** When the binding applies *)
(* ===================================================================== *)

Section BindingCriteria.
Import HOI4GUIParser.

Lemma index_has_key defs : forall d0 k,
  has_key (index_definitions defs d0) k = true <->
  has_key d0 k = true \/ exists d, In d defs /\ sg_window_name d = k.
Proof.
induction defs as [|def defs IH]; intros d0 k; cbn [index_definitions fold_left].
- split; [auto | intros [H | (d & [] & _)]; exact H].
- fold (index_definitions defs (set d0 (sg_window_name def) def)). rewrite IH.
  destruct (text_eqb k (sg_window_name def)) eqn:E.
  + apply text_eqb_eq in E. subst k. split; [|intros _; left].
    * intros _. right. exists def. split; [now left | reflexivity].
    * unfold has_key. now rewrite get_set_same.
  + apply text_eqb_neq in E. rewrite has_key_set_other by exact E. split.
    * intros [H | (d & Hd & Hk)]; [now left | right; exists d; split; [now right | exact Hk]].
    * intros [H | (d & [<- | Hd] & Hk)]; [now left | congruence | right; now exists d].
Qed.

Lemma index_keyed_from_empty defs k v :
  In (k, v) (index_definitions defs []) -> k = sg_window_name v.
Proof. apply index_keyed. intros k' v' []. Qed.

(** A container is bound exactly when the index holds its name. *)
Lemma container_bound_iff defs e :
  is_dynamic e = false ->
  let data := index_definitions defs [] in
  (is_dynamic (apply_to_container data e) = true <->
   exists d, In d defs /\ sg_window_name d = name e) /\
  ((forall d, In d defs -> sg_window_name d <> name e) -> apply_to_container data e = e).
Proof.
intros Hdyn data.
assert (Hkeyed : forall k v, In (k, v) data -> k = sg_window_name v)
  by apply index_keyed_from_empty.
pose proof (index_has_key defs [] (name e)) as Hkey. fold data in Hkey.
unfold has_key in Hkey.
destruct (get data (name e)) as [d|] eqn:Hget.
- destruct (apply_to_container_bound data e d Hkeyed Hget) as (_ & _ & _ & Hbound & _).
  split.
  + split; [intros _ | intros _; exact Hbound].
    destruct (proj1 Hkey eq_refl) as [H | H]; [discriminate H | exact H].
  + intros Hnone. destruct (proj1 Hkey eq_refl) as [H | (d' & Hd' & Hk)];
      [discriminate H | now contradiction (Hnone d' Hd')].
- assert (Hsame : apply_to_container data e = e).
  { unfold apply_to_container. rewrite Hget. rewrite scan_is_lookup by exact Hkeyed.
    now rewrite Hget. }
  rewrite Hsame. split; [|auto]. split; [congruence|].
  intros H. assert (Habs : false = true) by (apply Hkey; now right). discriminate Habs.
Qed.

Lemma first_key_some (patterns : list text) (d : dict text) :
  (exists v, first_key patterns d = Some v) <-> existsb (has_key d) patterns = true.
Proof.
unfold first_key. destruct (find (has_key d) patterns) as [p|] eqn:Hfind.
- apply find_some in Hfind as [Hin Hp]. split.
  + intros _. apply existsb_exists. now exists p.
  + intros _. apply has_key_get in Hp as [v Hv]. now exists v.
- split; [intros [v [=]]|]. intros H. apply existsb_exists in H as (p & Hin & Hp).
  pose proof (find_none _ _ Hfind p Hin) as Hnone. congruence.
Qed.

(** One definition binds a widget exactly when it names it. *)
Lemma widget_step (d : ScriptedGUIDefinition) (more : list ScriptedGUIDefinition)
  (e : GUIElement) :
  (names_widget d (name e) = true /\ is_dynamic (apply_to_widget (d :: more) e) = true) \/
  (names_widget d (name e) = false /\
   apply_to_widget (d :: more) e = apply_to_widget more e).
Proof.
cbn [apply_to_widget]. unfold names_widget.
set (triggered :=
  match sg_triggers d with
  | Some (kv :: d0) =>
    first_key [name e ++ str "_click_enabled"; name e ++ str "_visible";
               name e ++ str "_visible"; name e ++ str "_click_enabled"] (kv :: d0)
  | _ => None
  end).
set (clicked :=
  match sg_effects d with
  | Some (kv :: d0) => first_key [name e ++ str "_click"; name e ++ str "_click"] (kv :: d0)
  | _ => None
  end).
assert (Ht : (exists v, triggered = Some v) <->
             match sg_triggers d with
             | Some (kv :: d0) =>
               has_key (kv :: d0) (name e ++ str "_click_enabled")
               || has_key (kv :: d0) (name e ++ str "_visible")
             | _ => false
             end = true).
{ unfold triggered. destruct (sg_triggers d) as [[|kv d0]|];
    [split; [intros [v [=]] | discriminate] | | split; [intros [v [=]] | discriminate]].
  rewrite first_key_some. cbn [existsb].
  destruct (has_key (kv :: d0) (name e ++ str "_click_enabled")),
           (has_key (kv :: d0) (name e ++ str "_visible")); cbn; tauto. }
assert (Hc : (exists v, clicked = Some v) <->
             match sg_effects d with
             | Some (kv :: d0) => has_key (kv :: d0) (name e ++ str "_click")
             | _ => false
             end = true).
{ unfold clicked. destruct (sg_effects d) as [[|kv d0]|];
    [split; [intros [v [=]] | discriminate] | | split; [intros [v [=]] | discriminate]].
  rewrite first_key_some. cbn [existsb].
  destruct (has_key (kv :: d0) (name e ++ str "_click")); cbn; tauto. }
destruct triggered as [cond|].
- left. split; [|reflexivity]. apply orb_true_iff. left. apply Ht. now exists cond.
- destruct clicked as [eff|].
  + left. split; [|reflexivity]. apply orb_true_iff. right. apply Hc. now exists eff.
  + right. split; [|reflexivity]. apply orb_false_iff. split.
    * destruct (match sg_triggers d with Some (kv :: d0) => _ | _ => false end);
        [|reflexivity]. destruct (proj2 Ht eq_refl) as [v [=]].
    * destruct (match sg_effects d with Some (kv :: d0) => _ | _ => false end);
        [|reflexivity]. destruct (proj2 Hc eq_refl) as [v [=]].
Qed.

Lemma widget_bound_iff (defs : list ScriptedGUIDefinition) (e : GUIElement) :
  is_dynamic e = false ->
  (is_dynamic (apply_to_widget defs e) = true <->
   exists d, In d defs /\ names_widget d (name e) = true) /\
  ((forall d, In d defs -> names_widget d (name e) = false) -> apply_to_widget defs e = e).
Proof.
intros Hdyn. induction defs as [|d defs [IH1 IH2]].
- cbn [apply_to_widget]. split; [|auto]. split; [congruence | intros (d & [] & _)].
- destruct (widget_step d defs e) as [[Hn Hb] | [Hn ->]].
  + split.
    * split; [intros _; exists d; split; [now left | exact Hn] | intros _; exact Hb].
    * intros Hnone. rewrite (Hnone d) in Hn by now left. discriminate Hn.
  + split.
    * rewrite IH1. split.
      -- intros (d' & Hd' & Hn'). exists d'. split; [now right | exact Hn'].
      -- intros (d' & [<- | Hd'] & Hn'); [congruence | now exists d'].
    * intros Hnone. apply IH2. intros d' Hd'. apply Hnone. now right.
Qed.

End BindingCriteria.

(** X20.  When a container is bound.  With the binding data set from a list
    of definitions, a container that is not yet dynamic is marked dynamic
    exactly when some definition of the list has its name as window name;
    when none has, the container is left as it is: the second search, by
    window name over all definitions, finds nothing the lookup by key
    missed. *)
Theorem X20_container_bound_iff_named :
  forall (defs : list ScriptedGUIDefinition) (self : HOI4GUIParser.t) (e : GUIElement),
    is_dynamic e = false ->
    let data := HOI4GUIParser.scripted_gui_data
                  (HOI4GUIParser.set_scripted_gui_data defs self) in
    (is_dynamic (HOI4GUIParser.apply_to_container data e) = true <->
     exists d, In d defs /\ sg_window_name d = name e) /\
    ((forall d, In d defs -> sg_window_name d <> name e) ->
     HOI4GUIParser.apply_to_container data e = e).
Proof.
intros defs self e Hdyn data. unfold data. rewrite scripted_gui_data_set.
now apply container_bound_iff.
Qed.

(** Two definitions name the window [main]: the container [main] is bound;
    and with no definition at all it is left as it is. *)
Lemma X20_container_bound_iff_named_witness :
  is_dynamic Samples.main_container = false /\
  is_dynamic
    (HOI4GUIParser.apply_to_container
       (HOI4GUIParser.scripted_gui_data
          (HOI4GUIParser.set_scripted_gui_data [Samples.first_def; Samples.second_def]
             HOI4GUIParser.init))
       Samples.main_container) = true /\
  HOI4GUIParser.apply_to_container
    (HOI4GUIParser.scripted_gui_data
       (HOI4GUIParser.set_scripted_gui_data [Samples.flag_def] HOI4GUIParser.init))
    Samples.main_container
  = Samples.main_container.
Proof.
split; [reflexivity|]. split.
- apply (proj2 (proj1 (X20_container_bound_iff_named [Samples.first_def; Samples.second_def]
                         HOI4GUIParser.init Samples.main_container eq_refl))).
  exists Samples.first_def. split; [left; reflexivity | reflexivity].
- apply (proj2 (X20_container_bound_iff_named [Samples.flag_def] HOI4GUIParser.init
                  Samples.main_container eq_refl)).
  intros d [<- | []]. discriminate.
Defined.

(** X21.  When a button, an icon or a text box is bound.  Such an element,
    not yet dynamic, is marked dynamic exactly when one of the definitions
    names it, by a trigger called after it with [_click_enabled] or
    [_visible], or by an effect called after it with [_click]; when none
    does, the element is left as it is. *)
Theorem X21_widget_bound_iff_named :
  forall (defs : list ScriptedGUIDefinition) (e : GUIElement),
    is_dynamic e = false ->
    (is_dynamic (HOI4GUIParser.apply_to_widget defs e) = true <->
     exists d, In d defs /\ names_widget d (name e) = true) /\
    ((forall d, In d defs -> names_widget d (name e) = false) ->
     HOI4GUIParser.apply_to_widget defs e = e).
Proof. exact widget_bound_iff. Qed.

(** A button [flag] and two definitions, of which the second has the
    trigger [flag_visible]: the button is bound; with the first definition
    alone, which has no trigger and no effect, it is left as it is. *)
Lemma X21_widget_bound_iff_named_witness :
  is_dynamic Samples.flag_button = false /\
  names_widget Samples.flag_def (name Samples.flag_button) = true /\
  is_dynamic
    (HOI4GUIParser.apply_to_widget [Samples.first_def; Samples.flag_def] Samples.flag_button)
  = true /\
  HOI4GUIParser.apply_to_widget [Samples.first_def] Samples.flag_button = Samples.flag_button.
Proof.
split; [reflexivity|]. split; [reflexivity|]. split.
- apply (proj2 (proj1 (X21_widget_bound_iff_named [Samples.first_def; Samples.flag_def]
                         Samples.flag_button eq_refl))).
  exists Samples.flag_def. split; [right; left; reflexivity | reflexivity].
- apply (proj2 (X21_widget_bound_iff_named [Samples.first_def] Samples.flag_button eq_refl)).
  intros d [<- | []]. reflexivity.
Defined.
